(** * Safe Audio Environment System: level meter, limiter and pipeline

    A shallow embedding of [SafeAudioProcessor] (safe_audio_system.py) and of
    the limiter of [SimpleAudioProcessor] (simple_pc_to_headphone.py).

    Conventions of the embedding.
    - A numpy float array is a [list R]: floating-point values are read as
      the real numbers they denote and every numpy operation as the real
      function it approximates (no rounding, no NaN).
    - A numpy int16 array is a [list Z].
    - [-np.inf] is the constructor [NegInf] of [level].
    - A Python exception is the constructor [Raise] of [result]; attribute
      updates made before the exception are kept in the returned state.
    - numpy's FFT is the discrete Fourier transform, written out.
    - scipy's Butterworth design and the recursion of [filtfilt] are
      library code outside the repository: the numeric kernel is a variable
      of the section; the argument check of [filtfilt] (input longer than
      the padding) is modelled. *)

From Stdlib Require Import Reals Lra Lia ZArith List Bool Psatz.
Import ListNotations.
Open Scope R_scope.

(** ** Exceptions *)

Inductive exn := ValueError | TypeError.

Inductive result (A : Type) :=
| Ok (a : A)
| Raise (e : exn).
Arguments Ok {A} a.
Arguments Raise {A} e.

Definition bind {A B} (r : result A) (k : A -> result B) : result B :=
  match r with
  | Ok a => k a
  | Raise e => Raise e
  end.

Notation "x <- r ;; k" := (bind r (fun x => k))
  (at level 61, r at next level, right associativity).

(** ** numpy on real arrays *)

Module Np.

Definition len {A} (a : list A) : Z := Z.of_nat (length a).

Definition sum (a : list R) : R := fold_right Rplus 0 a.

(** [np.mean]; the callers guard the empty array. *)
Definition mean (a : list R) : R := sum a / IZR (len a).

(** [a ** 2] *)
Definition square (a : list R) : list R := map (fun x => x * x) a.

Definition log10 (x : R) : R := ln x / ln 10.

(** Element-wise binary operation on two arrays of one length. *)
Fixpoint map2 {A B C} (f : A -> B -> C) (a : list A) (b : list B) : list C :=
  match a, b with
  | x :: a', y :: b' => f x y :: map2 f a' b'
  | _, _ => []
  end.

(** Element-wise binary operation with numpy's broadcasting of
    one-dimensional arrays: equal lengths, or one operand of length 1;
    anything else is a [ValueError]. *)
Definition broadcast2 (f : R -> R -> R) (a b : list R) : result (list R) :=
  if (len a =? len b)%Z then Ok (map2 f a b)
  else match a, b with
       | _, [y] => Ok (map (fun x => f x y) a)
       | [x], _ => Ok (map (fun y => f x y) b)
       | _, _ => Raise ValueError
       end.

(** [int(x)] on a float and [astype] to an integer type: truncation
    toward zero. *)
Definition trunc (x : R) : Z :=
  if Rle_dec 0 x then Int_part x else (- Int_part (- x))%Z.

(** [np.clip(x, lo, hi)] *)
Definition clip (lo hi x : R) : R :=
  if Rlt_dec x lo then lo else if Rlt_dec hi x then hi else x.

(** Two's-complement wrap of an integer into the int16 range. *)
Definition wrap_int16 (z : Z) : Z := ((z + 32768) mod 65536 - 32768)%Z.

(** [x.astype(np.int16)] on a float. *)
Definition astype_int16 (x : R) : Z := wrap_int16 (trunc x).

End Np.

(** ** Levels in dB *)

Inductive level :=
| NegInf
| Fin (d : R).

(** [a <= b] on levels *)
Definition level_le (a b : level) : Prop :=
  match a, b with
  | NegInf, _ => True
  | Fin _, NegInf => False
  | Fin x, Fin y => x <= y
  end.

(** [a > m] for a level [a] and a finite [m] *)
Definition level_gt (a : level) (m : R) : Prop :=
  match a with
  | NegInf => False
  | Fin x => m < x
  end.

(** Python's [max(a, b)]: [b] when [b > a], else [a]. *)
Definition py_max (a b : level) : level :=
  match a, b with
  | _, NegInf => a
  | NegInf, Fin _ => b
  | Fin x, Fin y => if Rlt_dec x y then b else a
  end.

(** ** Level meter and limiter (safe_audio_system.py, lines 292-358) *)

(** [db_to_linear] *)
Definition db_to_linear (db : R) : R := Rpower 10 (db / 20).

(** [calculate_db_level] *)
Definition calculate_db_level (audio_data : list R) : level :=
  if (Np.len audio_data =? 0)%Z then NegInf
  else
    let rms := sqrt (Np.mean (Np.square audio_data)) in
    if Rlt_dec 0 rms then Fin (20 * Np.log10 rms + 94) else NegInf.

(** [adaptive_volume_control], with [self.MAX_DB] as first argument *)
Definition adaptive_volume_control (MAX_DB : R) (audio_data : list R)
  : list R * level :=
  let current_db := calculate_db_level audio_data in
  match current_db with
  | Fin d =>
      if Rlt_dec MAX_DB d then
        let reduction_db := d - MAX_DB in
        let reduction_factor := db_to_linear (- reduction_db) in
        let audio_data := map (fun x => x * reduction_factor) audio_data in
        let audio_data := map (fun x => tanh (x * 0.8) * 0.8) audio_data in
        (audio_data, current_db)
      else (audio_data, current_db)
  | NegInf => (audio_data, current_db)
  end.

(** ** Complex numbers and the discrete Fourier transform (np.fft) *)

Definition C : Type := R * R.

Definition RtoC (x : R) : C := (x, 0).
Definition Re (z : C) : R := fst z.
Definition Im (z : C) : R := snd z.
Definition Cadd (z w : C) : C := (Re z + Re w, Im z + Im w).
Definition Cmul (z w : C) : C :=
  (Re z * Re w - Im z * Im w, Re z * Im w + Im z * Re w).
Definition Cscale (r : R) (z : C) : C := (r * Re z, r * Im z).

(** [np.exp(1j * t)] *)
Definition cis (t : R) : C := (cos t, sin t).

(** [np.abs] on a complex number *)
Definition Cabs (z : C) : R := sqrt (Re z * Re z + Im z * Im z).

(** [np.arctan2(y, x)] *)
Definition arctan2 (y x : R) : R :=
  if Rlt_dec 0 x then atan (y / x)
  else if Rlt_dec x 0 then
         if Rle_dec 0 y then atan (y / x) + PI else atan (y / x) - PI
  else if Rlt_dec 0 y then PI / 2
  else if Rlt_dec y 0 then - (PI / 2)
  else 0.

(** [np.angle] *)
Definition Cangle (z : C) : R := arctan2 (Im z) (Re z).

Definition Csum (a : list C) : C := fold_right Cadd (0, 0) a.

(** The transform both [fft] ([sgn = -1]) and [ifft] ([sgn = 1], before
    the division by the length) compute:
    [A_k = sum_m a_m * exp(sgn * 2 pi i * k * m / n)]. *)
Definition dft (sgn : R) (a : list C) : list C :=
  let n := length a in
  map (fun k =>
         Csum (map (fun m =>
                      Cmul (nth m a (0, 0))
                           (cis (sgn * (2 * PI * INR k * INR m / INR n))))
                   (seq 0 n)))
      (seq 0 n).

(** [np.fft.fft] on a real array; numpy refuses an empty array. *)
Definition np_fft (a : list R) : result (list C) :=
  match a with
  | [] => Raise ValueError
  | _ => Ok (dft (-1) (map RtoC a))
  end.

(** [np.fft.ifft] *)
Definition np_ifft (a : list C) : result (list C) :=
  match a with
  | [] => Raise ValueError
  | _ => Ok (map (Cscale (/ INR (length a))) (dft 1 a))
  end.

(** [np.hanning(M)] *)
Definition np_hanning (M : Z) : list R :=
  if (M <? 1)%Z then []
  else if (M =? 1)%Z then [1]
  else map (fun k => 0.5 + 0.5 * cos (PI * IZR (1 - M + 2 * Z.of_nat k)
                                       / IZR (M - 1)))
           (seq 0 (Z.to_nat M)).

(** ** collections.deque with a maximum length *)

Record deque := { maxlen : Z; items : list R }.

Definition lastn {A} (n : nat) (l : list A) : list A :=
  skipn (length l - n) l.

(** [d.extend(xs)]: append on the right, discard on the left what exceeds
    [maxlen]. *)
Definition deque_extend (d : deque) (xs : list R) : deque :=
  {| maxlen := maxlen d;
     items := lastn (Z.to_nat (maxlen d)) (items d ++ xs) |}.

(** ** The processor (class SafeAudioProcessor) *)

(** The attributes [process_audio_chunk] and the functions it calls read or
    write. [processed_db] is not set by [__init__]: it is [None] until the
    first assignment. *)
Record SafeAudioProcessor := {
  CHUNK : Z;
  RATE : Z;
  MAX_DB : R;
  noise_profile : option (list R);
  noise_learning_duration : R;
  noise_reduction_factor : R;
  noise_buffer : deque;
  learning_noise : bool;
  noise_learned : bool;
  processing_enabled : bool;
  current_db : level;
  max_db_recorded : level;
  processed_db : option level
}.

Definition set_noise_profile (s : SafeAudioProcessor) v :=
  {| CHUNK := CHUNK s; RATE := RATE s; MAX_DB := MAX_DB s;
     noise_profile := v;
     noise_learning_duration := noise_learning_duration s;
     noise_reduction_factor := noise_reduction_factor s;
     noise_buffer := noise_buffer s;
     learning_noise := learning_noise s; noise_learned := noise_learned s;
     processing_enabled := processing_enabled s;
     current_db := current_db s; max_db_recorded := max_db_recorded s;
     processed_db := processed_db s |}.

Definition set_noise_buffer (s : SafeAudioProcessor) v :=
  {| CHUNK := CHUNK s; RATE := RATE s; MAX_DB := MAX_DB s;
     noise_profile := noise_profile s;
     noise_learning_duration := noise_learning_duration s;
     noise_reduction_factor := noise_reduction_factor s;
     noise_buffer := v;
     learning_noise := learning_noise s; noise_learned := noise_learned s;
     processing_enabled := processing_enabled s;
     current_db := current_db s; max_db_recorded := max_db_recorded s;
     processed_db := processed_db s |}.

Definition set_learning_noise (s : SafeAudioProcessor) v :=
  {| CHUNK := CHUNK s; RATE := RATE s; MAX_DB := MAX_DB s;
     noise_profile := noise_profile s;
     noise_learning_duration := noise_learning_duration s;
     noise_reduction_factor := noise_reduction_factor s;
     noise_buffer := noise_buffer s;
     learning_noise := v; noise_learned := noise_learned s;
     processing_enabled := processing_enabled s;
     current_db := current_db s; max_db_recorded := max_db_recorded s;
     processed_db := processed_db s |}.

Definition set_noise_learned (s : SafeAudioProcessor) v :=
  {| CHUNK := CHUNK s; RATE := RATE s; MAX_DB := MAX_DB s;
     noise_profile := noise_profile s;
     noise_learning_duration := noise_learning_duration s;
     noise_reduction_factor := noise_reduction_factor s;
     noise_buffer := noise_buffer s;
     learning_noise := learning_noise s; noise_learned := v;
     processing_enabled := processing_enabled s;
     current_db := current_db s; max_db_recorded := max_db_recorded s;
     processed_db := processed_db s |}.

Definition set_current_db (s : SafeAudioProcessor) v :=
  {| CHUNK := CHUNK s; RATE := RATE s; MAX_DB := MAX_DB s;
     noise_profile := noise_profile s;
     noise_learning_duration := noise_learning_duration s;
     noise_reduction_factor := noise_reduction_factor s;
     noise_buffer := noise_buffer s;
     learning_noise := learning_noise s; noise_learned := noise_learned s;
     processing_enabled := processing_enabled s;
     current_db := v; max_db_recorded := max_db_recorded s;
     processed_db := processed_db s |}.

Definition set_max_db_recorded (s : SafeAudioProcessor) v :=
  {| CHUNK := CHUNK s; RATE := RATE s; MAX_DB := MAX_DB s;
     noise_profile := noise_profile s;
     noise_learning_duration := noise_learning_duration s;
     noise_reduction_factor := noise_reduction_factor s;
     noise_buffer := noise_buffer s;
     learning_noise := learning_noise s; noise_learned := noise_learned s;
     processing_enabled := processing_enabled s;
     current_db := current_db s; max_db_recorded := v;
     processed_db := processed_db s |}.

Definition set_processed_db (s : SafeAudioProcessor) v :=
  {| CHUNK := CHUNK s; RATE := RATE s; MAX_DB := MAX_DB s;
     noise_profile := noise_profile s;
     noise_learning_duration := noise_learning_duration s;
     noise_reduction_factor := noise_reduction_factor s;
     noise_buffer := noise_buffer s;
     learning_noise := learning_noise s; noise_learned := noise_learned s;
     processing_enabled := processing_enabled s;
     current_db := current_db s; max_db_recorded := max_db_recorded s;
     processed_db := v |}.

Definition set_noise_reduction_factor (s : SafeAudioProcessor) v :=
  {| CHUNK := CHUNK s; RATE := RATE s; MAX_DB := MAX_DB s;
     noise_profile := noise_profile s;
     noise_learning_duration := noise_learning_duration s;
     noise_reduction_factor := v;
     noise_buffer := noise_buffer s;
     learning_noise := learning_noise s; noise_learned := noise_learned s;
     processing_enabled := processing_enabled s;
     current_db := current_db s; max_db_recorded := max_db_recorded s;
     processed_db := processed_db s |}.

(** [__init__] (lines 23-56) *)
Definition init : SafeAudioProcessor :=
  {| CHUNK := 1024; RATE := 44100; MAX_DB := 70;
     noise_profile := None;
     noise_learning_duration := 3;
     noise_reduction_factor := 0.7;
     noise_buffer := {| maxlen := Np.trunc (IZR 44100 * 3); items := [] |};
     learning_noise := true; noise_learned := false;
     processing_enabled := true;
     current_db := Fin 0; max_db_recorded := Fin 0;
     processed_db := None |}.

(** [int(self.RATE * self.noise_learning_duration)] *)
Definition learning_window (self : SafeAudioProcessor) : Z :=
  Np.trunc (IZR (RATE self) * noise_learning_duration self).

(** [spectral_subtraction] (lines 318-341) *)
Definition spectral_subtraction (self : SafeAudioProcessor)
    (audio_data : list R) (noise_spectrum : option (list R))
  : result (list R) :=
  match noise_spectrum with
  | None => Ok audio_data
  | Some noise_spectrum =>
      if (Np.len audio_data <? 64)%Z then Ok audio_data
      else
        let windowed_audio :=
          Np.map2 Rmult audio_data (np_hanning (Np.len audio_data)) in
        audio_fft <- np_fft windowed_audio ;;
        let audio_spectrum := map Cabs audio_fft in
        let audio_phase := map Cangle audio_fft in
        subtracted <-
          Np.broadcast2 Rminus audio_spectrum
            (map (fun x => noise_reduction_factor self * x) noise_spectrum) ;;
        let enhanced_spectrum :=
          Np.map2 Rmax subtracted (map (fun x => 0.1 * x) audio_spectrum) in
        let enhanced_fft :=
          Np.map2 (fun m p => Cscale m (cis p)) enhanced_spectrum audio_phase in
        enhanced_ifft <- np_ifft enhanced_fft ;;
        Ok (map Re enhanced_ifft)
  end.

(** Back to int16 (line 416):
    [np.clip(audio_float * 32768.0, -32768, 32767).astype(np.int16)] *)
Definition to_int16 (audio_float : list R) : list Z :=
  map (fun x => Np.astype_int16 (Np.clip (-32768) 32767 (x * 32768)))
      audio_float.

(** [audio_data.astype(np.float32) / 32768.0] (line 375) *)
Definition to_float (audio_data : list Z) : list R :=
  map (fun z => IZR z / 32768) audio_data.

(** The processor after lines 378-380 of [process_audio_chunk]: the input
    level measured and recorded. *)
Definition metered (self : SafeAudioProcessor) (audio_data : list Z)
  : SafeAudioProcessor :=
  let input_db := calculate_db_level (to_float audio_data) in
  set_max_db_recorded (set_current_db self input_db)
    (py_max (max_db_recorded self) input_db).

Section Pipeline.

(** [signal.filtfilt(b, a, x)] with [(b, a) = signal.butter(order, Wn,
    btype='low')], for an accepted [Wn] and an [x] longer than the padding:
    scipy's numeric kernel. *)
Variable butter_filtfilt : Z -> R -> list R -> list R.

(** [signal.butter] accepts a digital critical frequency [0 < Wn < 1]
    only. *)
Definition butter_accepts (Wn : R) : bool :=
  if Rlt_dec 0 Wn then if Rlt_dec Wn 1 then true else false else false.

(** [signal.filtfilt] pads by [3 * max(len(a), len(b))] samples on each
    side, [a] and [b] having [order + 1] coefficients, and refuses an input
    that is not longer than the padding. *)
Definition filtfilt_padlen (order : Z) : Z := 3 * (order + 1).

(** [low_pass_filter] (lines 360-370) *)
Definition low_pass_filter (self : SafeAudioProcessor) (audio_data : list R)
    (cutoff_freq : R) : result (list R) :=
  let nyquist := IZR (RATE self) / 2 in
  let normalized_cutoff := cutoff_freq / nyquist in
  if butter_accepts normalized_cutoff then
    if (Np.len audio_data <=? filtfilt_padlen 4)%Z then Raise ValueError
    else Ok (butter_filtfilt 4 normalized_cutoff audio_data)
  else Raise ValueError.

(** Lines 403-413 of [process_audio_chunk]: the stages applied to the
    float chunk when processing is enabled; the result is the float chunk
    to convert and the processor with [processed_db] assigned when the
    limiter ran. *)
Definition noise_reduction (self : SafeAudioProcessor) (audio_float : list R)
  : SafeAudioProcessor * result (list R) :=
  if noise_learned self && (0 <? Np.len audio_float)%Z then
    match noise_profile self with
    | None => (self, Raise TypeError)
    | Some profile =>
        match (if (Np.len audio_float =? Np.len profile)%Z
               then spectral_subtraction self audio_float (noise_profile self)
               else Ok audio_float) with
        | Raise e => (self, Raise e)
        | Ok audio_float =>
            match low_pass_filter self audio_float 8000 with
            | Raise e => (self, Raise e)
            | Ok audio_float =>
                let '(audio_float, processed_db) :=
                  adaptive_volume_control (MAX_DB self) audio_float in
                (set_processed_db self (Some processed_db), Ok audio_float)
            end
        end
    end
  else (self, Ok audio_float).

(** [process_audio_chunk] (lines 372-418) *)
Definition process_audio_chunk (self : SafeAudioProcessor)
    (audio_data : list Z) : SafeAudioProcessor * result (list Z) :=
  let audio_float := to_float audio_data in
  let input_db := calculate_db_level audio_float in
  let self := set_current_db self input_db in
  let self :=
    set_max_db_recorded self (py_max (max_db_recorded self) input_db) in
  if learning_noise self then
    let self :=
      set_noise_buffer self (deque_extend (noise_buffer self) audio_float) in
    if (learning_window self <=? Np.len (items (noise_buffer self)))%Z then
      let noise_array := items (noise_buffer self) in
      let windowed_noise :=
        Np.map2 Rmult noise_array (np_hanning (Np.len noise_array)) in
      match np_fft windowed_noise with
      | Raise e => (self, Raise e)
      | Ok noise_fft =>
          let self := set_noise_profile self (Some (map Cabs noise_fft)) in
          let self := set_learning_noise self false in
          let self := set_noise_learned self true in
          (self, Ok audio_data)
      end
    else (self, Ok audio_data)
  else if negb (processing_enabled self) then (self, Ok audio_data)
  else
    match noise_reduction self audio_float with
    | (self, Raise e) => (self, Raise e)
    | (self, Ok audio_float) => (self, Ok (to_int16 audio_float))
    end.

(** The processor after one chunk, and after a stream of chunks. *)
Definition step (self : SafeAudioProcessor) (audio_data : list Z) :=
  fst (process_audio_chunk self audio_data).

Definition run (self : SafeAudioProcessor) (chunks : list (list Z)) :=
  fold_left step chunks self.

(** Number of Learning-to-Active transitions along a stream. *)
Fixpoint transitions (self : SafeAudioProcessor) (chunks : list (list Z))
  : nat :=
  match chunks with
  | [] => 0
  | c :: rest =>
      let self' := step self c in
      ((if learning_noise self && negb (learning_noise self') then 1 else 0)
       + transitions self' rest)%nat
  end.

End Pipeline.

(** Samples received by a stream of chunks. *)
Definition total_samples (chunks : list (list Z)) : Z :=
  fold_right (fun c n => (Np.len c + n)%Z) 0%Z chunks.

(** A processor as [__init__] leaves it, whatever its settings. *)
Definition fresh (s : SafeAudioProcessor) : Prop :=
  learning_noise s = true /\ noise_learned s = false /\
  noise_profile s = None /\ items (noise_buffer s) = [] /\
  maxlen (noise_buffer s) = learning_window s.

(** A processor still learning, with [n] samples in its buffer. *)
Definition learning_with (s : SafeAudioProcessor) (n : Z) : Prop :=
  learning_noise s = true /\ noise_learned s = false /\
  noise_profile s = None /\
  maxlen (noise_buffer s) = learning_window s /\
  Np.len (items (noise_buffer s)) = n /\ (n < learning_window s)%Z.

(** An active processor, with profile [p]. *)
Definition active_with (s : SafeAudioProcessor) (p : list R) : Prop :=
  learning_noise s = false /\ noise_learned s = true /\
  noise_profile s = Some p /\ Np.len p = learning_window s.

(** The settings a chunk never changes. *)
Definition same_settings (s s' : SafeAudioProcessor) : Prop :=
  CHUNK s' = CHUNK s /\ RATE s' = RATE s /\ MAX_DB s' = MAX_DB s /\
  noise_learning_duration s' = noise_learning_duration s /\
  noise_reduction_factor s' = noise_reduction_factor s /\
  processing_enabled s' = processing_enabled s /\
  maxlen (noise_buffer s') = maxlen (noise_buffer s).

(** The profile of an active processor. *)
Definition profile_of (s : SafeAudioProcessor) : list R :=
  match noise_profile s with
  | Some p => p
  | None => []
  end.

(** A stream of one chunk that fills the default learning window. *)
Definition learning_stream : list (list Z) :=
  [repeat 0%Z (Z.to_nat 132300)].

(** The values of numpy's int16. *)
Definition int16 (z : Z) : Prop := (-32768 <= z <= 32767)%Z.

(** [out] is [a] up to a relative error [eps], in the Euclidean norm:
    the squared norm of [out - a] is at most [eps^2] times that of [a]. *)
Definition relative_error_within (eps : R) (a out : list R) : Prop :=
  Np.sum (Np.square (Np.map2 Rminus out a))
  <= eps * eps * Np.sum (Np.square a).

(** A kernel that lets the samples through, to run the pipeline on concrete
    chunks. *)
Definition passthrough_kernel (order : Z) (Wn : R) (x : list R) : list R := x.

(** ** The limiter of simple_pc_to_headphone.py *)

Module SimplePC.

Record SimpleAudioProcessor := {
  MAX_DB : R;
  db_history : deque;
  max_db_recorded : R
}.

(** [d.append(x)] *)
Definition deque_append (d : deque) (x : R) : deque := deque_extend d [x].

(** [__init__] (lines 13-32), the attributes the limiter uses *)
Definition init : SimpleAudioProcessor :=
  {| MAX_DB := 70;
     db_history := {| maxlen := 200; items := [] |};
     max_db_recorded := 0 |}.

(** [apply_safety_limiting] (lines 244-269) *)
Definition apply_safety_limiting (self : SimpleAudioProcessor)
    (audio_data : list R) : SimpleAudioProcessor * (list R * level) :=
  let rms := sqrt (Np.mean (Np.square audio_data)) in
  let db_level :=
    if Rlt_dec 0 rms then Fin (20 * Np.log10 rms + 94) else NegInf in
  let self :=
    match db_level with
    | Fin d =>
        {| MAX_DB := MAX_DB self;
           db_history := deque_append (db_history self) d;
           max_db_recorded :=
             if Rlt_dec (max_db_recorded self) d then d
             else max_db_recorded self |}
    | NegInf =>
        {| MAX_DB := MAX_DB self;
           db_history := deque_append (db_history self) 0;
           max_db_recorded := max_db_recorded self |}
    end in
  match db_level with
  | Fin d =>
      if Rlt_dec (MAX_DB self) d then
        let reduction_db := d - MAX_DB self in
        let reduction_factor := Rpower 10 (- reduction_db / 20) in
        (self, (map (fun x => x * reduction_factor) audio_data, db_level))
      else (self, (audio_data, db_level))
  | NegInf => (self, (audio_data, db_level))
  end.

(** [output_data] (line 310):
    [(processed_audio * 32767).astype(np.int16)], with no clamp *)
Definition output_data (processed_audio : list R) : list Z :=
  map (fun x => Np.astype_int16 (x * 32767)) processed_audio.

(** One turn of [audio_processing_loop] (lines 298-311): the int16 samples
    read, and the int16 samples written to the output stream. *)
Definition loop_turn (self : SimpleAudioProcessor) (input_data : list Z)
  : SimpleAudioProcessor * list Z :=
  let audio_input := map (fun z => IZR z / 32768) input_data in
  let '(self, (processed_audio, db_level)) :=
    apply_safety_limiting self audio_input in
  (self, output_data processed_audio).

End SimplePC.

(** ** Further functions of safe_audio_system.py *)

(** [linear_to_db] (lines 296-300) *)
Definition linear_to_db (linear : R) : level :=
  if Rle_dec linear 0 then NegInf
  else Fin (20 * Np.log10 (Rabs linear + 1 / 10000000000)).

(** A Python slice [l[i:]]: from index [i], counted from the end when [i]
    is negative. *)
Definition py_slice_from {A} (i : Z) (l : list A) : list A :=
  if (i <? 0)%Z then lastn (Z.to_nat (- i)) l else skipn (Z.to_nat i) l.

(** A deque of int16 samples with a maximum length. *)
Record int_deque := { int_maxlen : Z; int_items : list Z }.

Definition int_deque_extend (d : int_deque) (xs : list Z) : int_deque :=
  {| int_maxlen := int_maxlen d;
     int_items := lastn (Z.to_nat (int_maxlen d)) (int_items d ++ xs) |}.

(** The processor together with the two buffers of the visualization
    ([self.input_buffer], [self.output_buffer]), which only
    [audio_callback] writes. *)
Record Session := {
  processor : SafeAudioProcessor;
  input_buffer : int_deque;
  output_buffer : int_deque
}.

(** [__init__], with the buffers of lines 40-41. *)
Definition new_session : Session :=
  {| processor := init;
     input_buffer := {| int_maxlen := 44100 * 5; int_items := [] |};
     output_buffer := {| int_maxlen := 44100 * 5; int_items := [] |} |}.

(** [get_visualization_data] (lines 511-516) *)
Definition get_visualization_data (self : Session) : list Z * list Z :=
  let CHUNK := CHUNK (processor self) in
  (match int_items (input_buffer self) with
   | [] => []
   | l => py_slice_from (- CHUNK * 4) l
   end,
   match int_items (output_buffer self) with
   | [] => []
   | l => py_slice_from (- CHUNK * 4) l
   end).

Section Callback.

Variable butter_filtfilt : Z -> R -> list R -> list R.

(** [audio_callback] (lines 420-433); [in_data] is the buffer as
    [np.frombuffer(in_data, dtype=np.int16)] reads it, the value returned
    is [(None, pyaudio.paContinue)]. *)
Definition audio_callback (self : Session) (in_data : list Z)
  : Session * result unit :=
  let input_audio := in_data in
  match process_audio_chunk butter_filtfilt (processor self) input_audio with
  | (p, Raise e) =>
      ({| processor := p; input_buffer := input_buffer self;
          output_buffer := output_buffer self |}, Raise e)
  | (p, Ok processed_audio) =>
      ({| processor := p;
          input_buffer := int_deque_extend (input_buffer self) input_audio;
          output_buffer :=
            int_deque_extend (output_buffer self) processed_audio |},
       Ok tt)
  end.

(** The session after a sequence of callbacks. *)
Definition callbacks (self : Session) (stream : list (list Z)) : Session :=
  fold_left (fun s in_data => fst (audio_callback s in_data)) stream self.

End Callback.

(** The monitor of [visualize]: what [animate] (lines 558-608) computes
    from the processor for the bars and the status text. Texts are
    represented by constructors, numbers are left unformatted. *)
Module Visualize.

Inductive color := red | orange | green.

Inductive status :=
| Learning_profile (remaining : R)
| Active_still_above
| Active_safe
| Paused.

Record frame := {
  bar_heights : R * R * R;
  bar_colors : color * color;
  status_head : status;
  input_line : R;
  output_line : R;
  reduction_line : R
}.

(** [max(0, x)] *)
Definition max0 (x : R) : R := if Rlt_dec 0 x then x else 0.

(** [min(x, 100)] *)
Definition min100 (x : R) : R := if Rlt_dec 100 x then 100 else x.

(** [max(0, db) if db > -np.inf else 0] *)
Definition shown_db (db : level) : R :=
  match db with
  | Fin d => max0 d
  | NegInf => 0
  end.

(** [animate], for a processor with a non-zero [RATE] *)
Definition animate (self : SafeAudioProcessor) : frame :=
  let current_input_db := shown_db (current_db self) in
  let current_output_db :=
    match processed_db self with
    | Some db => shown_db db
    | None => 0
    end in
  let max_recorded_db := shown_db (max_db_recorded self) in
  let status :=
    if learning_noise self then
      Learning_profile
        (max0 (noise_learning_duration self
               - IZR (Np.len (items (noise_buffer self))) / IZR (RATE self)))
    else if noise_learned self then
      if Rlt_dec (MAX_DB self) current_output_db then Active_still_above
      else Active_safe
    else Paused in
  {| bar_heights :=
       (min100 current_input_db, min100 current_output_db,
        min100 max_recorded_db);
     bar_colors :=
       (if Rlt_dec (MAX_DB self) current_input_db then red
        else if Rlt_dec 60 current_input_db then orange else green,
        if Rlt_dec (MAX_DB self) current_output_db then red else green);
     status_head := status;
     input_line := current_input_db;
     output_line := current_output_db;
     reduction_line := current_input_db - current_output_db |}.

End Visualize.

(** ** The loop of simple_pc_to_headphone.py over a stream *)

Definition simple_loop (self : SimplePC.SimpleAudioProcessor)
    (stream : list (list Z)) : SimplePC.SimpleAudioProcessor :=
  fold_left (fun s input_data => fst (SimplePC.loop_turn s input_data))
            stream self.

(** ** The limiter and monitor of ultimate_audio_visualizer.py *)

Module Ultimate.

(** [apply_safety_limiting], nested in [visualize_microphone]
    (lines 539-557) *)
Definition apply_safety_limiting (audio_data : list R) : list R * level :=
  let rms := sqrt (Np.mean (Np.square audio_data)) in
  let db_level :=
    if Rlt_dec 0 rms then Fin (20 * Np.log10 rms + 94) else NegInf in
  let max_db := 70 in
  match db_level with
  | Fin d =>
      if Rlt_dec max_db d then
        let reduction_db := d - max_db in
        let reduction_factor := Rpower 10 (- reduction_db / 20) in
        (map (fun x => x * reduction_factor) audio_data, db_level)
      else (audio_data, db_level)
  | NegInf => (audio_data, db_level)
  end.

(** [self.db_history] and [self.max_db_recorded] (lines 342-343) *)
Record monitor := { db_history : list R; max_db_recorded : R }.

Definition init : monitor := {| db_history := []; max_db_recorded := 0 |}.

(** One frame of [animate] (lines 559-632, up to the history of levels,
    line 600) with both streams open:
    [data] is the int16 buffer read, the result is the monitor and the
    int16 samples written. *)
Definition animate (self : monitor) (data : list Z) : monitor * list Z :=
  let audio_input := map (fun z => IZR z / 32768) data in
  let '(audio_output, db_level) := apply_safety_limiting audio_input in
  let output_data :=
    map (fun x => Np.astype_int16 (x * 32767)) audio_output in
  let self :=
    match db_level with
    | Fin d =>
        {| db_history := db_history self ++ [d];
           max_db_recorded :=
             if Rlt_dec (max_db_recorded self) d then d
             else max_db_recorded self |}
    | NegInf =>
        {| db_history := db_history self ++ [0];
           max_db_recorded := max_db_recorded self |}
    end in
  let self :=
    if (200 <? Np.len (db_history self))%Z then
      {| db_history := tl (db_history self);
         max_db_recorded := max_db_recorded self |}
    else self in
  (self, output_data).

Definition frames (self : monitor) (stream : list (list Z)) : monitor :=
  fold_left (fun s data => fst (animate s data)) stream self.

End Ultimate.

(** ** Energy *)

(** Squared modulus of a complex number. *)
Definition Cnorm2 (z : C) : R := Re z * Re z + Im z * Im z.

From Stdlib Require String Ascii.

(** ** Devices and the console (safe_audio_system.py, lines 58-288,
    435-500, 611 and 635-686)

    PyAudio's device table is a list of device records, a device's index
    being its position. Device names are ASCII strings. A line typed at a
    prompt is given by what the code makes of it: its text after
    [strip().lower()] and the value of [int] on it ([None] when [int]
    raises [ValueError]); [input] can also raise [KeyboardInterrupt].
    [test_headphone_connection], which tries to open a device, is a
    function from device indices to booleans. Messages printed are left
    out. *)

Module Devices.

Import String Ascii.
Local Open Scope string_scope.

Record device_info := {
  name : string;
  maxInputChannels : Z;
  maxOutputChannels : Z
}.

(** [str.lower] on ASCII *)
Definition lower_char (c : ascii) : ascii :=
  let n := nat_of_ascii c in
  if ((65 <=? n) && (n <=? 90))%nat then ascii_of_nat (n + 32) else c.

Fixpoint lower (s : string) : string :=
  match s with
  | EmptyString => EmptyString
  | String c s' => String (lower_char c) (lower s')
  end.

(** [keyword in s] *)
Fixpoint contains (keyword s : string) : bool :=
  prefix keyword s
  || match s with
     | EmptyString => false
     | String _ s' => contains keyword s'
     end.

(** [any(keyword in s for keyword in keywords)] *)
Definition any_keyword (keywords : list string) (s : string) : bool :=
  existsb (fun keyword => contains keyword s) keywords.

Definition desktop_keywords : list string :=
  ["desktop"; "built-in"; "internal"; "array"; "motherboard"; "realtek";
   "integrated"].

Definition headphone_keywords : list string :=
  ["headphone"; "headset"; "usb headset"; "bluetooth"; "earphone";
   "airpods"; "buds"].

(** The loop of [list_audio_devices] (lines 66-88) from index [i] on:
    the input devices and, among them, the desktop microphones. *)
Fixpoint list_audio_devices_from (i : Z) (table : list device_info)
  : list (Z * device_info) * list (Z * device_info) :=
  match table with
  | [] => ([], [])
  | device_info :: rest =>
      let '(input_devices, desktop_devices) :=
        list_audio_devices_from (i + 1) rest in
      if (0 <? maxInputChannels device_info)%Z then
        ((i, device_info) :: input_devices,
         if any_keyword desktop_keywords (lower (name device_info))
         then (i, device_info) :: desktop_devices
         else desktop_devices)
      else (input_devices, desktop_devices)
  end.

(** [list_audio_devices] (lines 58-90) *)
Definition list_audio_devices (table : list device_info) :=
  list_audio_devices_from 0 table.



(** A line at a prompt, or Ctrl-C. *)
Record line := { text : string; int_value : option Z }.

Inductive typed := Line (l : line) | KeyboardInterrupt.

(** How a function that prompts ends: it returns, leaving the rest of the
    console, or [KeyboardInterrupt] leaves it, or it waits for a line that
    does not come. *)
Inductive outcome (A : Type) :=
| Returns (a : A) (rest : list typed)
| Interrupted
| Waiting.
Arguments Returns {A} a rest.
Arguments Interrupted {A}.
Arguments Waiting {A}.

(** The loops "Do you want to continue anyway? (y/N)" (lines 167-177 and
    213-223) *)
Fixpoint continue_anyway (console : list typed) : outcome bool :=
  match console with
  | [] => Waiting
  | KeyboardInterrupt :: _ => Interrupted
  | Line l :: rest =>
      let choice := text l in
      if existsb (String.eqb choice) ["n"; "no"; ""] then Returns false rest
      else if existsb (String.eqb choice) ["y"; "yes"] then Returns true rest
      else continue_anyway rest
  end.


(** The loop of [select_desktop_microphone] (lines 246-288) *)
Fixpoint select_loop (input_devices desktop_devices : list (Z * device_info))
    (console : list typed) : outcome (option Z) :=
  match console with
  | [] => Waiting
  | KeyboardInterrupt :: rest => Returns None rest
  | Line l :: rest =>
      let choice := text l in
      if String.eqb choice "auto" then
        match desktop_devices with
        | (device_id, _) :: _ => Returns (Some device_id) rest
        | [] => select_loop input_devices desktop_devices rest
        end
      else if String.eqb choice "list" then
        select_loop input_devices desktop_devices rest
      else
        match int_value l with
        | Some device_id =>
            if existsb (fun d => (fst d =? device_id)%Z) input_devices
            then Returns (Some device_id) rest
            else select_loop input_devices desktop_devices rest
        | None => select_loop input_devices desktop_devices rest
        end
  end.

(** [select_desktop_microphone] (lines 231-288) *)
Definition select_desktop_microphone (table : list device_info)
    (console : list typed) : outcome (option Z) :=
  let '(input_devices, desktop_devices) := list_audio_devices table in
  match input_devices with
  | [] => Returns None console
  | _ => select_loop input_devices desktop_devices console
  end.







(** The headphone tests of the other two programs:
    simple_pc_to_headphone.py, [get_devices] (lines 62-64), and
    ultimate_audio_visualizer.py, [check_headphones] (lines 58-61). *)
Definition simple_is_headphones (device_name : string) : bool :=
  any_keyword ["headphone"; "headset"] (lower device_name).

Definition ultimate_is_headphones (device_name : string) : bool :=
  any_keyword ["headphone"; "headset"; "earphone"; "airpods"; "buds"]
    (lower device_name).

(** A device table and a console to run the functions on. *)
Definition example_table : list device_info :=
  [ {| name := "Speakers (Realtek Audio)";
       maxInputChannels := 0; maxOutputChannels := 2 |};
    {| name := "Microphone Array (Realtek Audio)";
       maxInputChannels := 2; maxOutputChannels := 0 |};
    {| name := "Headphones (USB Headset)";
       maxInputChannels := 0; maxOutputChannels := 2 |} ].

Definition example_console : list typed :=
  [ Line {| text := "list"; int_value := None |};
    Line {| text := "auto"; int_value := None |} ].

End Devices.

(** ** Device selection of simple_pc_to_headphone.py (lines 34-243 and
    431-447)

    An entry of the device table is [None] where
    [get_device_info_by_index] raises. The three texts a device's
    ['type'] can take on each side are the constructors of [input_type]
    and [output_type]; no one of the texts occurs in another, so the tests
    ["... in device['type']"] are equalities. [int(input(...))] is the
    [int_value] of the line typed. *)

Module SimpleDevices.

Import String Ascii Devices.
Local Open Scope string_scope.

Inductive input_type := Microphone | PC_Microphone | Headset_Microphone.

Inductive output_type := Speaker | Headphones | PC_Speakers.

Record input_device := {
  in_index : Z;
  in_name : string;
  in_type : input_type
}.

Record output_device := {
  out_index : Z;
  out_name : string;
  out_type : output_type
}.

Definition is_pc_microphone (device : input_device) : bool :=
  match in_type device with PC_Microphone => true | _ => false end.

Definition is_headphones (device : output_device) : bool :=
  match out_type device with Headphones => true | _ => false end.

(** The loop of [get_devices] (lines 39-76) from index [i] on *)
Fixpoint get_devices_from (i : Z) (table : list (option device_info))
  : list input_device * list output_device :=
  match table with
  | [] => ([], [])
  | entry :: rest =>
      let '(input_devices, output_devices) :=
        get_devices_from (i + 1) rest in
      match entry with
      | None => (input_devices, output_devices)
      | Some device_info =>
          (if (0 <? maxInputChannels device_info)%Z then
             {| in_index := i;
                in_name := name device_info;
                in_type :=
                  if any_keyword ["realtek"; "amd audio"; "array"; "pc"]
                       (lower (name device_info))
                  then PC_Microphone
                  else if any_keyword ["headset"; "headphone"]
                            (lower (name device_info))
                  then Headset_Microphone
                  else Microphone |} :: input_devices
           else input_devices,
           if (0 <? maxOutputChannels device_info)%Z then
             {| out_index := i;
                out_name := name device_info;
                out_type :=
                  if any_keyword ["headphone"; "headset"]
                       (lower (name device_info))
                  then Headphones
                  else if any_keyword ["speaker"; "realtek"]
                            (lower (name device_info))
                  then PC_Speakers
                  else Speaker |} :: output_devices
           else output_devices)
      end
  end.

(** [get_devices] (lines 34-78) *)
Definition get_devices (table : list (option device_info)) :=
  get_devices_from 0 table.

(** [check_headphone_availability] (lines 101-182) *)
Definition check_headphone_availability
    (test_headphone_connection : Z -> bool)
    (output_devices : list output_device) (console : list typed)
  : outcome bool :=
  let headphone_devices := filter is_headphones output_devices in
  match headphone_devices with
  | [] => continue_anyway console
  | _ =>
      let connected_headphones :=
        filter (fun device => test_headphone_connection (out_index device))
               headphone_devices in
      match connected_headphones with
      | [] => continue_anyway console
      | _ => Returns true console
      end
  end.

(** [l[choice]] of a Python list: [None] where it raises [IndexError]. *)
Definition py_index {A : Type} (l : list A) (choice : Z) : option A :=
  let n := Z.of_nat (List.length l) in
  if ((0 <=? choice) && (choice <? n))%Z then
    nth_error l (Z.to_nat choice)
  else if ((- n <=? choice) && (choice <? 0))%Z then
    nth_error l (Z.to_nat (n + choice))
  else None.

(** The manual selections (lines 225-241): the bare [except] also takes
    [KeyboardInterrupt]. *)
Definition select_manually {A : Type} (index : A -> Z) (devices : list A)
    (console : list typed) : outcome (option Z) :=
  match console with
  | [] => Waiting
  | KeyboardInterrupt :: rest => Returns None rest
  | Line l :: rest =>
      match int_value l with
      | Some choice => Returns (option_map index (py_index devices choice)) rest
      | None => Returns None rest
      end
  end.

(** [select_devices] (lines 184-243) *)
Definition select_devices (test_headphone_connection : Z -> bool)
    (table : list (option device_info)) (console : list typed)
  : outcome (option Z * option Z) :=
  let '(input_devices, output_devices) := get_devices table in
  match check_headphone_availability test_headphone_connection
          output_devices console with
  | Waiting => Waiting
  | Interrupted => Interrupted
  | Returns false console => Returns (None, None) console
  | Returns true console =>
      let selected_input :=
        option_map in_index (find is_pc_microphone input_devices) in
      let selected_output :=
        option_map out_index (find is_headphones output_devices) in
      let after_input :=
        match selected_input with
        | Some _ => Returns selected_input console
        | None => select_manually in_index input_devices console
        end in
      match after_input with
      | Waiting => Waiting
      | Interrupted => Interrupted
      | Returns selected_input console =>
          match selected_output with
          | Some _ => Returns (selected_input, selected_output) console
          | None =>
              match select_manually out_index output_devices console with
              | Waiting => Waiting
              | Interrupted => Interrupted
              | Returns selected_output console =>
                  Returns (selected_input, selected_output) console
              end
          end
      end
  end.

(** How [run] (lines 431-447) ends: processing started on two devices, or
    [run] returned before, or [KeyboardInterrupt] left it, or it waits at
    a prompt. *)
Inductive run_end :=
| Run_started (input_device output_device : Z)
| Run_exited
| Run_interrupted
| Run_prompting.

(** [run], up to the call of [start_processing] *)
Definition run (test_headphone_connection : Z -> bool)
    (table : list (option device_info)) (console : list typed) : run_end :=
  match select_devices test_headphone_connection table console with
  | Waiting => Run_prompting
  | Interrupted => Run_interrupted
  | Returns (Some input_device, Some output_device) _ =>
      Run_started input_device output_device
  | Returns _ _ => Run_exited
  end.

(** A device table with an entry that cannot be read, and a console. *)
Definition example_table : list (option device_info) :=
  [ Some {| name := "Speakers (High Definition Audio)";
            maxInputChannels := 0; maxOutputChannels := 2 |};
    None;
    Some {| name := "Microphone (USB Audio)";
            maxInputChannels := 1; maxOutputChannels := 0 |};
    Some {| name := "Line In";
            maxInputChannels := 2; maxOutputChannels := 0 |} ].

Definition example_console : list typed :=
  [ Line {| text := "maybe"; int_value := None |};
    Line {| text := "y"; int_value := None |};
    Line {| text := "-1"; int_value := Some (-1)%Z |};
    Line {| text := "0"; int_value := Some 0%Z |} ].

End SimpleDevices.

(** * Proofs

    ** The hyperbolic tangent is a contraction *)

Lemma sinh_sign_mult (y : R) : 0 <= y * sinh y.
Proof.
  unfold sinh.
  destruct (Rle_dec 0 y) as [Hy | Hy].
  - assert (exp (- y) <= exp y).
    { destruct (Req_dec y 0) as [-> | Hn].
      - rewrite Ropp_0. lra.
      - left. apply exp_increasing. lra. }
    nra.
  - assert (exp y < exp (- y)) by (apply exp_increasing; lra).
    nra.
Qed.

Lemma sinh_le_mult_cosh (y : R) : 0 <= y -> sinh y <= y * cosh y.
Proof.
  intros Hy.
  set (f := (id * cosh - sinh)%F).
  assert (Hlim : forall x, derivable_pt_lim f x (x * sinh x)).
  { intros x. unfold f.
    replace (x * sinh x) with ((1 * cosh x + id x * sinh x) - cosh x)
      by (unfold id; ring).
    apply derivable_pt_lim_minus.
    - apply derivable_pt_lim_mult.
      + apply derivable_pt_lim_id.
      + apply derivable_pt_lim_cosh.
    - apply derivable_pt_lim_sinh. }
  assert (pr : derivable f).
  { intros x. exists (x * sinh x). apply Hlim. }
  assert (Hinc : increasing f).
  { apply (nonneg_derivative_1 f pr). intros x.
    rewrite (derive_pt_eq_0 f x (x * sinh x) (pr x) (Hlim x)).
    apply sinh_sign_mult. }
  specialize (Hinc 0 y Hy).
  unfold f, mult_fct, minus_fct, id in Hinc.
  rewrite sinh_0, cosh_0 in Hinc. lra.
Qed.

Lemma cosh_pos (y : R) : 0 < cosh y.
Proof. unfold cosh. pose proof (exp_pos y). pose proof (exp_pos (- y)). lra. Qed.

Lemma tanh_le_id (y : R) : 0 <= y -> 0 <= tanh y <= y.
Proof.
  intros Hy. unfold tanh. pose proof (cosh_pos y) as Hc.
  pose proof (sinh_le_mult_cosh y Hy) as Hs.
  assert (0 <= sinh y).
  { unfold sinh.
    assert (exp (- y) <= exp y).
    { destruct (Req_dec y 0) as [-> | Hn].
      - rewrite Ropp_0. lra.
      - left. apply exp_increasing. lra. }
    lra. }
  split.
  - apply Rmult_le_pos; [lra | left; apply Rinv_0_lt_compat; lra].
  - apply Rmult_le_reg_r with (cosh y); [lra|].
    unfold Rdiv. rewrite Rmult_assoc, Rinv_l by lra. lra.
Qed.

Lemma tanh_opp (y : R) : tanh (- y) = - tanh y.
Proof.
  unfold tanh, sinh, cosh. rewrite Ropp_involutive.
  pose proof (exp_pos y). pose proof (exp_pos (- y)).
  field. lra.
Qed.

Lemma tanh_sqr_le (y : R) : tanh y * tanh y <= y * y.
Proof.
  destruct (Rle_dec 0 y) as [Hy | Hy].
  - pose proof (tanh_le_id y Hy). nra.
  - assert (H0 : 0 <= - y) by lra.
    pose proof (tanh_le_id (- y) H0) as H. rewrite tanh_opp in H. nra.
Qed.

(** ** Level meter and limiter *)

Lemma len_map {A B} (f : A -> B) (a : list A) : Np.len (map f a) = Np.len a.
Proof. unfold Np.len. now rewrite length_map. Qed.

Lemma len_square (a : list R) : Np.len (Np.square a) = Np.len a.
Proof. apply len_map. Qed.

Lemma sum_square_nonneg (a : list R) : 0 <= Np.sum (Np.square a).
Proof. induction a as [| x a IH]; simpl; [lra | nra]. Qed.

Lemma sum_square_scale (k : R) (a : list R) :
  Np.sum (Np.square (map (fun x => x * k) a)) = k * k * Np.sum (Np.square a).
Proof. induction a as [| x a IH]; simpl; [ring | rewrite IH; ring]. Qed.

Lemma sum_square_soft_knee (a : list R) :
  Np.sum (Np.square (map (fun x => tanh (x * 0.8) * 0.8) a))
  <= 0.64 * 0.64 * Np.sum (Np.square a).
Proof.
  induction a as [| x a IH]; simpl; [lra |].
  pose proof (tanh_sqr_le (x * 0.8)). nra.
Qed.

Lemma len_pos_IZR {A} (a : list A) : (Np.len a =? 0)%Z = false -> 0 < IZR (Np.len a).
Proof.
  intros H. apply Z.eqb_neq in H. apply IZR_lt. unfold Np.len in *. lia.
Qed.

Lemma mean_square_nonneg (a : list R) :
  (Np.len a =? 0)%Z = false -> 0 <= Np.mean (Np.square a).
Proof.
  intros H. unfold Np.mean. rewrite len_square.
  pose proof (len_pos_IZR a H). pose proof (sum_square_nonneg a).
  apply Rmult_le_pos; [lra | left; now apply Rinv_0_lt_compat].
Qed.

(** What [calculate_db_level] returns, case by case. *)
Lemma calculate_db_level_fin (a : list R) (d : R) :
  calculate_db_level a = Fin d ->
  (Np.len a =? 0)%Z = false /\
  0 < sqrt (Np.mean (Np.square a)) /\
  d = 20 * Np.log10 (sqrt (Np.mean (Np.square a))) + 94.
Proof.
  unfold calculate_db_level.
  destruct (Np.len a =? 0)%Z; [discriminate |].
  destruct (Rlt_dec 0 _) as [Hr | Hr]; [| discriminate].
  intros [= <-]. auto.
Qed.

Lemma ln10_pos : 0 < ln 10.
Proof. rewrite <- ln_1. apply ln_increasing; lra. Qed.

Lemma log10_mult (x y : R) : 0 < x -> 0 < y ->
  Np.log10 (x * y) = Np.log10 x + Np.log10 y.
Proof.
  intros Hx Hy. unfold Np.log10. rewrite ln_mult by assumption.
  pose proof ln10_pos. field. lra.
Qed.

Lemma log10_le (x y : R) : 0 < x -> x <= y -> Np.log10 x <= Np.log10 y.
Proof.
  intros Hx Hxy. unfold Np.log10. pose proof ln10_pos.
  apply Rmult_le_compat_r; [left; now apply Rinv_0_lt_compat |].
  destruct Hxy as [Hlt | ->]; [left; now apply ln_increasing | lra].
Qed.

Lemma log10_Rpower (t : R) : Np.log10 (Rpower 10 t) = t.
Proof.
  unfold Np.log10. rewrite ln_Rpower. pose proof ln10_pos. field. lra.
Qed.

Lemma Rpower_pos (x y : R) : 0 < Rpower x y.
Proof. unfold Rpower. apply exp_pos. Qed.

Lemma log10_soft_knee_neg : Np.log10 0.64 < 0.
Proof.
  unfold Np.log10. pose proof ln10_pos.
  assert (ln 0.64 < 0) by (rewrite <- ln_1; apply ln_increasing; lra).
  apply Ropp_lt_cancel. rewrite Ropp_0.
  replace (- (ln 0.64 / ln 10)) with ((- ln 0.64) / ln 10) by (field; lra).
  apply Rdiv_lt_0_compat; lra.
Qed.

(** The limited chunk, when the limiter acts. *)
Lemma adaptive_volume_control_above (M : R) (a : list R) (d : R) :
  calculate_db_level a = Fin d -> M < d ->
  adaptive_volume_control M a =
  (map (fun x => tanh (x * 0.8) * 0.8)
       (map (fun x => x * db_to_linear (- (d - M))) a), Fin d).
Proof.
  intros Hd HM. unfold adaptive_volume_control. rewrite Hd.
  destruct (Rlt_dec M d); [reflexivity | contradiction].
Qed.

Lemma adaptive_volume_control_below (M : R) (a : list R) :
  ~ level_gt (calculate_db_level a) M ->
  adaptive_volume_control M a = (a, calculate_db_level a).
Proof.
  intros H. unfold adaptive_volume_control.
  destruct (calculate_db_level a) as [| d]; [reflexivity |].
  simpl in H. destruct (Rlt_dec M d); [contradiction | reflexivity].
Qed.

(** Level of the limited chunk: the gain brings the level to the ceiling
    and the soft knee takes at least [20 log10 0.64] more. *)
Lemma limited_level_bound (M : R) (a : list R) (d : R) :
  calculate_db_level a = Fin d -> M < d ->
  level_le (calculate_db_level (fst (adaptive_volume_control M a)))
           (Fin (M + 20 * Np.log10 0.64)).
Proof.
  intros Hd HM. rewrite (adaptive_volume_control_above M a d Hd HM). simpl.
  destruct (calculate_db_level_fin a d Hd) as (Hlen & Hrms & Heq).
  set (g := db_to_linear (- (d - M))).
  set (out := map _ (map _ a)).
  unfold calculate_db_level.
  assert (Hlen' : Np.len out = Np.len a) by (unfold out; now rewrite !len_map).
  rewrite Hlen', Hlen.
  destruct (Rlt_dec 0 _) as [Hout | Hout]; [| exact I].
  simpl.
  assert (Hg : 0 < g) by apply Rpower_pos.
  set (m := Np.mean (Np.square a)) in *.
  assert (Hm : 0 <= m) by now apply mean_square_nonneg.
  assert (Hle : Np.mean (Np.square out) <= (0.64 * g) * (0.64 * g) * m).
  { unfold m, Np.mean. rewrite !len_square, Hlen'.
    pose proof (len_pos_IZR a Hlen) as Hn.
    unfold out. 
    pose proof (sum_square_soft_knee (map (fun x => x * g) a)) as H1.
    rewrite sum_square_scale in H1.
    assert (Hi : 0 < / IZR (Np.len a)) by now apply Rinv_0_lt_compat.
    unfold Rdiv. 
    replace (0.64 * g * (0.64 * g) * (Np.sum (Np.square a) * / IZR (Np.len a)))
      with ((0.64 * 0.64 * (g * g * Np.sum (Np.square a))) * / IZR (Np.len a))
      by ring.
    apply Rmult_le_compat_r; lra. }
  assert (Hsq : sqrt (Np.mean (Np.square out)) <= 0.64 * g * sqrt m).
  { apply Rle_trans with (sqrt ((0.64 * g) * (0.64 * g) * m)).
    - apply sqrt_le_1_alt. exact Hle.
    - rewrite sqrt_mult by nra. rewrite sqrt_square by lra. lra. }
  apply Rle_trans with (20 * Np.log10 (0.64 * g * sqrt m) + 94).
  - apply Rplus_le_compat_r. apply Rmult_le_compat_l; [lra |].
    apply log10_le; assumption.
  - rewrite !log10_mult by (try lra; nra).
    unfold g, db_to_linear. rewrite log10_Rpower. lra.
Qed.

Lemma level_le_trans (a b c : level) : level_le a b -> level_le b c -> level_le a c.
Proof.
  destruct a, b, c; simpl; try tauto. intros; lra.
Qed.

(** Level of a one-sample chunk. *)
Lemma calculate_db_level_single (x : R) : 0 < x ->
  calculate_db_level [x] = Fin (20 * Np.log10 x + 94).
Proof.
  intros Hx. unfold calculate_db_level. simpl.
  unfold Np.mean, Np.len. simpl.
  replace ((x * x + 0) / 1) with (x * x) by field.
  rewrite sqrt_square by lra.
  destruct (Rlt_dec 0 x); [reflexivity | contradiction].
Qed.

Lemma log10_1 : Np.log10 1 = 0.
Proof. unfold Np.log10. rewrite ln_1. pose proof ln10_pos. field. lra. Qed.

Lemma calculate_db_level_full_scale : calculate_db_level [1] = Fin 94.
Proof.
  rewrite calculate_db_level_single by lra. rewrite log10_1. f_equal. lra.
Qed.

Lemma log10_thousandth : Np.log10 (/ 1000) = -3.
Proof.
  unfold Np.log10. rewrite ln_Rinv by lra.
  replace 1000 with (10 * (10 * 10)) by lra.
  rewrite !ln_mult by lra. pose proof ln10_pos. field. lra.
Qed.

Lemma calculate_db_level_quiet : calculate_db_level [/ 1000] = Fin 34.
Proof.
  rewrite calculate_db_level_single by lra. rewrite log10_thousandth.
  f_equal. lra.
Qed.

(** The limited chunk never measures above the ceiling. *)
Lemma limiter_output_level (M : R) (a : list R) :
  ~ level_gt (calculate_db_level a) M \/
  level_le (calculate_db_level (fst (adaptive_volume_control M a)))
           (Fin (M + 20 * Np.log10 0.64)).
Proof.
  destruct (calculate_db_level a) as [| d] eqn:Hd.
  - left. simpl. tauto.
  - destruct (Rlt_dec M d) as [HM | HM].
    + right. now apply limited_level_bound with d.
    + left. simpl. exact HM.
Qed.

Lemma not_gt_le (l : level) (M : R) : ~ level_gt l M -> level_le l (Fin M).
Proof. destruct l; simpl; [tauto | lra]. Qed.

Lemma limiter_output_below (M eps : R) (a : list R) : 0 <= eps ->
  level_le (calculate_db_level (fst (adaptive_volume_control M a)))
           (Fin (M + eps)).
Proof.
  intros He. destruct (limiter_output_level M a) as [H | H].
  - rewrite adaptive_volume_control_below by assumption. simpl.
    apply level_le_trans with (Fin M); [now apply not_gt_le | simpl; lra].
  - eapply level_le_trans; [exact H |]. simpl.
    pose proof log10_soft_knee_neg. lra.
Qed.

Lemma full_scale_above_ceiling : level_gt (calculate_db_level [1]) (MAX_DB init).
Proof. rewrite calculate_db_level_full_scale. simpl. lra. Qed.

(** C4. The level the limiter returns is the level measured on its input,
    whichever branch is taken; for the full-scale one-sample chunk it
    returns 94 dB while the chunk it returns measures at most 70 dB. *)
Theorem limiter_returns_input_level :
  (forall (M : R) (a : list R),
      snd (adaptive_volume_control M a) = calculate_db_level a)
  /\ snd (adaptive_volume_control 70 [1]) = Fin 94
  /\ level_le (calculate_db_level (fst (adaptive_volume_control 70 [1])))
              (Fin 70)
  /\ snd (adaptive_volume_control 70 [1])
     <> calculate_db_level (fst (adaptive_volume_control 70 [1])).
Proof.
  assert (Hsnd : forall M a,
             snd (adaptive_volume_control M a) = calculate_db_level a).
  { intros M a. unfold adaptive_volume_control.
    destruct (calculate_db_level a) as [| d]; [reflexivity |].
    destruct (Rlt_dec M d); reflexivity. }
  assert (Hout : level_le
            (calculate_db_level (fst (adaptive_volume_control 70 [1])))
            (Fin 70)).
  { replace 70 with (70 + 0) at 2 by lra. apply limiter_output_below. lra. }
  split; [exact Hsnd |].
  rewrite Hsnd, calculate_db_level_full_scale.
  repeat split; try assumption.
  intros Heq. rewrite <- Heq in Hout. simpl in Hout. lra.
Qed.

Lemma le_not_gt (l : level) (M : R) : level_le l (Fin M) -> ~ level_gt l M.
Proof. destruct l; simpl; [tauto | lra]. Qed.

(** C6. A chunk that measures at most the ceiling (silence, at minus
    infinity, included) leaves the limiter as it entered, and limiting the
    result again changes nothing. *)
Theorem limiter_identity_on_compliant (M : R) (a : list R) :
  level_le (calculate_db_level a) (Fin M) ->
  fst (adaptive_volume_control M a) = a
  /\ adaptive_volume_control M (fst (adaptive_volume_control M a))
     = adaptive_volume_control M a.
Proof.
  intros H. apply le_not_gt in H.
  rewrite (adaptive_volume_control_below M a H). simpl.
  split; [reflexivity |]. now apply adaptive_volume_control_below.
Qed.

Lemma quiet_chunk_compliant :
  level_le (calculate_db_level [/ 1000]) (Fin (MAX_DB init)).
Proof. rewrite calculate_db_level_quiet. simpl. lra. Qed.

(** A one-sample chunk of amplitude 0.001, at 34 dB. *)
Lemma limiter_identity_on_compliant_witness :
  fst (adaptive_volume_control (MAX_DB init) [/ 1000]) = [/ 1000]
  /\ adaptive_volume_control (MAX_DB init)
       (fst (adaptive_volume_control (MAX_DB init) [/ 1000]))
     = adaptive_volume_control (MAX_DB init) [/ 1000].
Proof.
  exact (limiter_identity_on_compliant (MAX_DB init) [/ 1000]
           quiet_chunk_compliant).
Defined.

(** ** Truncation, clamping and conversion to int16 *)

Lemma trunc_IZR (z : Z) : Np.trunc (IZR z) = z.
Proof.
  unfold Np.trunc. destruct (Rle_dec 0 (IZR z)) as [H | H].
  - symmetry. apply Int_part_spec. lra.
  - rewrite <- opp_IZR.
    replace (Int_part (IZR (- z))) with (- z)%Z; [lia |].
    apply Int_part_spec. lra.
Qed.

Lemma trunc_bounds (lo hi : Z) (x : R) :
  (lo <= 0 <= hi)%Z -> IZR lo <= x <= IZR hi ->
  (lo <= Np.trunc x <= hi)%Z.
Proof.
  intros Hz Hx. unfold Np.trunc.
  destruct (Rle_dec 0 x) as [H | H].
  - destruct (base_Int_part x) as [H1 H2]. split.
    + apply Z.le_trans with 0%Z; [lia |].
      apply Z.lt_succ_r. apply lt_IZR. rewrite succ_IZR. lra.
    + apply le_IZR. lra.
  - destruct (base_Int_part (- x)) as [H1 H2]. split.
    + assert (Int_part (- x) <= - lo)%Z; [| lia].
      apply le_IZR. rewrite opp_IZR. lra.
    + assert (0 <= Int_part (- x))%Z; [| lia].
      apply Z.lt_succ_r. apply lt_IZR. rewrite succ_IZR. lra.
Qed.

Lemma clip_bounds (lo hi x : R) : lo <= hi -> lo <= Np.clip lo hi x <= hi.
Proof.
  intros H. unfold Np.clip.
  destruct (Rlt_dec x lo); [lra |]. destruct (Rlt_dec hi x); lra.
Qed.

Lemma clip_id (lo hi x : R) : lo <= x <= hi -> Np.clip lo hi x = x.
Proof.
  intros H. unfold Np.clip.
  destruct (Rlt_dec x lo); [lra |]. destruct (Rlt_dec hi x); lra.
Qed.

Lemma wrap_int16_id (z : Z) :
  (-32768 <= z <= 32767)%Z -> Np.wrap_int16 z = z.
Proof.
  intros H. unfold Np.wrap_int16. rewrite Z.mod_small by lia. lia.
Qed.

(** Conversion of a clamped sample: in range, and not wrapped. *)
Lemma astype_int16_clip (x : R) :
  let y := Np.clip (-32768) 32767 x in
  Np.astype_int16 y = Np.trunc y /\
  (-32768 <= Np.astype_int16 y <= 32767)%Z.
Proof.
  intros y.
  assert (Hy : (-32768 <= Np.trunc y <= 32767)%Z).
  { apply trunc_bounds; [lia |]. apply clip_bounds. lra. }
  unfold Np.astype_int16. rewrite wrap_int16_id by exact Hy. auto.
Qed.



(** ** Lengths *)

Lemma length_map2 {A B D} (f : A -> B -> D) (a : list A) (b : list B) :
  length (Np.map2 f a b) = Nat.min (length a) (length b).
Proof.
  revert b. induction a as [| x a IH]; intros [| y b]; simpl; auto.
Qed.

Lemma length_np_hanning (M : Z) : length (np_hanning M) = Z.to_nat M.
Proof.
  unfold np_hanning.
  destruct (M <? 1)%Z eqn:H1.
  - apply Z.ltb_lt in H1. simpl. lia.
  - destruct (M =? 1)%Z eqn:H2.
    + apply Z.eqb_eq in H2. subst. reflexivity.
    + now rewrite length_map, length_seq.
Qed.

Lemma length_windowed (a : list R) :
  length (Np.map2 Rmult a (np_hanning (Np.len a))) = length a.
Proof.
  rewrite length_map2, length_np_hanning. unfold Np.len. lia.
Qed.

Lemma length_dft (sgn : R) (a : list C) : length (dft sgn a) = length a.
Proof. unfold dft. now rewrite length_map, length_seq. Qed.

Lemma np_fft_ok (a : list R) : a <> [] -> np_fft a = Ok (dft (-1) (map RtoC a)).
Proof. destruct a; [congruence | reflexivity]. Qed.

Lemma length_lastn {A} (n : nat) (l : list A) :
  length (lastn n l) = Nat.min n (length l).
Proof. unfold lastn. rewrite length_skipn. lia. Qed.

Lemma lastn_all {A} (n : nat) (l : list A) : (length l <= n)%nat -> lastn n l = l.
Proof.
  intros H. unfold lastn. replace (length l - n)%nat with 0%nat by lia.
  reflexivity.
Qed.

Lemma len_deque_extend (d : deque) (xs : list R) :
  (0 <= maxlen d)%Z ->
  Np.len (items (deque_extend d xs)) =
  Z.min (maxlen d) (Np.len (items d) + Np.len xs).
Proof.
  intros H. unfold deque_extend, Np.len. simpl.
  rewrite length_lastn, length_app. lia.
Qed.

Lemma len_to_float (c : list Z) : Np.len (to_float c) = Np.len c.
Proof. apply len_map. Qed.

Lemma len_nonneg {A} (a : list A) : (0 <= Np.len a)%Z.
Proof. unfold Np.len. lia. Qed.

Lemma total_samples_nonneg (cs : list (list Z)) : (0 <= total_samples cs)%Z.
Proof.
  induction cs as [| c cs IH]; simpl; [lia |].
  pose proof (len_nonneg c). lia.
Qed.

Lemma total_samples_app (cs ds : list (list Z)) :
  total_samples (cs ++ ds) = (total_samples cs + total_samples ds)%Z.
Proof. induction cs as [| c cs IH]; simpl; lia. Qed.

(** ** One chunk, state by state *)

Section PipelineFacts.

Variable K : Z -> R -> list R -> list R.

Lemma process_learning (s : SafeAudioProcessor) (c : list Z) :
  learning_noise s = true ->
  process_audio_chunk K s c =
  let s1 := set_noise_buffer (metered s c)
              (deque_extend (noise_buffer s) (to_float c)) in
  if (learning_window s <=? Np.len (items (noise_buffer s1)))%Z then
    let noise_array := items (noise_buffer s1) in
    match np_fft (Np.map2 Rmult noise_array
                    (np_hanning (Np.len noise_array))) with
    | Raise e => (s1, Raise e)
    | Ok noise_fft =>
        (set_noise_learned
           (set_learning_noise
              (set_noise_profile s1 (Some (map Cabs noise_fft))) false) true,
         Ok c)
    end
  else (s1, Ok c).
Proof.
  intros H. unfold process_audio_chunk. simpl. rewrite H. reflexivity.
Qed.

Lemma process_bypassed (s : SafeAudioProcessor) (c : list Z) :
  learning_noise s = false -> processing_enabled s = false ->
  process_audio_chunk K s c = (metered s c, Ok c).
Proof.
  intros H1 H2. unfold process_audio_chunk. simpl. rewrite H1, H2.
  reflexivity.
Qed.

Lemma process_active (s : SafeAudioProcessor) (c : list Z) :
  learning_noise s = false -> processing_enabled s = true ->
  process_audio_chunk K s c =
  match noise_reduction K (metered s c) (to_float c) with
  | (s', Raise e) => (s', Raise e)
  | (s', Ok audio_float) => (s', Ok (to_int16 audio_float))
  end.
Proof.
  intros H1 H2. unfold process_audio_chunk. simpl. rewrite H1, H2.
  reflexivity.
Qed.

(** The stages change [processed_db] only. *)
Lemma noise_reduction_state (s : SafeAudioProcessor) (a : list R) :
  let s' := fst (noise_reduction K s a) in
  s' = s \/ exists d, s' = set_processed_db s (Some d).
Proof.
  unfold noise_reduction.
  destruct (noise_learned s && (0 <? Np.len a)%Z); [| now left].
  destruct (noise_profile s) as [p |]; [| now left].
  destruct (if (Np.len a =? Np.len p)%Z then _ else _) as [a1 | e];
    [| now left].
  destruct (low_pass_filter K s a1 8000) as [a2 | e]; [| now left].
  destruct (adaptive_volume_control (MAX_DB s) a2) as [a3 d].
  right. now exists d.
Qed.


Lemma same_settings_refl (s : SafeAudioProcessor) : same_settings s s.
Proof. unfold same_settings. tauto. Qed.

Lemma same_settings_trans (s1 s2 s3 : SafeAudioProcessor) :
  same_settings s1 s2 -> same_settings s2 s3 -> same_settings s1 s3.
Proof. unfold same_settings. intuition congruence. Qed.

Lemma same_settings_window (s s' : SafeAudioProcessor) :
  same_settings s s' -> learning_window s' = learning_window s.
Proof.
  unfold same_settings, learning_window. intros (_ & -> & _ & -> & _).
  reflexivity.
Qed.

Lemma noise_reduction_settings (s : SafeAudioProcessor) (a : list R) :
  let s' := fst (noise_reduction K s a) in
  same_settings s s' /\ learning_noise s' = learning_noise s /\
  noise_learned s' = noise_learned s /\ noise_profile s' = noise_profile s /\
  max_db_recorded s' = max_db_recorded s /\
  noise_buffer s' = noise_buffer s.
Proof.
  intros s'. destruct (noise_reduction_state s a) as [H | [d H]];
    fold s' in H; rewrite H; unfold same_settings; simpl; tauto.
Qed.

Lemma step_learning_stay (s : SafeAudioProcessor) (n : Z) (c : list Z) :
  learning_with s n -> (n + Np.len c < learning_window s)%Z ->
  learning_with (step K s c) (n + Np.len c) /\
  same_settings s (step K s c) /\
  snd (process_audio_chunk K s c) = Ok c.
Proof.
  intros (Hl & Hnl & Hp & Hm & Hn & Hlt) Hc.
  unfold step. rewrite (process_learning s c Hl). cbv zeta.
  assert (Hlen : Np.len (items (deque_extend (noise_buffer s) (to_float c)))
                 = (n + Np.len c)%Z).
  { rewrite len_deque_extend, Hm, Hn, len_to_float.
    - lia.
    - rewrite Hm. pose proof (len_nonneg (items (noise_buffer s))). lia. }
  cbn [noise_buffer set_noise_buffer]. rewrite Hlen.
  destruct (Z.leb_spec (learning_window s) (n + Np.len c)) as [H | H];
    [lia |].
  set (d := deque_extend (noise_buffer s) (to_float c)) in *.
  assert (Hd : maxlen d = maxlen (noise_buffer s)) by reflexivity.
  clearbody d.
  unfold learning_with, same_settings, learning_window. cbn.
  fold (learning_window s). rewrite Hd. tauto.
Qed.

Lemma step_learning_leave (s : SafeAudioProcessor) (n : Z) (c : list Z) :
  learning_with s n -> (0 < learning_window s)%Z ->
  (learning_window s <= n + Np.len c)%Z ->
  (exists p, active_with (step K s c) p) /\
  same_settings s (step K s c) /\
  snd (process_audio_chunk K s c) = Ok c.
Proof.
  intros (Hl & Hnl & Hp & Hm & Hn & Hlt) HW Hc.
  unfold step. rewrite (process_learning s c Hl). cbv zeta.
  assert (Hlen : Np.len (items (deque_extend (noise_buffer s) (to_float c)))
                 = learning_window s).
  { rewrite len_deque_extend, Hm, Hn, len_to_float; lia. }
  cbn [noise_buffer set_noise_buffer]. rewrite Hlen, Z.leb_refl.
  set (d := deque_extend (noise_buffer s) (to_float c)) in *.
  assert (Hd : maxlen d = maxlen (noise_buffer s)) by reflexivity.
  clearbody d.
  set (w := Np.map2 Rmult (items d) (np_hanning (learning_window s))).
  assert (Hw : length w = length (items d)).
  { unfold w. rewrite <- Hlen. apply length_windowed. }
  rewrite np_fft_ok.
  2:{ intros E. rewrite E in Hw. simpl in Hw. unfold Np.len in Hlen. lia. }
  cbn [fst snd].
  split; [| split; [unfold same_settings; cbn; tauto | reflexivity]].
  eexists. unfold active_with, learning_window. cbn.
  repeat split. fold (learning_window s). rewrite <- Hlen.
  unfold Np.len. now rewrite length_map, length_dft, length_map, Hw.
Qed.

Lemma step_active (s : SafeAudioProcessor) (p : list R) (c : list Z) :
  active_with s p ->
  active_with (step K s c) p /\ same_settings s (step K s c).
Proof.
  intros (Hl & Hnl & Hp & Hlen). unfold step.
  destruct (processing_enabled s) eqn:He.
  - rewrite (process_active s c Hl He).
    pose proof (noise_reduction_settings (metered s c) (to_float c)) as H.
    destruct (noise_reduction K (metered s c) (to_float c)) as [s' [a | e]];
      cbn in H |- *;
      destruct H as (Hs & H1 & H2 & H3 & _);
      (split; [| exact Hs]);
      unfold active_with; rewrite H1, H2, H3;
      rewrite (same_settings_window _ _ Hs); cbn; auto.
  - rewrite (process_bypassed s c Hl He). cbn.
    split; [| unfold same_settings; cbn; tauto].
    unfold active_with. cbn. auto.
Qed.

End PipelineFacts.

(** ** Streams of chunks *)

Section Streams.

Variable K : Z -> R -> list R -> list R.

Lemma run_cons (s : SafeAudioProcessor) (c : list Z) (cs : list (list Z)) :
  run K s (c :: cs) = run K (step K s c) cs.
Proof. reflexivity. Qed.


Lemma run_from_active (s : SafeAudioProcessor) (p : list R)
    (cs : list (list Z)) :
  active_with s p ->
  active_with (run K s cs) p /\ same_settings s (run K s cs) /\
  transitions K s cs = 0%nat.
Proof.
  revert s. induction cs as [| c cs IH]; intros s Ha.
  - simpl. auto using same_settings_refl.
  - destruct (step_active K s p c Ha) as [Ha' Hs].
    destruct (IH _ Ha') as (H1 & H2 & H3).
    rewrite run_cons. simpl transitions. rewrite H3.
    destruct Ha as (Hl & _). rewrite Hl. simpl.
    eauto using same_settings_trans.
Qed.

Lemma run_from_learning (s : SafeAudioProcessor) (n : Z)
    (cs : list (list Z)) :
  learning_with s n -> (0 < learning_window s)%Z ->
  same_settings s (run K s cs) /\
  transitions K s cs =
    (if (n + total_samples cs <? learning_window s)%Z then 0 else 1)%nat /\
  ((n + total_samples cs < learning_window s)%Z ->
   learning_with (run K s cs) (n + total_samples cs)) /\
  ((learning_window s <= n + total_samples cs)%Z ->
   exists p, active_with (run K s cs) p).
Proof.
  revert s n. induction cs as [| c cs IH]; intros s n Hl HW.
  - simpl. rewrite Z.add_0_r.
    assert (Hn : (n < learning_window s)%Z) by apply Hl.
    destruct (Z.ltb_spec n (learning_window s)); [| lia].
    split; [apply same_settings_refl |].
    split; [reflexivity |].
    split; [intros _; exact Hl | intros; lia].
  - rewrite run_cons. simpl transitions. simpl total_samples.
    pose proof (total_samples_nonneg cs) as Hnn.
    assert (Hlearn : learning_noise s = true) by apply Hl.
    destruct (Z.lt_ge_cases (n + Np.len c) (learning_window s)) as [Hc | Hc].
    + destruct (step_learning_stay K s n c Hl Hc) as (Hl' & Hs & _).
      pose proof (same_settings_window _ _ Hs) as HWeq.
      destruct (IH _ _ Hl') as (H1 & H2 & H3 & H4); [lia |].
      rewrite HWeq in *.
      assert (Hlearn' : learning_noise (step K s c) = true) by apply Hl'.
      rewrite Hlearn, Hlearn'. simpl.
      replace (n + (Np.len c + total_samples cs))%Z
        with (n + Np.len c + total_samples cs)%Z by lia.
      eauto using same_settings_trans.
    + destruct (step_learning_leave K s n c Hl HW Hc) as ((p & Ha) & Hs & _).
      destruct (run_from_active _ p cs Ha) as (H1 & H2 & H3).
      assert (Hlearn' : learning_noise (step K s c) = false) by apply Ha.
      rewrite Hlearn, Hlearn', H3. simpl.
      destruct (Z.ltb_spec (n + (Np.len c + total_samples cs))
                  (learning_window s)); [lia |].
      split; [eauto using same_settings_trans |].
      split; [reflexivity |].
      split; [intros; lia | intros _; now exists p].
Qed.

Lemma fresh_learning (s : SafeAudioProcessor) :
  fresh s -> (0 < learning_window s)%Z -> learning_with s 0.
Proof.
  intros (H1 & H2 & H3 & H4 & H5) HW. unfold learning_with.
  rewrite H4. repeat split; auto.
Qed.

End Streams.

Lemma learning_window_init : learning_window init = 132300%Z.
Proof.
  unfold learning_window. simpl.
  replace (44100 * 3) with (IZR 132300) by lra. apply trunc_IZR.
Qed.

Lemma init_fresh : fresh init.
Proof.
  unfold fresh. simpl. repeat split.
Qed.

Lemma init_window_pos : (0 < learning_window init)%Z.
Proof. rewrite learning_window_init. lia. Qed.



(** ** The stages of an active processor *)

Lemma level_le_refl (a : level) : level_le a a.
Proof. destruct a; simpl; [exact I | lra]. Qed.

Lemma py_max_ge (a b : level) : level_le a (py_max a b).
Proof.
  destruct a as [| x], b as [| y]; simpl; try exact I; try lra.
  destruct (Rlt_dec x y); simpl; lra.
Qed.

Section Stages.

Variable K : Z -> R -> list R -> list R.

Lemma step_max_db_recorded (s : SafeAudioProcessor) (c : list Z) :
  max_db_recorded (step K s c)
  = py_max (max_db_recorded s) (calculate_db_level (to_float c)).
Proof.
  unfold step. destruct (learning_noise s) eqn:Hl.
  - rewrite (process_learning K s c Hl). cbv zeta.
    destruct (_ <=? _)%Z; [| reflexivity].
    destruct (np_fft _); reflexivity.
  - destruct (processing_enabled s) eqn:He.
    + rewrite (process_active K s c Hl He).
      pose proof (noise_reduction_settings K (metered s c) (to_float c)) as H.
      destruct (noise_reduction K (metered s c) (to_float c)) as [s' [a | e]];
        cbn in H |- *; destruct H as (_ & _ & _ & _ & -> & _); reflexivity.
    + rewrite (process_bypassed K s c Hl He). reflexivity.
Qed.

Lemma run_max_db_recorded (s : SafeAudioProcessor) (cs : list (list Z)) :
  level_le (max_db_recorded s) (max_db_recorded (run K s cs)).
Proof.
  revert s. induction cs as [| c cs IH]; intros s.
  - apply level_le_refl.
  - rewrite run_cons. eapply level_le_trans; [| apply IH].
    rewrite step_max_db_recorded. apply py_max_ge.
Qed.

(** The stages on a chunk whose length differs from the profile's. *)
Lemma noise_reduction_mismatch (s : SafeAudioProcessor) (a p : list R) :
  noise_learned s = true -> noise_profile s = Some p ->
  Np.len a <> Np.len p ->
  (filtfilt_padlen 4 < Np.len a)%Z ->
  butter_accepts (8000 / (IZR (RATE s) / 2)) = true ->
  low_pass_filter K s a 8000 = Ok (K 4%Z (8000 / (IZR (RATE s) / 2)) a) /\
  noise_reduction K s a =
  (set_processed_db s
     (Some (snd (adaptive_volume_control (MAX_DB s)
                   (K 4%Z (8000 / (IZR (RATE s) / 2)) a)))),
   Ok (fst (adaptive_volume_control (MAX_DB s)
              (K 4%Z (8000 / (IZR (RATE s) / 2)) a)))).
Proof.
  intros Hnl Hp Hne Hlen Hb.
  assert (Hf : low_pass_filter K s a 8000
               = Ok (K 4%Z (8000 / (IZR (RATE s) / 2)) a)).
  { unfold low_pass_filter. rewrite Hb.
    destruct (Z.leb_spec (Np.len a) (filtfilt_padlen 4)); [lia | reflexivity]. }
  split; [exact Hf |].
  unfold noise_reduction. rewrite Hnl, Hp.
  assert (H0 : (0 <? Np.len a)%Z = true).
  { apply Z.ltb_lt. unfold filtfilt_padlen in Hlen. lia. }
  rewrite H0. simpl andb. cbv iota.
  apply Z.eqb_neq in Hne. rewrite Hne, Hf.
  destruct (adaptive_volume_control _ _). reflexivity.
Qed.

Lemma noise_reduction_empty (s : SafeAudioProcessor) :
  noise_reduction K s [] = (s, Ok []).
Proof.
  unfold noise_reduction. simpl. rewrite andb_false_r. reflexivity.
Qed.

Lemma low_pass_filter_short (s : SafeAudioProcessor) (a : list R) :
  (Np.len a <= filtfilt_padlen 4)%Z ->
  low_pass_filter K s a 8000 = Raise ValueError.
Proof.
  intros H. unfold low_pass_filter.
  destruct (butter_accepts _); [| reflexivity].
  destruct (Z.leb_spec (Np.len a) (filtfilt_padlen 4)); [reflexivity | lia].
Qed.

Lemma noise_reduction_short (s : SafeAudioProcessor) (a p : list R) :
  noise_learned s = true -> noise_profile s = Some p ->
  Np.len a <> Np.len p ->
  (0 < Np.len a <= filtfilt_padlen 4)%Z ->
  noise_reduction K s a = (s, Raise ValueError).
Proof.
  intros Hnl Hp Hne Hlen. unfold noise_reduction. rewrite Hnl, Hp.
  assert (H0 : (0 <? Np.len a)%Z = true) by (apply Z.ltb_lt; lia).
  rewrite H0. simpl andb. cbv iota.
  apply Z.eqb_neq in Hne. rewrite Hne.
  rewrite low_pass_filter_short by lia. reflexivity.
Qed.

(** An active processor reached from [init]. *)
Lemma run_init_active (cs : list (list Z)) :
  learning_noise (run K init cs) = false ->
  active_with (run K init cs) (profile_of (run K init cs)) /\
  same_settings init (run K init cs).
Proof.
  intros Hl.
  destruct (run_from_learning K init 0 cs
              (fresh_learning init init_fresh init_window_pos)
              init_window_pos) as (Hs & _ & Hlt & Hge).
  split; [| exact Hs].
  destruct (Z.lt_ge_cases (0 + total_samples cs) (learning_window init))
    as [H | H].
  - destruct (Hlt H) as (Ht & _). congruence.
  - destruct (Hge H) as (p & Ha). unfold profile_of.
    destruct Ha as (H1 & H2 & H3 & H4). rewrite H3.
    unfold active_with. auto.
Qed.

End Stages.

Lemma butter_accepts_default : butter_accepts (8000 / (IZR 44100 / 2)) = true.
Proof.
  unfold butter_accepts.
  destruct (Rlt_dec 0 _) as [H | H].
  - destruct (Rlt_dec _ 1) as [H1 | H1]; [reflexivity |].
    exfalso. apply H1. lra.
  - exfalso. apply H. lra.
Qed.

Lemma total_samples_single (z : Z) (n : nat) :
  total_samples [repeat z n] = Z.of_nat n.
Proof. unfold total_samples, Np.len. simpl. rewrite repeat_length. lia. Qed.

Lemma total_learning_stream : total_samples learning_stream = 132300%Z.
Proof. unfold learning_stream. rewrite total_samples_single. lia. Qed.

Lemma learning_stream_active (K : Z -> R -> list R -> list R) :
  learning_noise (run K init learning_stream) = false.
Proof.
  destruct (run_from_learning K init 0 learning_stream
              (fresh_learning init init_fresh init_window_pos)
              init_window_pos) as (_ & _ & _ & Hge).
  rewrite total_learning_stream, learning_window_init in Hge.
  destruct Hge as (p & Ha); [lia |]. apply Ha.
Qed.

(** C10. After every chunk, in every state, [max_db_recorded] is Python's
    max of its former value and the level measured on the input chunk as
    converted to float (before any stage); so it never decreases along a
    stream. *)
Theorem max_db_recorded_monotone (K : Z -> R -> list R -> list R)
    (s : SafeAudioProcessor) (c : list Z) (cs : list (list Z)) :
  max_db_recorded (step K s c)
  = py_max (max_db_recorded s) (calculate_db_level (to_float c))
  /\ level_le (max_db_recorded s) (max_db_recorded (step K s c))
  /\ level_le (max_db_recorded s) (max_db_recorded (run K s cs)).
Proof.
  split; [apply step_max_db_recorded |].
  split; [| apply run_max_db_recorded].
  rewrite step_max_db_recorded. apply py_max_ge.
Qed.

(** C9. With the settings of [__init__], every active processor reached
    from [init] has a profile of 132300 values; a chunk of [CHUNK] = 1024
    samples fails the length test, and what is returned for it is the
    limiter applied to the low-pass filter applied to the chunk as converted
    to float: spectral subtraction takes no part. *)
Theorem default_profile_never_matches_chunk
    (K : Z -> R -> list R -> list R) (cs : list (list Z)) (c : list Z) :
  learning_noise (run K init cs) = false ->
  Np.len c = CHUNK init ->
  let s := run K init cs in
  let filtered := K 4%Z (8000 / (IZR 44100 / 2)) (to_float c) in
  (exists p, noise_profile s = Some p /\ Np.len p = 132300%Z /\
             (Np.len (to_float c) =? Np.len p)%Z = false) /\
  process_audio_chunk K s c =
  (set_processed_db (metered s c)
     (Some (snd (adaptive_volume_control 70 filtered))),
   Ok (to_int16 (fst (adaptive_volume_control 70 filtered)))).
Proof.
  intros Hl Hc s filtered.
  destruct (run_init_active K cs Hl) as (Ha & Hs). fold s in Ha, Hs.
  destruct Ha as (_ & Hnl & Hp & Hlen).
  rewrite (same_settings_window _ _ Hs), learning_window_init in Hlen.
  destruct Hs as (_ & HR & HM & _ & _ & He & _).
  change (CHUNK init) with 1024%Z in Hc.
  split.
  - exists (profile_of s). rewrite len_to_float, Hc, Hlen. auto.
  - rewrite (process_active K s c Hl) by (rewrite He; reflexivity).
    destruct (noise_reduction_mismatch K (metered s c) (to_float c)
                (profile_of s)) as (_ & Hnr).
    + exact Hnl.
    + exact Hp.
    + rewrite len_to_float, Hc, Hlen. lia.
    + rewrite len_to_float, Hc. unfold filtfilt_padlen. lia.
    + change (RATE (metered s c)) with (RATE s). rewrite HR.
      apply butter_accepts_default.
    + rewrite Hnr. change (RATE (metered s c)) with (RATE s).
      change (MAX_DB (metered s c)) with (MAX_DB s). rewrite HR, HM.
      reflexivity.
Qed.

Lemma len_default_chunk : Np.len (repeat 0%Z 1024) = CHUNK init.
Proof. reflexivity. Qed.

(** A chunk of 1024 zeros after the learning window was filled. *)
Lemma default_profile_never_matches_chunk_witness :
  let s := run passthrough_kernel init learning_stream in
  let filtered :=
    passthrough_kernel 4 (8000 / (IZR 44100 / 2))
      (to_float (repeat 0%Z 1024)) in
  (exists p, noise_profile s = Some p /\ Np.len p = 132300%Z /\
             (Np.len (to_float (repeat 0%Z 1024)) =? Np.len p)%Z = false) /\
  process_audio_chunk passthrough_kernel s (repeat 0%Z 1024) =
  (set_processed_db (metered s (repeat 0%Z 1024))
     (Some (snd (adaptive_volume_control 70 filtered))),
   Ok (to_int16 (fst (adaptive_volume_control 70 filtered)))).
Proof.
  exact (default_profile_never_matches_chunk passthrough_kernel
           learning_stream (repeat 0%Z 1024)
           (learning_stream_active passthrough_kernel) len_default_chunk).
Defined.

(** C7. An active processor with the settings of [__init__] raises on a
    chunk of one sample: [filtfilt] refuses an input that is not longer
    than its padding of 15 samples. *)
Theorem short_chunk_raises (K : Z -> R -> list R -> list R) :
  learning_noise (run K init learning_stream) = false /\
  processing_enabled (run K init learning_stream) = true /\
  snd (process_audio_chunk K (run K init learning_stream) [0%Z])
  = Raise ValueError.
Proof.
  pose proof (learning_stream_active K) as Hl.
  destruct (run_init_active K learning_stream Hl) as (Ha & Hs).
  set (s := run K init learning_stream) in *.
  destruct Ha as (_ & Hnl & Hp & Hlen).
  rewrite (same_settings_window _ _ Hs), learning_window_init in Hlen.
  destruct Hs as (_ & _ & _ & _ & _ & He & _).
  change (processing_enabled init) with true in He.
  split; [exact Hl |]. split; [exact He |].
  rewrite (process_active K s [0%Z] Hl He).
  rewrite (noise_reduction_short K (metered s [0%Z]) (to_float [0%Z])
             (profile_of s)).
  - reflexivity.
  - exact Hnl.
  - exact Hp.
  - rewrite Hlen. unfold Np.len. simpl. lia.
  - unfold Np.len, filtfilt_padlen. simpl. lia.
Qed.

(** C3, as stated, fails: for the empty chunk, whose length differs from
    the profile's, neither the filter nor the limiter runs. *)
Lemma empty_chunk_skips_filter_and_limiter :
  ~ (forall (K : Z -> R -> list R -> list R) (s : SafeAudioProcessor)
            (c : list Z) (p : list R),
        learning_noise s = false -> processing_enabled s = true ->
        noise_learned s = true -> noise_profile s = Some p ->
        Np.len c <> Np.len p ->
        exists filtered,
          low_pass_filter K (metered s c) (to_float c) 8000 = Ok filtered /\
          process_audio_chunk K s c =
          (set_processed_db (metered s c)
             (Some (snd (adaptive_volume_control (MAX_DB s) filtered))),
           Ok (to_int16 (fst (adaptive_volume_control (MAX_DB s) filtered))))).
Proof.
  intros H.
  pose proof (learning_stream_active passthrough_kernel) as Hl.
  destruct (run_init_active passthrough_kernel learning_stream Hl)
    as (Ha & Hs).
  set (s := run passthrough_kernel init learning_stream) in *.
  destruct Ha as (_ & Hnl & Hp & Hlen).
  rewrite (same_settings_window _ _ Hs), learning_window_init in Hlen.
  destruct Hs as (_ & _ & _ & _ & _ & He & _).
  change (processing_enabled init) with true in He.
  assert (Hnone : processed_db s = None).
  { unfold s, learning_stream, run. cbn [fold_left]. unfold step.
    rewrite (process_learning passthrough_kernel init _ eq_refl).
    cbv zeta. destruct (_ <=? _)%Z; [| reflexivity].
    destruct (np_fft _); reflexivity. }
  clearbody s.
  destruct (H passthrough_kernel s [] (profile_of s) Hl He Hnl Hp)
    as (filtered & Hf & Hproc).
  - rewrite Hlen. unfold Np.len. simpl. lia.
  - rewrite (process_active passthrough_kernel s [] Hl He) in Hproc.
    change (to_float []) with (@nil R) in Hproc.
    rewrite noise_reduction_empty in Hproc.
    apply (f_equal (fun r => processed_db (fst r))) in Hproc.
    cbn in Hproc. congruence.
Qed.

(** C3, amended. In an active processor with processing enabled and the
    cutoff below the Nyquist frequency, a chunk of more than 15 samples
    whose length differs from the profile's skips spectral subtraction:
    the low-pass filter runs on the chunk as converted to float, the limiter
    on the filtered chunk, and the limiter's level is recorded. An empty
    chunk skips all three stages and is returned converted back. *)
Theorem mismatched_chunk_skips_subtraction
    (K : Z -> R -> list R -> list R) (s : SafeAudioProcessor)
    (c : list Z) (p : list R) :
  learning_noise s = false -> processing_enabled s = true ->
  noise_learned s = true -> noise_profile s = Some p ->
  Np.len c <> Np.len p ->
  butter_accepts (8000 / (IZR (RATE s) / 2)) = true ->
  let filtered := K 4%Z (8000 / (IZR (RATE s) / 2)) (to_float c) in
  ((filtfilt_padlen 4 < Np.len c)%Z ->
   low_pass_filter K (metered s c) (to_float c) 8000 = Ok filtered /\
   process_audio_chunk K s c =
   (set_processed_db (metered s c)
      (Some (snd (adaptive_volume_control (MAX_DB s) filtered))),
    Ok (to_int16 (fst (adaptive_volume_control (MAX_DB s) filtered)))))
  /\ (c = [] -> process_audio_chunk K s c = (metered s c, Ok [])).
Proof.
  intros Hl He Hnl Hp Hne Hb filtered. split.
  - intros Hlen.
    destruct (noise_reduction_mismatch K (metered s c) (to_float c) p)
      as (Hf & Hnr); try assumption.
    + rewrite len_to_float. exact Hne.
    + rewrite len_to_float. exact Hlen.
    + split; [exact Hf |].
      rewrite (process_active K s c Hl He), Hnr. reflexivity.
  - intros ->. rewrite (process_active K s [] Hl He).
    change (to_float []) with (@nil R).
    rewrite noise_reduction_empty. reflexivity.
Qed.

Lemma short_of_profile (K : Z -> R -> list R -> list R) (c : list Z) :
  (Np.len c < 132300)%Z ->
  Np.len c <> Np.len (profile_of (run K init learning_stream)).
Proof.
  intros H.
  destruct (run_init_active K learning_stream (learning_stream_active K))
    as (Ha & Hs).
  destruct Ha as (_ & _ & _ & Hlen).
  rewrite (same_settings_window _ _ Hs), learning_window_init in Hlen.
  lia.
Qed.

Lemma active_example (K : Z -> R -> list R -> list R) :
  let s := run K init learning_stream in
  learning_noise s = false /\ processing_enabled s = true /\
  noise_learned s = true /\ noise_profile s = Some (profile_of s) /\
  RATE s = 44100%Z /\ MAX_DB s = 70.
Proof.
  intros s.
  destruct (run_init_active K learning_stream (learning_stream_active K))
    as (Ha & Hs).
  fold s in Ha, Hs.
  destruct Ha as (H1 & H2 & H3 & _).
  destruct Hs as (_ & HR & HM & _ & _ & He & _).
  repeat split; assumption.
Qed.

Lemma active_example_butter (K : Z -> R -> list R -> list R) :
  butter_accepts (8000 / (IZR (RATE (run K init learning_stream)) / 2)) = true.
Proof.
  destruct (active_example K) as (_ & _ & _ & _ & -> & _).
  apply butter_accepts_default.
Qed.

Lemma len_sixteen : (Np.len (repeat 0%Z 16) < 132300)%Z.
Proof. reflexivity. Qed.

(** A chunk of 16 zeros against the profile of 132300 values. *)
Lemma mismatched_chunk_skips_subtraction_witness :
  let K := passthrough_kernel in
  let s := run K init learning_stream in
  let c := repeat 0%Z 16 in
  let filtered := K 4%Z (8000 / (IZR (RATE s) / 2)) (to_float c) in
  ((filtfilt_padlen 4 < Np.len c)%Z ->
   low_pass_filter K (metered s c) (to_float c) 8000 = Ok filtered /\
   process_audio_chunk K s c =
   (set_processed_db (metered s c)
      (Some (snd (adaptive_volume_control (MAX_DB s) filtered))),
    Ok (to_int16 (fst (adaptive_volume_control (MAX_DB s) filtered)))))
  /\ (c = [] -> process_audio_chunk K s c = (metered s c, Ok [])).
Proof.
  exact (mismatched_chunk_skips_subtraction passthrough_kernel
           (run passthrough_kernel init learning_stream) (repeat 0%Z 16)
           (profile_of (run passthrough_kernel init learning_stream))
           (proj1 (active_example passthrough_kernel))
           (proj1 (proj2 (active_example passthrough_kernel)))
           (proj1 (proj2 (proj2 (active_example passthrough_kernel))))
           (proj1 (proj2 (proj2 (proj2 (active_example passthrough_kernel)))))
           (short_of_profile passthrough_kernel (repeat 0%Z 16) len_sixteen)
           (active_example_butter passthrough_kernel)).
Defined.

(** ** Conversion of the output *)

(** ** simple_pc_to_headphone.py *)

Lemma Rpower_10_neg (t : R) : t < 0 -> 0 < Rpower 10 t < 1.
Proof.
  intros H. split; [apply Rpower_pos |].
  unfold Rpower. rewrite <- exp_0. apply exp_increasing.
  pose proof ln10_pos. nra.
Qed.

Lemma simple_limiter_gain (self : SimplePC.SimpleAudioProcessor)
    (a : list R) :
  exists g, 0 < g <= 1 /\
    fst (snd (SimplePC.apply_safety_limiting self a))
    = map (fun x => x * g) a.
Proof.
  unfold SimplePC.apply_safety_limiting.
  destruct (Rlt_dec 0 _) as [Hr | Hr].
  - cbn [SimplePC.MAX_DB]. destruct (Rlt_dec (SimplePC.MAX_DB self) _) as [H | H].
    + eexists. split; [| reflexivity].
      destruct (Rpower_10_neg
        (- (20 * Np.log10 (sqrt (Np.mean (Np.square a))) + 94
            - SimplePC.MAX_DB self) / 20)); lra.
    + exists 1. split; [lra |]. cbn.
      rewrite <- (map_id a) at 1. apply map_ext. intros; lra.
  - exists 1. split; [lra |]. cbn.
    rewrite <- (map_id a) at 1. apply map_ext. intros; lra.
Qed.

Lemma astype_int16_in_range (x : R) :
  -32768 <= x <= 32767 ->
  Np.astype_int16 x = Np.trunc x /\ int16 (Np.astype_int16 x) /\
  Np.astype_int16 x = Np.astype_int16 (Np.clip (-32768) 32767 x).
Proof.
  intros H. rewrite clip_id by exact H.
  assert (Ht : (-32768 <= Np.trunc x <= 32767)%Z)
    by (apply trunc_bounds; [lia | exact H]).
  unfold Np.astype_int16, int16. rewrite wrap_int16_id by exact Ht. auto.
Qed.






(** A chunk of 16 samples through the active processor reached by
    [learning_stream]. *)
Lemma active_example_output (K : Z -> R -> list R -> list R) :
  let s := run K init learning_stream in
  let c := repeat 0%Z 16 in
  let limited :=
    adaptive_volume_control 70 (K 4%Z (8000 / (IZR 44100 / 2)) (to_float c)) in
  process_audio_chunk K s c
  = (set_processed_db (metered s c) (Some (snd limited)),
     Ok (to_int16 (fst limited))).
Proof.
  intros s c limited.
  destruct (active_example K) as (Hl & He & Hnl & Hp & HR & HM).
  fold s in Hl, He, Hnl, Hp, HR, HM.
  rewrite (process_active K s c Hl He).
  destruct (noise_reduction_mismatch K (metered s c) (to_float c)
              (profile_of s)) as (_ & Hnr).
  - exact Hnl.
  - exact Hp.
  - rewrite len_to_float. apply short_of_profile. exact len_sixteen.
  - reflexivity.
  - change (RATE (metered s c)) with (RATE s). rewrite HR.
    apply butter_accepts_default.
  - rewrite Hnr. change (RATE (metered s c)) with (RATE s).
    change (MAX_DB (metered s c)) with (MAX_DB s). rewrite HR, HM.
    reflexivity.
Qed.




(** ** Finite sums *)

Lemma sum_app (a b : list R) : Np.sum (a ++ b) = Np.sum a + Np.sum b.
Proof. induction a as [| x a IH]; simpl; [ring | rewrite IH; ring]. Qed.

Lemma sum_seq_S (f : nat -> R) (n : nat) :
  Np.sum (map f (seq 0 (S n))) = Np.sum (map f (seq 0 n)) + f n.
Proof. rewrite seq_S, map_app, sum_app. simpl. ring. Qed.

Lemma sum_map_ext {A} (f g : A -> R) (l : list A) :
  (forall i, In i l -> f i = g i) ->
  Np.sum (map f l) = Np.sum (map g l).
Proof. intros H. f_equal. now apply map_ext_in. Qed.

Lemma sum_map_scale {A} (c : R) (f : A -> R) (l : list A) :
  Np.sum (map (fun i => c * f i) l) = c * Np.sum (map f l).
Proof. induction l as [| x l IH]; simpl; [ring | rewrite IH; ring]. Qed.

Lemma sum_map_plus {A} (f g : A -> R) (l : list A) :
  Np.sum (map (fun i => f i + g i) l)
  = Np.sum (map f l) + Np.sum (map g l).
Proof. induction l as [| x l IH]; simpl; [ring | rewrite IH; ring]. Qed.

Lemma sum_map_zero {A} (l : list A) : Np.sum (map (fun _ => 0) l) = 0.
Proof. induction l as [| x l IH]; simpl; [ring | rewrite IH; ring]. Qed.

Lemma sum_swap {A B} (f : A -> B -> R) (l1 : list A) (l2 : list B) :
  Np.sum (map (fun j => Np.sum (map (fun m => f j m) l2)) l1)
  = Np.sum (map (fun m => Np.sum (map (fun j => f j m) l1)) l2).
Proof.
  induction l1 as [| a l1 IH]; simpl.
  - now rewrite sum_map_zero.
  - rewrite IH, <- sum_map_plus. reflexivity.
Qed.

Lemma sum_delta (x : nat -> R) (c : R) (k n : nat) :
  (k < n)%nat ->
  Np.sum (map (fun m => x m * (if (m =? k)%nat then c else 0)) (seq 0 n))
  = x k * c.
Proof.
  induction n as [| n IH]; intros Hk; [lia |].
  rewrite sum_seq_S.
  destruct (Nat.eq_dec k n) as [-> | Hne].
  - rewrite Nat.eqb_refl.
    rewrite (sum_map_ext _ (fun _ => 0)).
    + rewrite sum_map_zero. ring.
    + intros i Hi. apply in_seq in Hi.
      destruct (Nat.eqb_spec i n); [lia | ring].
  - rewrite IH by lia.
    destruct (Nat.eqb_spec n k); [lia | ring].
Qed.

Lemma sum_const (c : R) (n : nat) :
  Np.sum (map (fun _ => c) (seq 0 n)) = INR n * c.
Proof.
  induction n as [| n IH].
  - simpl. ring.
  - rewrite sum_seq_S, IH, S_INR. ring.
Qed.

(** ** Sums of cosines over a full period *)

Lemma cos_sum_telescope (t : R) (n : nat) :
  2 * sin (t / 2) * Np.sum (map (fun j => cos (INR j * t)) (seq 0 n))
  = sin ((INR n - 1 / 2) * t) + sin (t / 2).
Proof.
  induction n as [| n IH].
  - simpl. replace ((0 - 1 / 2) * t) with (- (t / 2)) by field.
    rewrite sin_neg. ring.
  - rewrite sum_seq_S, Rmult_plus_distr_l, IH, S_INR.
    replace ((INR n + 1 - 1 / 2) * t) with (INR n * t + t / 2) by field.
    replace ((INR n - 1 / 2) * t) with (INR n * t - t / 2) by field.
    rewrite sin_plus, sin_minus. ring.
Qed.

Lemma cos_sum_period (n d : nat) :
  (0 < d < n)%nat ->
  Np.sum (map (fun j => cos (INR j * (2 * PI * INR d / INR n))) (seq 0 n))
  = 0.
Proof.
  intros [Hd Hn].
  assert (Hn' : 0 < INR n) by (apply lt_0_INR; lia).
  assert (Hd' : 0 < INR d) by (apply lt_0_INR; lia).
  assert (Hdn : INR d < INR n) by (apply lt_INR; lia).
  set (t := 2 * PI * INR d / INR n).
  pose proof (cos_sum_telescope t n) as H.
  replace ((INR n - 1 / 2) * t) with (- (t / 2) + 2 * INR d * PI) in H
    by (unfold t; field; lra).
  rewrite sin_period, sin_neg in H.
  assert (Hs : 0 < sin (t / 2)).
  { pose proof PI_RGT_0.
    assert (0 < INR d / INR n < 1).
    { split; [now apply Rdiv_lt_0_compat |].
      apply Rmult_lt_reg_r with (INR n); [lra |].
      unfold Rdiv. rewrite Rmult_assoc, Rinv_l by lra. lra. }
    replace (t / 2) with (PI * (INR d / INR n)) by (unfold t; field; lra).
    apply sin_gt_0; nra. }
  nra.
Qed.

Lemma cos_sum_orthogonal (n k m : nat) :
  (k < n)%nat -> (m < n)%nat ->
  Np.sum (map (fun j => cos (1 * (2 * PI * INR k * INR j / INR n)
                             + -1 * (2 * PI * INR j * INR m / INR n)))
              (seq 0 n))
  = if (m =? k)%nat then INR n else 0.
Proof.
  intros Hk Hm.
  assert (Hn' : 0 < INR n) by (apply lt_0_INR; lia).
  destruct (Nat.eqb_spec m k) as [-> | Hne].
  - rewrite (sum_map_ext _ (fun _ => 1)).
    + rewrite sum_const. ring.
    + intros j _. transitivity (cos 0); [| apply cos_0].
      f_equal. field. lra.
  - destruct (Nat.lt_ge_cases m k) as [Hlt | Hge].
    + rewrite <- (cos_sum_period n (k - m)) by lia.
      apply sum_map_ext. intros j _. f_equal.
      rewrite minus_INR by lia. field. lra.
    + rewrite <- (cos_sum_period n (m - k)) by lia.
      apply sum_map_ext. intros j _.
      rewrite <- cos_neg. f_equal.
      rewrite minus_INR by lia. field. lra.
Qed.

(** ** Modulus and argument *)

Lemma modulus_atan (x y : R) : x <> 0 ->
  sqrt (x * x + y * y) * cos (atan (y / x)) = Rabs x /\
  sqrt (x * x + y * y) * sin (atan (y / x)) = Rabs x * (y / x).
Proof.
  intros Hx. rewrite cos_atan, sin_atan. unfold Rsqr.
  set (s := sqrt (1 + y / x * (y / x))).
  assert (Hs : 0 < s).
  { apply sqrt_lt_R0. pose proof (Rle_0_sqr (y / x)) as H.
    unfold Rsqr in H. lra. }
  assert (Ha : 0 < Rabs x) by now apply Rabs_pos_lt.
  assert (HM : sqrt (x * x + y * y) = s * Rabs x).
  { rewrite <- (sqrt_square (s * Rabs x)) by nra. f_equal.
    replace (s * Rabs x * (s * Rabs x))
      with ((s * s) * (Rabs x * Rabs x)) by ring.
    unfold s. rewrite sqrt_sqrt.
    - replace (Rabs x * Rabs x) with (x * x).
      + field. exact Hx.
      + unfold Rabs. destruct (Rcase_abs x); ring.
    - pose proof (Rle_0_sqr (y / x)) as H. unfold Rsqr in H. lra. }
  rewrite HM. split; field; lra.
Qed.

Lemma sqrt_square_abs (y : R) : sqrt (0 * 0 + y * y) = Rabs y.
Proof.
  replace (0 * 0 + y * y) with (Rsqr y) by (unfold Rsqr; ring).
  apply sqrt_Rsqr_abs.
Qed.

Lemma polar_form (z : C) : Cscale (Cabs z) (cis (Cangle z)) = z.
Proof.
  destruct z as [x y].
  unfold Cscale, Cabs, Cangle, cis, arctan2, Re, Im. cbn [fst snd].
  destruct (Rlt_dec 0 x) as [Hx | Hx].
  - destruct (modulus_atan x y) as [Hc Hs]; [lra |].
    rewrite Hc, Hs, Rabs_right by lra. f_equal. field. lra.
  - destruct (Rlt_dec x 0) as [Hx' | Hx'].
    + destruct (modulus_atan x y) as [Hc Hs]; [lra |].
      rewrite Rabs_left in Hc, Hs by lra.
      destruct (Rle_dec 0 y).
      * rewrite neg_cos, neg_sin. f_equal; [nra |].
        transitivity (- (- x * (y / x))); [nra | field; lra].
      * rewrite cos_minus, sin_minus, cos_PI, sin_PI. f_equal; [nra |].
        transitivity (- (- x * (y / x))); [nra | field; lra].
    + assert (x = 0) by lra. subst x. rewrite sqrt_square_abs.
      destruct (Rlt_dec 0 y) as [Hy | Hy].
      * rewrite cos_PI2, sin_PI2, Rabs_right by lra. f_equal; ring.
      * destruct (Rlt_dec y 0) as [Hy' | Hy'].
        -- rewrite cos_neg, sin_neg, cos_PI2, sin_PI2, Rabs_left by lra.
           f_equal; ring.
        -- assert (y = 0) by lra. subst y.
           rewrite Rabs_R0. f_equal; ring.
Qed.

Lemma map2_polar_form (a : list C) :
  Np.map2 (fun m p => Cscale m (cis p)) (map Cabs a) (map Cangle a) = a.
Proof.
  induction a as [| z a IH]; simpl; [reflexivity |].
  now rewrite polar_form, IH.
Qed.

Lemma Cabs_nonneg (z : C) : 0 <= Cabs z.
Proof. apply sqrt_pos. Qed.

(** With factor 0 nothing is subtracted and the floor is not reached. *)
Lemma enhanced_spectrum_zero_factor (spectrum noise : list R) :
  length noise = length spectrum ->
  Forall (fun m => 0 <= m) spectrum ->
  Np.map2 Rmax
    (Np.map2 Rminus spectrum (map (fun x => 0 * x) noise))
    (map (fun x => 0.1 * x) spectrum)
  = spectrum.
Proof.
  revert noise. induction spectrum as [| m sp IH]; intros [| x ns] Hlen Hpos;
    simpl in *; try discriminate; [reflexivity |].
  inversion Hpos as [| ? ? Hm Hsp]; subst.
  rewrite IH by (auto; lia). f_equal.
  rewrite Rmax_left by lra. ring.
Qed.

(** ** The inverse transform undoes the transform *)

Lemma Re_Csum (a : list C) : Re (Csum a) = Np.sum (map Re a).
Proof. induction a as [| z a IH]; simpl; [reflexivity | now rewrite <- IH]. Qed.

Lemma Im_Csum (a : list C) : Im (Csum a) = Np.sum (map Im a).
Proof. induction a as [| z a IH]; simpl; [reflexivity | now rewrite <- IH]. Qed.

Lemma nth_map_seq {A} (f : nat -> A) (n j : nat) (d : A) :
  (j < n)%nat -> nth j (map f (seq 0 n)) d = f j.
Proof.
  intros H. rewrite (nth_indep _ d (f 0%nat)) by now rewrite length_map, length_seq.
  rewrite map_nth, seq_nth by exact H. reflexivity.
Qed.

Lemma nth_dft (sgn : R) (a : list C) (k : nat) :
  (k < length a)%nat ->
  nth k (dft sgn a) (0, 0) =
  Csum (map (fun m => Cmul (nth m a (0, 0))
                        (cis (sgn * (2 * PI * INR k * INR m / INR (length a)))))
            (seq 0 (length a))).
Proof. intros H. unfold dft. now rewrite nth_map_seq. Qed.

Lemma nth_RtoC (w : list R) (m : nat) :
  nth m (map RtoC w) (0, 0) = RtoC (nth m w 0).
Proof. exact (map_nth RtoC w 0 m). Qed.

Lemma dft_inverse_real (w : list R) (k : nat) :
  (k < length w)%nat ->
  Re (nth k (dft 1 (dft (-1) (map RtoC w))) (0, 0))
  = INR (length w) * nth k w 0.
Proof.
  intros Hk. set (n := length w) in *.
  assert (Hlen : length (dft (-1) (map RtoC w)) = n)
    by now rewrite length_dft, length_map.
  rewrite nth_dft by (rewrite Hlen; exact Hk).
  rewrite Hlen, Re_Csum, map_map.
  rewrite (sum_map_ext _
    (fun j => Np.sum (map (fun m =>
        nth m w 0 * cos (1 * (2 * PI * INR k * INR j / INR n)
                         + -1 * (2 * PI * INR j * INR m / INR n)))
      (seq 0 n)))).
  - rewrite sum_swap.
    rewrite (sum_map_ext _
      (fun m => nth m w 0 * (if (m =? k)%nat then INR n else 0))).
    + rewrite sum_delta by exact Hk. ring.
    + intros m Hm. apply in_seq in Hm.
      rewrite sum_map_scale. f_equal.
      apply cos_sum_orthogonal; lia.
  - intros j Hj. apply in_seq in Hj.
    rewrite nth_dft by (rewrite length_map; fold n; lia).
    rewrite length_map. fold n.
    unfold Cmul at 1. cbn [Re fst].
    rewrite Re_Csum, Im_Csum, !map_map.
    set (phi := 1 * (2 * PI * INR k * INR j / INR n)).
    transitivity
      (Np.sum (map (fun m =>
         cos phi * Re (Cmul (nth m (map RtoC w) (0, 0))
                         (cis (-1 * (2 * PI * INR j * INR m / INR n))))
         + - sin phi * Im (Cmul (nth m (map RtoC w) (0, 0))
                             (cis (-1 * (2 * PI * INR j * INR m / INR n)))))
         (seq 0 n))).
    + rewrite sum_map_plus, !sum_map_scale. cbn [Re Im cis fst snd]. ring.
    + apply sum_map_ext. intros m _. rewrite nth_RtoC.
      unfold Cmul, RtoC, cis, Re, Im. cbn [fst snd].
      rewrite cos_plus. ring.
Qed.

(** The transform of a real array, taken apart into modulus and argument,
    put together again and transformed back, is the array. *)
Lemma ifft_polar_fft (w : list R) :
  w <> [] ->
  exists audio_fft enhanced_ifft,
    np_fft w = Ok audio_fft /\
    np_ifft (Np.map2 (fun m p => Cscale m (cis p))
               (map Cabs audio_fft) (map Cangle audio_fft))
    = Ok enhanced_ifft /\
    map Re enhanced_ifft = w.
Proof.
  intros Hw. exists (dft (-1) (map RtoC w)).
  exists (map (Cscale (/ INR (length w)))
            (dft 1 (dft (-1) (map RtoC w)))).
  assert (Hn : (0 < length w)%nat) by (destruct w; [congruence | simpl; lia]).
  assert (Hlen : length (dft (-1) (map RtoC w)) = length w)
    by now rewrite length_dft, length_map.
  split; [now apply np_fft_ok |]. rewrite map2_polar_form. split.
  - unfold np_ifft. rewrite Hlen.
    destruct (dft (-1) (map RtoC w)); [simpl in Hlen; lia | reflexivity].
  - apply nth_ext with (d := 0) (d' := 0).
    + now rewrite !length_map, length_dft.
    + intros k Hk. rewrite !length_map, length_dft, Hlen in Hk.
      rewrite map_map.
      rewrite (nth_indep _ 0
                 (Re (Cscale (/ INR (length w)) (0, 0))))
        by now rewrite length_map, length_dft, Hlen.
      rewrite (map_nth (fun z => Re (Cscale (/ INR (length w)) z))).
      unfold Cscale at 1. cbn [Re fst].
      change (fst (nth k (dft 1 (dft (-1) (map RtoC w))) (0, 0)))
        with (Re (nth k (dft 1 (dft (-1) (map RtoC w))) (0, 0))).
      rewrite dft_inverse_real by exact Hk.
      field. apply not_0_INR. lia.
Qed.

(** ** Spectral subtraction with factor 0 *)

Lemma spectral_subtraction_zero_factor (self : SafeAudioProcessor)
    (a ns : list R) :
  noise_reduction_factor self = 0 ->
  (64 <= Np.len a)%Z -> Np.len ns = Np.len a ->
  spectral_subtraction self a (Some ns)
  = Ok (Np.map2 Rmult a (np_hanning (Np.len a))).
Proof.
  intros Hf Hlen Hns. unfold spectral_subtraction.
  destruct (Z.ltb_spec (Np.len a) 64); [lia |].
  set (w := Np.map2 Rmult a (np_hanning (Np.len a))).
  assert (Hw : length w = length a) by apply length_windowed.
  assert (Hne : w <> []).
  { intros E. rewrite E in Hw. unfold Np.len in Hlen. simpl in Hw. lia. }
  destruct (ifft_polar_fft w Hne) as (F & E & H1 & H2 & H3).
  rewrite H1. cbn [bind].
  assert (HF : length F = length w).
  { rewrite (np_fft_ok w Hne) in H1. injection H1 as <-.
    now rewrite length_dft, length_map. }
  unfold Np.broadcast2.
  replace (Np.len (map Cabs F) =? Np.len (map _ ns))%Z with true.
  2:{ symmetry. apply Z.eqb_eq. rewrite !len_map.
      unfold Np.len in *. lia. }
  cbn [bind]. rewrite Hf.
  rewrite enhanced_spectrum_zero_factor.
  - rewrite H2. cbn [bind]. now rewrite H3.
  - rewrite length_map. unfold Np.len in *. lia.
  - apply Forall_forall. intros m Hm. apply in_map_iff in Hm.
    destruct Hm as (z & <- & _). apply Cabs_nonneg.
Qed.

(** The Hann window starts at 0. *)
Lemma np_hanning_first (M : Z) :
  (2 <= M)%Z -> exists rest, np_hanning M = 0 :: rest.
Proof.
  intros HM. unfold np_hanning.
  destruct (Z.ltb_spec M 1); [lia |].
  destruct (Z.eqb_spec M 1) as [H1 | H1]; [lia |].
  destruct (Z.to_nat M) as [| n] eqn:Hn; [lia |].
  cbn [seq map]. eexists. f_equal.
  replace (PI * IZR (1 - M + 2 * Z.of_nat 0) / IZR (M - 1)) with (- PI).
  - rewrite cos_neg, cos_PI. lra.
  - replace (1 - M + 2 * Z.of_nat 0)%Z with (- (M - 1))%Z by lia.
    rewrite opp_IZR. field. apply not_0_IZR. lia.
Qed.

Lemma sum_square_repeat (x : R) (n : nat) :
  Np.sum (Np.square (repeat x n)) = INR n * (x * x).
Proof.
  induction n as [| n IH].
  - simpl. ring.
  - rewrite S_INR. cbn [repeat Np.square map Np.sum fold_right].
    fold (Np.square (repeat x n)). fold (Np.sum (Np.square (repeat x n))).
    rewrite IH. ring.
Qed.

Lemma len_repeat {A} (x : A) (n : nat) : Np.len (repeat x n) = Z.of_nat n.
Proof. unfold Np.len. now rewrite repeat_length. Qed.

(** A chunk of 64 ones comes back with its first sample at 0. *)
Lemma ones_windowed :
  exists rest,
    spectral_subtraction (set_noise_reduction_factor init 0)
      (repeat 1 64) (Some (repeat 0 64))
    = Ok (0 :: rest).
Proof.
  rewrite spectral_subtraction_zero_factor.
  - rewrite len_repeat.
    destruct (np_hanning_first (Z.of_nat 64)) as (rest & ->); [lia |].
    change (repeat 1 64) with (1 :: repeat 1 63). cbn [Np.map2].
    eexists. f_equal. f_equal. ring.
  - reflexivity.
  - rewrite len_repeat. lia.
  - now rewrite !len_repeat.
Qed.

(** C5, as stated, fails: with factor 0 a chunk of 64 ones comes back with
    its first sample at 0, a relative error far above one millionth. *)
Lemma zero_factor_is_not_identity :
  ~ (forall (self : SafeAudioProcessor) (a ns out : list R),
        noise_reduction_factor self = 0 ->
        (64 <= Np.len a)%Z -> Np.len ns = Np.len a ->
        spectral_subtraction self a (Some ns) = Ok out ->
        relative_error_within (1 / 1000000) a out).
Proof.
  intros H. destruct ones_windowed as (rest & Hout).
  specialize (H (set_noise_reduction_factor init 0) (repeat 1 64)
                (repeat 0 64) (0 :: rest) eq_refl).
  rewrite !len_repeat in H.
  specialize (H ltac:(lia) eq_refl Hout).
  unfold relative_error_within in H.
  rewrite sum_square_repeat in H.
  change (repeat 1 64) with (1 :: repeat 1 63) in H.
  cbn [Np.map2 Np.square map Np.sum fold_right] in H.
  match type of H with
  | _ + fold_right Rplus 0 (map ?f ?l) <= _ =>
      pose proof (sum_square_nonneg l) as Hnn;
      unfold Np.sum, Np.square in Hnn
  end.
  assert (H64 : INR 64 = 64) by (rewrite INR_IZR_INZ; reflexivity).
  rewrite H64 in H. lra.
Qed.

(** C5, amended. With factor 0, a chunk of at least 64 samples and a
    profile of the chunk's length, spectral subtraction returns the chunk
    multiplied sample by sample by the Hann window of its length: the
    transform, the modulus and argument, and the inverse transform cancel
    exactly over the reals, the window stays. In particular the first
    sample comes back as 0, whatever it was. *)
Theorem zero_factor_returns_windowed_chunk (self : SafeAudioProcessor)
    (a ns : list R) :
  noise_reduction_factor self = 0 ->
  (64 <= Np.len a)%Z -> Np.len ns = Np.len a ->
  let windowed := Np.map2 Rmult a (np_hanning (Np.len a)) in
  spectral_subtraction self a (Some ns) = Ok windowed
  /\ nth 0 windowed 0 = 0.
Proof.
  intros Hf Hlen Hns windowed. split.
  - now apply spectral_subtraction_zero_factor.
  - unfold windowed.
    destruct (np_hanning_first (Np.len a)) as (rest & ->); [lia |].
    destruct a as [| x a']; [reflexivity |].
    cbn [Np.map2 nth]. ring.
Qed.

Lemma len_ones : (64 <= Np.len (repeat 1 64))%Z.
Proof. rewrite len_repeat. lia. Qed.

Lemma len_zeros_ones : Np.len (repeat 0 64) = Np.len (repeat 1 64).
Proof. now rewrite !len_repeat. Qed.

(** The chunk of 64 ones. *)
Lemma zero_factor_returns_windowed_chunk_witness :
  let windowed :=
    Np.map2 Rmult (repeat 1 64) (np_hanning (Np.len (repeat 1 64))) in
  spectral_subtraction (set_noise_reduction_factor init 0)
    (repeat 1 64) (Some (repeat 0 64))
  = Ok windowed
  /\ nth 0 windowed 0 = 0.
Proof.
  exact (zero_factor_returns_windowed_chunk
           (set_noise_reduction_factor init 0) (repeat 1 64) (repeat 0 64)
           eq_refl len_ones len_zeros_ones).
Defined.

(** * Further properties

    ** The limiter, sample by sample *)

Lemma tanh_abs_le (y : R) : Rabs (tanh y) <= Rabs y.
Proof.
  destruct (Rle_dec 0 y) as [Hy | Hy].
  - destruct (tanh_le_id y Hy). rewrite !Rabs_right; lra.
  - assert (H0 : 0 <= - y) by lra.
    destruct (tanh_le_id (- y) H0) as [H1 H2]. rewrite tanh_opp in H1, H2.
    rewrite (Rabs_left y) by lra.
    unfold Rabs. destruct (Rcase_abs (tanh y)); lra.
Qed.

Lemma tanh_abs_lt_1 (y : R) : Rabs (tanh y) < 1.
Proof.
  unfold tanh, sinh, cosh.
  pose proof (exp_pos y). pose proof (exp_pos (- y)).
  replace ((exp y - exp (- y)) / 2 / ((exp y + exp (- y)) / 2))
    with ((exp y - exp (- y)) / (exp y + exp (- y))) by (field; lra).
  assert (Hd : 0 < / (exp y + exp (- y))) by (apply Rinv_0_lt_compat; lra).
  apply Rabs_def1.
  - apply Rmult_lt_reg_r with (exp y + exp (- y)); [lra |].
    unfold Rdiv. rewrite Rmult_assoc, Rinv_l by lra. lra.
  - apply Rmult_lt_reg_r with (exp y + exp (- y)); [lra |].
    unfold Rdiv. rewrite Rmult_assoc, Rinv_l by lra. lra.
Qed.

Lemma db_to_linear_reduction (r : R) : 0 < r -> 0 < db_to_linear (- r) < 1.
Proof.
  intros H. unfold db_to_linear. apply Rpower_10_neg. lra.
Qed.

Lemma soft_knee_sample (x g : R) :
  0 < g < 1 ->
  Rabs (tanh (x * g * 0.8) * 0.8) <= 0.64 * g * Rabs x /\
  Rabs (tanh (x * g * 0.8) * 0.8) < 0.8.
Proof.
  intros Hg. rewrite Rabs_mult, (Rabs_right 0.8) by lra. split.
  - pose proof (tanh_abs_le (x * g * 0.8)) as H.
    rewrite !Rabs_mult, (Rabs_right 0.8), (Rabs_right g) in H by lra.
    lra.
  - pose proof (tanh_abs_lt_1 (x * g * 0.8)). lra.
Qed.

Lemma Forall2_abs_refl (a : list R) :
  Forall2 (fun x y => Rabs y <= Rabs x) a a.
Proof. induction a; constructor; auto; lra. Qed.

Lemma Forall2_abs_soft_knee (g : R) (a : list R) :
  0 < g < 1 ->
  Forall2 (fun x y => Rabs y <= Rabs x) a
    (map (fun x => tanh (x * 0.8) * 0.8) (map (fun x => x * g) a)).
Proof.
  intros Hg. induction a as [| x a IH]; simpl; constructor; auto.
  destruct (soft_knee_sample x g Hg) as [H _].
  pose proof (Rabs_pos x). nra.
Qed.

(** X1. The limiter returns as many samples as it is given and never
    raises the magnitude of a sample, whether it acts or not. *)
Theorem limiter_never_amplifies (M : R) (a : list R) :
  length (fst (adaptive_volume_control M a)) = length a /\
  Forall2 (fun x y => Rabs y <= Rabs x) a (fst (adaptive_volume_control M a)).
Proof.
  destruct (calculate_db_level a) as [| d] eqn:Hd.
  - rewrite adaptive_volume_control_below by (rewrite Hd; simpl; tauto).
    split; [reflexivity | apply Forall2_abs_refl].
  - destruct (Rlt_dec M d) as [HM | HM].
    + rewrite (adaptive_volume_control_above M a d Hd HM). simpl.
      rewrite !length_map. split; [reflexivity |].
      apply Forall2_abs_soft_knee.
      apply db_to_linear_reduction. lra.
    + rewrite adaptive_volume_control_below by (rewrite Hd; simpl; exact HM).
      split; [reflexivity | apply Forall2_abs_refl].
Qed.

Lemma trunc_clip_id (x : R) :
  -32768 <= x <= 32767 ->
  Np.astype_int16 (Np.clip (-32768) 32767 x) = Np.trunc x.
Proof.
  intros H. destruct (astype_int16_in_range x H) as (H1 & _ & H3).
  congruence.
Qed.

Lemma trunc_bounds_open (n : Z) (x : R) :
  (0 <= n)%Z -> - IZR n - 1 < x < IZR n + 1 ->
  (- n <= Np.trunc x <= n)%Z.
Proof.
  intros Hn Hx. unfold Np.trunc.
  destruct (Rle_dec 0 x) as [H | H].
  - destruct (base_Int_part x) as [H1 H2]. split.
    + apply Z.le_trans with 0%Z; [lia |].
      apply Z.lt_succ_r. apply lt_IZR. rewrite succ_IZR. lra.
    + apply Z.lt_succ_r. apply lt_IZR. rewrite succ_IZR. lra.
  - destruct (base_Int_part (- x)) as [H1 H2].
    assert (Int_part (- x) <= n)%Z
      by (apply Z.lt_succ_r; apply lt_IZR; rewrite succ_IZR; lra).
    assert (0 <= Int_part (- x))%Z
      by (apply Z.lt_succ_r; apply lt_IZR; rewrite succ_IZR; lra).
    lia.
Qed.

(** X2. When the limiter acts, every sample it returns is below 0.8 in
    magnitude, so the clamp of the conversion to int16 that follows leaves
    every sample as it is, and the int16 samples stay within 26214 of
    zero. *)
Theorem limited_chunk_clear_of_clamp (M : R) (a : list R) :
  level_gt (calculate_db_level a) M ->
  let out := fst (adaptive_volume_control M a) in
  Forall (fun y => Rabs y < 0.8) out /\
  to_int16 out = map (fun y => Np.trunc (y * 32768)) out /\
  Forall (fun z => (-26214 <= z <= 26214)%Z) (to_int16 out).
Proof.
  intros Hgt out.
  destruct (calculate_db_level a) as [| d] eqn:Hd; [contradiction |].
  simpl in Hgt.
  assert (Hout : Forall (fun y => Rabs y < 0.8) out).
  { unfold out. rewrite (adaptive_volume_control_above M a d Hd Hgt). simpl.
    pose proof (db_to_linear_reduction (d - M) ltac:(lra)) as Hg.
    rewrite map_map. apply Forall_forall. intros y Hy.
    apply in_map_iff in Hy. destruct Hy as (x & <- & _).
    apply (soft_knee_sample x _ Hg). }
  assert (Hrange : forall y, In y out -> -26214.4 <= y * 32768 <= 26214.4).
  { rewrite Forall_forall in Hout. intros y Hy.
    specialize (Hout y Hy). apply Rabs_def2 in Hout. lra. }
  split; [exact Hout |]. split.
  - unfold to_int16. apply map_ext_in. intros y Hy.
    apply trunc_clip_id. specialize (Hrange y Hy). lra.
  - unfold to_int16. apply Forall_forall. intros z Hz.
    apply in_map_iff in Hz. destruct Hz as (y & <- & Hy).
    specialize (Hrange y Hy).
    rewrite trunc_clip_id by lra.
    apply (trunc_bounds_open 26214); [lia |]. lra.
Qed.

(** The full-scale one-sample chunk, at 94 dB, under the 70 dB ceiling. *)
Lemma limited_chunk_clear_of_clamp_witness :
  let out := fst (adaptive_volume_control (MAX_DB init) [1]) in
  Forall (fun y => Rabs y < 0.8) out /\
  to_int16 out = map (fun y => Np.trunc (y * 32768)) out /\
  Forall (fun z => (-26214 <= z <= 26214)%Z) (to_int16 out).
Proof.
  exact (limited_chunk_clear_of_clamp (MAX_DB init) [1]
           full_scale_above_ceiling).
Defined.

(** ** Linear amplitude and dB *)

Lemma Rpower_10_log10 (x : R) : 0 < x -> Rpower 10 (Np.log10 x) = x.
Proof.
  intros H. unfold Rpower, Np.log10. pose proof ln10_pos.
  replace (ln x / ln 10 * ln 10) with (ln x) by (field; lra).
  now apply exp_ln.
Qed.

(** X3. On a positive amplitude [linear_to_db] is finite, and converting
    its result back with [db_to_linear] gives the amplitude plus 1e-10,
    not the amplitude: the two conversions are not inverse to each other. *)
Theorem linear_db_round_trip (x : R) :
  0 < x ->
  exists d, linear_to_db x = Fin d /\
            db_to_linear d = x + 1 / 10000000000 /\
            db_to_linear d <> x.
Proof.
  intros Hx. unfold linear_to_db.
  destruct (Rle_dec x 0) as [H | H]; [lra |].
  eexists. split; [reflexivity |].
  assert (Hd : db_to_linear (20 * Np.log10 (Rabs x + 1 / 10000000000))
               = x + 1 / 10000000000).
  { unfold db_to_linear.
    replace (20 * Np.log10 (Rabs x + 1 / 10000000000) / 20)
      with (Np.log10 (Rabs x + 1 / 10000000000)) by field.
    rewrite Rabs_right by lra. apply Rpower_10_log10. lra. }
  rewrite Hd. split; [reflexivity | lra].
Qed.

(** Amplitude 1. *)
Lemma linear_db_round_trip_witness :
  exists d, linear_to_db 1 = Fin d /\
            db_to_linear d = 1 + 1 / 10000000000 /\
            db_to_linear d <> 1.
Proof. exact (linear_db_round_trip 1 Rlt_0_1). Defined.

(** ** The limiter of simple_pc_to_headphone.py *)

(** The level [apply_safety_limiting] reports is the one it measures on
    the chunk it is given. *)
Lemma simple_limiting_db_level (self : SimplePC.SimpleAudioProcessor)
    (a : list R) :
  snd (snd (SimplePC.apply_safety_limiting self a))
  = if Rlt_dec 0 (sqrt (Np.mean (Np.square a)))
    then Fin (20 * Np.log10 (sqrt (Np.mean (Np.square a))) + 94)
    else NegInf.
Proof.
  unfold SimplePC.apply_safety_limiting.
  destruct (Rlt_dec 0 _); [| reflexivity].
  cbn [SimplePC.MAX_DB]. destruct (Rlt_dec _ _); reflexivity.
Qed.

Lemma rms_scale (g : R) (a : list R) :
  0 <= g ->
  sqrt (Np.mean (Np.square (map (fun x => x * g) a)))
  = g * sqrt (Np.mean (Np.square a)).
Proof.
  intros Hg. unfold Np.mean. rewrite !len_square, len_map.
  rewrite sum_square_scale.
  replace (g * g * Np.sum (Np.square a) / IZR (Np.len a))
    with (g * g * (Np.sum (Np.square a) / IZR (Np.len a)))
    by (unfold Rdiv; ring).
  destruct (Rle_dec 0 (Np.sum (Np.square a) / IZR (Np.len a))) as [H | H].
  - rewrite sqrt_mult by nra. now rewrite sqrt_square.
  - assert (Hneg : Np.sum (Np.square a) / IZR (Np.len a) < 0) by lra.
    rewrite (sqrt_neg_0 (Np.sum (Np.square a) / IZR (Np.len a))) by lra.
    rewrite sqrt_neg_0 by nra. ring.
Qed.

Lemma Forall2_abs_gain (g : R) (a : list R) :
  0 < g <= 1 ->
  Forall2 (fun x y => Rabs y <= Rabs x) a (map (fun x => x * g) a).
Proof.
  intros Hg. induction a as [| x a IH]; cbn [map]; constructor; auto.
  rewrite Rabs_mult, (Rabs_pos_eq g) by lra.
  pose proof (Rabs_pos x). nra.
Qed.

(** X4. [apply_safety_limiting] never amplifies: the chunk it returns is
    the chunk it was given times one gain in (0, 1], the same for every
    sample, so that no sample grows; and the level it reports when given
    the returned chunk is at most the level it reported the first time. *)
Theorem simple_limiter_never_amplifies (self : SimplePC.SimpleAudioProcessor)
    (a : list R) :
  let self' := fst (SimplePC.apply_safety_limiting self a) in
  let processed := fst (snd (SimplePC.apply_safety_limiting self a)) in
  (exists g, 0 < g <= 1 /\ processed = map (fun x => x * g) a) /\
  Forall2 (fun x y => Rabs y <= Rabs x) a processed /\
  level_le (snd (snd (SimplePC.apply_safety_limiting self' processed)))
           (snd (snd (SimplePC.apply_safety_limiting self a))).
Proof.
  intros self' processed.
  destruct (simple_limiter_gain self a) as (g & Hg & Hp).
  fold processed in Hp.
  split; [now exists g |].
  split; [rewrite Hp; now apply Forall2_abs_gain |].
  rewrite !simple_limiting_db_level, Hp, rms_scale by lra.
  set (rms := sqrt (Np.mean (Np.square a))).
  destruct (Rlt_dec 0 (g * rms)) as [H1 | H1]; [| exact I].
  destruct (Rlt_dec 0 rms) as [H2 | H2]; [| nra].
  simpl. assert (Np.log10 (g * rms) <= Np.log10 rms)
    by (apply log10_le; nra).
  lra.
Qed.

(** ** The history of levels *)

(** The entry a level adds to the history. *)
Lemma simple_limiting_state (self : SimplePC.SimpleAudioProcessor)
    (a : list R) :
  fst (SimplePC.apply_safety_limiting self a)
  = match snd (snd (SimplePC.apply_safety_limiting self a)) with
    | Fin d =>
        {| SimplePC.MAX_DB := SimplePC.MAX_DB self;
           SimplePC.db_history :=
             SimplePC.deque_append (SimplePC.db_history self) d;
           SimplePC.max_db_recorded :=
             if Rlt_dec (SimplePC.max_db_recorded self) d then d
             else SimplePC.max_db_recorded self |}
    | NegInf =>
        {| SimplePC.MAX_DB := SimplePC.MAX_DB self;
           SimplePC.db_history :=
             SimplePC.deque_append (SimplePC.db_history self) 0;
           SimplePC.max_db_recorded := SimplePC.max_db_recorded self |}
    end.
Proof.
  unfold SimplePC.apply_safety_limiting.
  destruct (Rlt_dec 0 _); cbn [SimplePC.MAX_DB].
  - destruct (Rlt_dec _ _); reflexivity.
  - reflexivity.
Qed.

Lemma loop_turn_state (self : SimplePC.SimpleAudioProcessor)
    (input_data : list Z) :
  fst (SimplePC.loop_turn self input_data)
  = fst (SimplePC.apply_safety_limiting self
           (map (fun z => IZR z / 32768) input_data)).
Proof.
  unfold SimplePC.loop_turn.
  destruct (SimplePC.apply_safety_limiting self _) as [s' [pa d]].
  reflexivity.
Qed.

Lemma In_lastn {A} (n : nat) (l : list A) (x : A) :
  In x (lastn n l) -> In x l.
Proof.
  unfold lastn. intros H.
  rewrite <- (firstn_skipn (length l - n) l). apply in_or_app. now right.
Qed.

Lemma lastn_snoc_full {A} (n : nat) (l : list A) (x : A) :
  length l = n -> (0 < n)%nat -> lastn n (l ++ [x]) = tl (l ++ [x]).
Proof.
  intros Hl Hn. unfold lastn. rewrite length_app. simpl.
  replace (length l + 1 - n)%nat with 1%nat by lia.
  destruct (l ++ [x]); reflexivity.
Qed.

Lemma simple_turn_invariant (s : SimplePC.SimpleAudioProcessor)
    (input_data : list Z) (k : Z) :
  maxlen (SimplePC.db_history s) = 200%Z ->
  Np.len (items (SimplePC.db_history s)) = k ->
  0 <= SimplePC.max_db_recorded s ->
  Forall (fun x => x <= SimplePC.max_db_recorded s)
         (items (SimplePC.db_history s)) ->
  let s' := fst (SimplePC.loop_turn s input_data) in
  maxlen (SimplePC.db_history s') = 200%Z /\
  Np.len (items (SimplePC.db_history s')) = Z.min 200 (k + 1) /\
  SimplePC.max_db_recorded s <= SimplePC.max_db_recorded s' /\
  Forall (fun x => x <= SimplePC.max_db_recorded s')
         (items (SimplePC.db_history s')) /\
  SimplePC.MAX_DB s' = SimplePC.MAX_DB s.
Proof.
  intros Hm Hk H0 Hall s'. unfold s'.
  rewrite loop_turn_state, simple_limiting_state.
  set (lv := snd (snd (SimplePC.apply_safety_limiting s _))).
  assert (Hlen : forall x,
    Np.len (items (SimplePC.deque_append (SimplePC.db_history s) x))
    = Z.min 200 (k + 1)).
  { intros x. unfold SimplePC.deque_append.
    rewrite len_deque_extend by lia. rewrite Hm, Hk.
    unfold Np.len. simpl. lia. }
  assert (Hin : forall x m,
    x <= m -> SimplePC.max_db_recorded s <= m ->
    Forall (fun y => y <= m)
      (items (SimplePC.deque_append (SimplePC.db_history s) x))).
  { intros x m Hx Hmx. apply Forall_forall. intros y Hy.
    unfold SimplePC.deque_append, deque_extend in Hy. cbn [items] in Hy.
    apply In_lastn in Hy. apply in_app_or in Hy. destruct Hy as [Hy | Hy].
    - rewrite Forall_forall in Hall. specialize (Hall y Hy). lra.
    - destruct Hy as [<- | []]. exact Hx. }
  destruct lv as [| d]; cbn [SimplePC.db_history SimplePC.max_db_recorded
                             SimplePC.MAX_DB].
  - repeat split; auto; try lra. apply Hin; lra.
  - destruct (Rlt_dec (SimplePC.max_db_recorded s) d).
    + repeat split; auto; try lra. apply Hin; lra.
    + repeat split; auto; try lra. apply Hin; lra.
Qed.

Lemma simple_loop_snoc (s : SimplePC.SimpleAudioProcessor)
    (stream : list (list Z)) (data : list Z) :
  simple_loop s (stream ++ [data])
  = fst (SimplePC.loop_turn (simple_loop s stream) data).
Proof. unfold simple_loop. now rewrite fold_left_app. Qed.

Lemma simple_loop_invariant (stream : list (list Z)) :
  let s := simple_loop SimplePC.init stream in
  maxlen (SimplePC.db_history s) = 200%Z /\
  Np.len (items (SimplePC.db_history s)) = Z.min 200 (Np.len stream) /\
  0 <= SimplePC.max_db_recorded s /\
  Forall (fun x => x <= SimplePC.max_db_recorded s)
         (items (SimplePC.db_history s)) /\
  SimplePC.MAX_DB s = 70.
Proof.
  induction stream as [| data stream IH] using rev_ind.
  - simpl. repeat split; auto; try lra.
  - rewrite simple_loop_snoc. cbv zeta in IH.
    destruct IH as (Hm & Hk & H0 & Hall & HM).
    destruct (simple_turn_invariant _ data _ Hm Hk H0 Hall)
      as (Hm' & Hk' & Hmono & Hall' & HM').
    cbv zeta. rewrite Hk'. unfold Np.len in *. rewrite length_app. simpl.
    repeat split; auto; try lra; try lia.
Qed.

(** X5. Over any stream of chunks, the history of levels of
    simple_pc_to_headphone.py holds the last 200 entries at most: as many
    entries as chunks were processed, up to 200. The maximum recorded is
    never negative and no entry of the history is above it, so the plot's
    upper limit max(80, max_db_recorded + 10) is above every point drawn. *)
Theorem simple_history_bounded (stream : list (list Z)) :
  let s := simple_loop SimplePC.init stream in
  Np.len (items (SimplePC.db_history s)) = Z.min 200 (Np.len stream) /\
  0 <= SimplePC.max_db_recorded s /\
  Forall (fun x => x < Rmax 80 (SimplePC.max_db_recorded s + 10))
         (items (SimplePC.db_history s)).
Proof.
  intros s. destruct (simple_loop_invariant stream) as (_ & Hk & H0 & Hall & _).
  fold s in Hk, H0, Hall. repeat split; auto.
  eapply Forall_impl; [| exact Hall]. intros x Hx. cbv beta in Hx.
  pose proof (Rmax_r 80 (SimplePC.max_db_recorded s + 10)). lra.
Qed.

(** ** ultimate_audio_visualizer.py against simple_pc_to_headphone.py *)

Lemma ultimate_limiting_agrees (s : SimplePC.SimpleAudioProcessor)
    (a : list R) :
  SimplePC.MAX_DB s = 70 ->
  Ultimate.apply_safety_limiting a
  = snd (SimplePC.apply_safety_limiting s a).
Proof.
  intros HM. unfold Ultimate.apply_safety_limiting,
    SimplePC.apply_safety_limiting.
  destruct (Rlt_dec 0 _); cbn [SimplePC.MAX_DB snd]; rewrite ?HM.
  - destruct (Rlt_dec 70 _); reflexivity.
  - reflexivity.
Qed.

Lemma ultimate_turn_agrees (u : Ultimate.monitor)
    (s : SimplePC.SimpleAudioProcessor) (data : list Z) :
  SimplePC.MAX_DB s = 70 ->
  maxlen (SimplePC.db_history s) = 200%Z ->
  (Np.len (items (SimplePC.db_history s)) <= 200)%Z ->
  Ultimate.db_history u = items (SimplePC.db_history s) ->
  Ultimate.max_db_recorded u = SimplePC.max_db_recorded s ->
  snd (Ultimate.animate u data) = snd (SimplePC.loop_turn s data) /\
  Ultimate.db_history (fst (Ultimate.animate u data))
  = items (SimplePC.db_history (fst (SimplePC.loop_turn s data))) /\
  Ultimate.max_db_recorded (fst (Ultimate.animate u data))
  = SimplePC.max_db_recorded (fst (SimplePC.loop_turn s data)).
Proof.
  intros HM Hm Hlen Hh Hx.
  assert (Hhist : forall x,
    (if (200 <? Np.len (Ultimate.db_history u ++ [x]))%Z
     then tl (Ultimate.db_history u ++ [x])
     else Ultimate.db_history u ++ [x])
    = items (SimplePC.deque_append (SimplePC.db_history s) x)).
  { intros x. unfold SimplePC.deque_append, deque_extend. cbn [items].
    rewrite Hm, Hh. unfold Np.len in *. rewrite length_app. simpl.
    destruct (Z.ltb_spec 200 (Z.of_nat (length (items (SimplePC.db_history s)) + 1))).
    - symmetry. apply lastn_snoc_full; lia.
    - symmetry. apply lastn_all. rewrite length_app. simpl. lia. }
  rewrite loop_turn_state, simple_limiting_state.
  unfold Ultimate.animate, SimplePC.loop_turn.
  rewrite (ultimate_limiting_agrees s _ HM).
  destruct (SimplePC.apply_safety_limiting s _) as [s1 [pa lv]].
  cbn [snd fst].
  destruct lv as [| d]; cbn [Ultimate.db_history Ultimate.max_db_recorded].
  - specialize (Hhist 0).
    destruct (200 <? _)%Z; cbn; rewrite Hx; auto.
  - specialize (Hhist d).
    destruct (200 <? _)%Z; cbn; rewrite Hx; auto.
Qed.

Lemma ultimate_frames_snoc (u : Ultimate.monitor) (stream : list (list Z))
    (data : list Z) :
  Ultimate.frames u (stream ++ [data])
  = fst (Ultimate.animate (Ultimate.frames u stream) data).
Proof. unfold Ultimate.frames. now rewrite fold_left_app. Qed.

(** X6. Fed the same stream of int16 buffers, the monitor of
    ultimate_audio_visualizer.py (a list, popped at the front beyond 200
    entries) and the loop of simple_pc_to_headphone.py (a deque of maximum
    length 200) hold the same history and the same maximum, and write the
    same int16 samples for the next buffer. *)
Theorem ultimate_agrees_with_simple (stream : list (list Z))
    (data : list Z) :
  let u := Ultimate.frames Ultimate.init stream in
  let s := simple_loop SimplePC.init stream in
  Ultimate.db_history u = items (SimplePC.db_history s) /\
  Ultimate.max_db_recorded u = SimplePC.max_db_recorded s /\
  snd (Ultimate.animate u data) = snd (SimplePC.loop_turn s data).
Proof.
  assert (H : Ultimate.db_history (Ultimate.frames Ultimate.init stream)
              = items (SimplePC.db_history (simple_loop SimplePC.init stream))
              /\ Ultimate.max_db_recorded (Ultimate.frames Ultimate.init stream)
                 = SimplePC.max_db_recorded (simple_loop SimplePC.init stream)).
  { induction stream as [| d stream IH] using rev_ind.
    - split; reflexivity.
    - destruct IH as [Hh Hx].
      destruct (simple_loop_invariant stream) as (Hm & Hk & _ & _ & HM).
      rewrite ultimate_frames_snoc, simple_loop_snoc.
      apply (ultimate_turn_agrees _ _ d HM Hm); auto.
      rewrite Hk. lia. }
  destruct H as [Hh Hx]. intros u s.
  destruct (simple_loop_invariant stream) as (Hm & Hk & _ & _ & HM).
  split; [exact Hh |]. split; [exact Hx |].
  apply (ultimate_turn_agrees _ _ data HM Hm); auto.
  rewrite Hk. lia.
Qed.

(** ** Chunk lengths through the pipeline *)

Lemma map2_length_same {A B D} (f : A -> B -> D) (a : list A) (b : list B) :
  length b = length a -> length (Np.map2 f a b) = length a.
Proof. intros H. rewrite length_map2. lia. Qed.

(** With a profile of the chunk's length spectral subtraction returns a
    chunk, of that length. *)
Lemma spectral_subtraction_same_length (self : SafeAudioProcessor)
    (a ns : list R) :
  Np.len ns = Np.len a ->
  exists out, spectral_subtraction self a (Some ns) = Ok out /\
              length out = length a.
Proof.
  intros Hns. unfold spectral_subtraction.
  destruct (Z.ltb_spec (Np.len a) 64) as [Hlt | Hge]; [now exists a |].
  set (w := Np.map2 Rmult a (np_hanning (Np.len a))).
  assert (Hw : length w = length a) by apply length_windowed.
  assert (Hne : w <> []).
  { intros E. rewrite E in Hw. unfold Np.len in Hge. simpl in Hw. lia. }
  rewrite (np_fft_ok w Hne). cbn [bind].
  set (F := dft (-1) (map RtoC w)).
  assert (HF : length F = length a)
    by (unfold F; now rewrite length_dft, length_map).
  assert (Hn : length ns = length a) by (unfold Np.len in Hns; lia).
  unfold Np.broadcast2.
  replace (Np.len (map Cabs F) =? Np.len (map _ ns))%Z with true.
  2:{ symmetry. apply Z.eqb_eq. rewrite !len_map. unfold Np.len. lia. }
  cbn [bind].
  set (E := Np.map2 (fun m p => Cscale m (cis p)) _ _).
  assert (HE : length E = length a).
  { unfold E. rewrite !length_map2, !length_map. lia. }
  unfold np_ifft. destruct E as [| e E'] eqn:HeqE.
  - simpl in HE. unfold Np.len in Hge. lia.
  - cbn [bind]. eexists. split; [reflexivity |].
    now rewrite !length_map, length_dft.
Qed.

Section Lengths.

Variable K : Z -> R -> list R -> list R.
Hypothesis K_length : forall order Wn x, length (K order Wn x) = length x.

Lemma low_pass_filter_length (s : SafeAudioProcessor) (a out : list R) :
  low_pass_filter K s a 8000 = Ok out -> length out = length a.
Proof.
  unfold low_pass_filter. destruct (butter_accepts _); [| discriminate].
  destruct (_ <=? _)%Z; [discriminate |]. intros [= <-]. apply K_length.
Qed.

Lemma limiter_length (M : R) (a : list R) :
  length (fst (adaptive_volume_control M a)) = length a.
Proof.
  unfold adaptive_volume_control.
  destruct (calculate_db_level a) as [| d]; [reflexivity |].
  destruct (Rlt_dec M d); [| reflexivity].
  simpl. now rewrite !length_map.
Qed.

Lemma noise_reduction_length (s s' : SafeAudioProcessor) (a out : list R) :
  noise_reduction K s a = (s', Ok out) -> length out = length a.
Proof.
  unfold noise_reduction.
  destruct (noise_learned s && (0 <? Np.len a)%Z); [| now intros [= _ <-]].
  destruct (noise_profile s) as [p |]; [| discriminate].
  destruct (Z.eqb_spec (Np.len a) (Np.len p)) as [Heq | Hne].
  - destruct (spectral_subtraction_same_length s a p (eq_sym Heq))
      as (a1 & -> & H1).
    destruct (low_pass_filter K s a1 8000) as [a2 |] eqn:Hf; [| discriminate].
    apply low_pass_filter_length in Hf.
    pose proof (limiter_length (MAX_DB s) a2) as Hl.
    destruct (adaptive_volume_control (MAX_DB s) a2) as [a3 d].
    intros [= _ <-]. simpl in Hl. congruence.
  - destruct (low_pass_filter K s a 8000) as [a2 |] eqn:Hf; [| discriminate].
    apply low_pass_filter_length in Hf.
    pose proof (limiter_length (MAX_DB s) a2) as Hl.
    destruct (adaptive_volume_control (MAX_DB s) a2) as [a3 d].
    intros [= _ <-]. simpl in Hl. congruence.
Qed.

Lemma process_length (s s' : SafeAudioProcessor) (c out : list Z) :
  process_audio_chunk K s c = (s', Ok out) -> length out = length c.
Proof.
  destruct (learning_noise s) eqn:Hl.
  - rewrite (process_learning K s c Hl). cbv zeta.
    destruct (_ <=? _)%Z.
    + destruct (np_fft _); [now intros [= _ <-] | discriminate].
    + now intros [= _ <-].
  - destruct (processing_enabled s) eqn:He.
    + rewrite (process_active K s c Hl He).
      destruct (noise_reduction K (metered s c) (to_float c))
        as [s1 [a |]] eqn:Hnr; [| discriminate].
      intros [= _ <-]. apply noise_reduction_length in Hnr.
      unfold to_int16, to_float in *. rewrite length_map in *. lia.
    + rewrite (process_bypassed K s c Hl He). now intros [= _ <-].
Qed.

End Lengths.

(** X7. Whenever [process_audio_chunk] returns a chunk, in any state, the
    chunk has as many samples as the one it was given, provided scipy's
    [filtfilt] returns as many samples as it is given; spectral
    subtraction, the limiter and the conversions keep the length. *)
Theorem process_preserves_length (K : Z -> R -> list R -> list R)
    (s s' : SafeAudioProcessor) (c out : list Z) :
  (forall order Wn x, length (K order Wn x) = length x) ->
  process_audio_chunk K s c = (s', Ok out) ->
  Np.len out = Np.len c.
Proof.
  intros HK H. unfold Np.len. f_equal.
  exact (process_length K HK s s' c out H).
Qed.

Lemma passthrough_length (order : Z) (Wn : R) (x : list R) :
  length (passthrough_kernel order Wn x) = length x.
Proof. reflexivity. Qed.

(** A chunk of 16 zeros through the active processor. *)
Lemma process_preserves_length_witness :
  let K := passthrough_kernel in
  let s := run K init learning_stream in
  let c := repeat 0%Z 16 in
  Np.len
    (to_int16
       (fst (adaptive_volume_control 70
               (K 4%Z (8000 / (IZR 44100 / 2)) (to_float c)))))
  = Np.len c.
Proof.
  exact (process_preserves_length passthrough_kernel
           (run passthrough_kernel init learning_stream) _
           (repeat 0%Z 16) _ passthrough_length
           (active_example_output passthrough_kernel)).
Defined.

(** X8. While a fresh processor has received fewer samples than the
    learning window holds, the next chunk is returned as it came, without
    an exception, however loud it is and also when it completes the
    window: nothing is filtered or limited during learning. *)
Theorem learning_passes_audio_through (K : Z -> R -> list R -> list R)
    (s0 : SafeAudioProcessor) (cs : list (list Z)) (c : list Z) :
  fresh s0 -> (0 < learning_window s0)%Z ->
  (total_samples cs < learning_window s0)%Z ->
  snd (process_audio_chunk K (run K s0 cs) c) = Ok c.
Proof.
  intros Hf HW Hlt.
  destruct (run_from_learning K s0 0 cs (fresh_learning s0 Hf HW) HW)
    as (Hs & _ & Hl & _).
  rewrite Z.add_0_l in Hl. specialize (Hl Hlt).
  pose proof (same_settings_window _ _ Hs) as HWeq.
  destruct (Z.lt_ge_cases (total_samples cs + Np.len c)
              (learning_window (run K s0 cs))) as [H | H].
  - now destruct (step_learning_stay K _ _ c Hl H) as (_ & _ & ->).
  - destruct (step_learning_leave K _ _ c Hl) as (_ & _ & ->); auto. lia.
Qed.

Lemma no_samples_yet : (total_samples [] < learning_window init)%Z.
Proof. rewrite learning_window_init. simpl. lia. Qed.

(** A full-scale chunk as the first chunk. *)
Lemma learning_passes_audio_through_witness :
  snd (process_audio_chunk passthrough_kernel
         (run passthrough_kernel init []) [32767%Z; (-32768)%Z])
  = Ok [32767%Z; (-32768)%Z].
Proof.
  exact (learning_passes_audio_through passthrough_kernel init []
           [32767%Z; (-32768)%Z] init_fresh init_window_pos no_samples_yet).
Defined.

(** ** The callback and the buffers of the visualization *)

Lemma step_same_settings (K : Z -> R -> list R -> list R)
    (s : SafeAudioProcessor) (c : list Z) :
  same_settings s (step K s c).
Proof.
  unfold step. destruct (learning_noise s) eqn:Hl.
  - rewrite (process_learning K s c Hl). cbv zeta.
    destruct (_ <=? _)%Z.
    + destruct (np_fft _); unfold same_settings; cbn; tauto.
    + unfold same_settings; cbn; tauto.
  - destruct (processing_enabled s) eqn:He.
    + rewrite (process_active K s c Hl He).
      pose proof (noise_reduction_settings K (metered s c) (to_float c)) as H.
      destruct (noise_reduction K (metered s c) (to_float c)) as [s' [a | e]];
        cbn in H |- *; destruct H as (Hs & _); exact Hs.
    + rewrite (process_bypassed K s c Hl He). unfold same_settings; cbn; tauto.
Qed.

Lemma length_int_deque_extend (d : int_deque) (xs : list Z) :
  length (int_items (int_deque_extend d xs))
  = Nat.min (Z.to_nat (int_maxlen d)) (length (int_items d) + length xs).
Proof.
  unfold int_deque_extend. cbn [int_items].
  now rewrite length_lastn, length_app.
Qed.

Lemma length_py_slice_from_neg {A} (k : Z) (l : list A) :
  (0 < k)%Z ->
  length (py_slice_from (- k) l) = Nat.min (Z.to_nat k) (length l).
Proof.
  intros Hk. unfold py_slice_from.
  destruct (Z.ltb_spec (- k) 0); [| lia].
  rewrite length_lastn. f_equal. f_equal. lia.
Qed.

Lemma callbacks_snoc (K : Z -> R -> list R -> list R) (s : Session)
    (stream : list (list Z)) (d : list Z) :
  callbacks K s (stream ++ [d])
  = fst (audio_callback K (callbacks K s stream) d).
Proof. unfold callbacks. now rewrite fold_left_app. Qed.

Lemma callbacks_invariant (K : Z -> R -> list R -> list R)
    (stream : list (list Z)) :
  (forall order Wn x, length (K order Wn x) = length x) ->
  let s := callbacks K new_session stream in
  same_settings init (processor s) /\
  int_maxlen (input_buffer s) = 220500%Z /\
  int_maxlen (output_buffer s) = 220500%Z /\
  length (int_items (input_buffer s))
  = length (int_items (output_buffer s)) /\
  (Np.len (int_items (input_buffer s)) <= 220500)%Z.
Proof.
  intros HK. induction stream as [| d stream IH] using rev_ind.
  - unfold callbacks, new_session. cbn [fold_left processor input_buffer
      output_buffer int_maxlen int_items].
    split; [apply same_settings_refl |].
    repeat split; auto. unfold Np.len. simpl. lia.
  - rewrite callbacks_snoc. cbv zeta in IH |- *.
    destruct IH as (Hs & Hi & Ho & Hlen & Hle).
    set (s := callbacks K new_session stream) in *.
    unfold audio_callback.
    pose proof (step_same_settings K (processor s) d) as Hstep.
    unfold step in Hstep.
    destruct (process_audio_chunk K (processor s) d) as [p [out | e]] eqn:Hp;
      cbn [fst processor input_buffer output_buffer] in *.
    + apply (process_length K HK) in Hp.
      unfold Np.len in *.
      rewrite !length_int_deque_extend, Hi, Ho, Hlen, Hp.
      cbn [int_deque_extend int_maxlen].
      split; [eauto using same_settings_trans |].
      repeat split; auto. lia.
    + split; [eauto using same_settings_trans |].
      repeat split; auto.
Qed.

Lemma view_length (chunk : Z) (l : list Z) :
  (0 < chunk)%Z ->
  length (match l with
          | [] => []
          | x :: l' => py_slice_from (- chunk * 4) (x :: l')
          end)
  = Nat.min (Z.to_nat (chunk * 4)) (length l).
Proof.
  intros H. destruct l as [| x l]; [simpl; lia |].
  replace (- chunk * 4)%Z with (- (chunk * 4))%Z by lia.
  apply length_py_slice_from_neg. lia.
Qed.

(** X9. After any sequence of callbacks, the visualization's input and
    output buffers hold the same number of samples, at most five seconds
    of them, and [get_visualization_data] returns two arrays of one
    length, at most [4 * CHUNK] samples, provided scipy's [filtfilt]
    returns as many samples as it is given. A callback that raises leaves
    both buffers as they were. *)
Theorem callbacks_keep_views_aligned (K : Z -> R -> list R -> list R)
    (stream : list (list Z)) :
  (forall order Wn x, length (K order Wn x) = length x) ->
  let s := callbacks K new_session stream in
  Np.len (int_items (input_buffer s)) = Np.len (int_items (output_buffer s))
  /\ (Np.len (int_items (input_buffer s)) <= 5 * RATE init)%Z
  /\ Np.len (fst (get_visualization_data s))
     = Np.len (snd (get_visualization_data s))
  /\ (Np.len (fst (get_visualization_data s)) <= 4 * CHUNK init)%Z
  /\ forall in_data e,
       snd (audio_callback K s in_data) = Raise e ->
       input_buffer (fst (audio_callback K s in_data)) = input_buffer s /\
       output_buffer (fst (audio_callback K s in_data)) = output_buffer s.
Proof.
  intros HK s.
  destruct (callbacks_invariant K stream HK) as (Hs & Hi & Ho & Hlen & Hle).
  fold s in Hs, Hi, Ho, Hlen, Hle.
  assert (HC : CHUNK (processor s) = 1024%Z) by apply Hs.
  change (RATE init) with 44100%Z. change (CHUNK init) with 1024%Z.
  split; [unfold Np.len; now rewrite Hlen |].
  split; [lia |].
  unfold get_visualization_data. cbn [fst snd]. rewrite HC.
  unfold Np.len. rewrite !view_length by lia. rewrite Hlen.
  split; [reflexivity |]. split; [lia |].
  intros in_data e. unfold audio_callback.
  destruct (process_audio_chunk K (processor s) in_data) as [p [out | e']];
    cbn; [discriminate | auto].
Qed.

(** Two callbacks with the processor of [__init__]. *)
Lemma callbacks_keep_views_aligned_witness :
  let s := callbacks passthrough_kernel new_session [[0%Z]; [1%Z; 2%Z]] in
  Np.len (int_items (input_buffer s)) = Np.len (int_items (output_buffer s))
  /\ (Np.len (int_items (input_buffer s)) <= 5 * RATE init)%Z
  /\ Np.len (fst (get_visualization_data s))
     = Np.len (snd (get_visualization_data s))
  /\ (Np.len (fst (get_visualization_data s)) <= 4 * CHUNK init)%Z
  /\ forall in_data e,
       snd (audio_callback passthrough_kernel s in_data) = Raise e ->
       input_buffer (fst (audio_callback passthrough_kernel s in_data))
       = input_buffer s /\
       output_buffer (fst (audio_callback passthrough_kernel s in_data))
       = output_buffer s.
Proof.
  exact (callbacks_keep_views_aligned passthrough_kernel
           [[0%Z]; [1%Z; 2%Z]] passthrough_length).
Defined.

(** ** The monitor *)

Lemma max0_nonneg (x : R) : 0 <= Visualize.max0 x.
Proof. unfold Visualize.max0. destruct (Rlt_dec 0 x); lra. Qed.

Lemma shown_db_nonneg (l : level) : 0 <= Visualize.shown_db l.
Proof. destruct l; simpl; [lra | apply max0_nonneg]. Qed.

Lemma min100_range (x : R) : 0 <= x -> 0 <= Visualize.min100 x <= 100.
Proof. intros H. unfold Visualize.min100. destruct (Rlt_dec 100 x); lra. Qed.

(** States reached from [init]: learning until the window is full, active
    afterwards. *)
Lemma run_init_phase (K : Z -> R -> list R -> list R) (cs : list (list Z)) :
  let s := run K init cs in
  noise_learned s = negb (learning_noise s) /\
  learning_noise s = (total_samples cs <? 132300)%Z /\
  (learning_noise s = true ->
   Np.len (items (noise_buffer s)) = total_samples cs) /\
  same_settings init s.
Proof.
  intros s.
  destruct (run_from_learning K init 0 cs
              (fresh_learning init init_fresh init_window_pos)
              init_window_pos) as (Hs & _ & Hlt & Hge).
  fold s in Hs, Hlt, Hge. rewrite Z.add_0_l, learning_window_init in *.
  destruct (Z.ltb_spec (total_samples cs) 132300) as [H | H].
  - destruct (Hlt H) as (H1 & H2 & _ & _ & H5 & _).
    rewrite H1, H2.
    split; [reflexivity |]. split; [reflexivity |].
    split; [intros _; exact H5 | exact Hs].
  - destruct (Hge H) as (p & H1 & H2 & _).
    rewrite H1, H2.
    split; [reflexivity |]. split; [reflexivity |].
    split; [discriminate | exact Hs].
Qed.

(** X10. For every processor reached from [__init__] by any stream of
    chunks, the monitor's three bars are between 0 and 100; its status is
    the learning one, with 3 seconds less the time of the samples received
    as remaining time, while fewer than 132300 samples have arrived, and
    an active one afterwards; it is never the paused one. *)
Theorem monitor_of_reachable_state (K : Z -> R -> list R -> list R)
    (cs : list (list Z)) :
  let f := Visualize.animate (run K init cs) in
  (let '(b0, b1, b2) := Visualize.bar_heights f in
   0 <= b0 <= 100 /\ 0 <= b1 <= 100 /\ 0 <= b2 <= 100) /\
  Visualize.status_head f
  = (if (total_samples cs <? 132300)%Z
     then Visualize.Learning_profile (3 - IZR (total_samples cs) / 44100)
     else if Rlt_dec 70 (Visualize.output_line f)
          then Visualize.Active_still_above else Visualize.Active_safe) /\
  Visualize.status_head f <> Visualize.Paused.
Proof.
  intros f. destruct (run_init_phase K cs) as (Hnl & Hl & Hbuf & Hs).
  set (s := run K init cs) in *.
  destruct Hs as (_ & HR & HM & Hdur & _).
  change (RATE init) with 44100%Z in HR.
  change (MAX_DB init) with 70 in HM.
  change (noise_learning_duration init) with 3 in Hdur.
  split.
  - unfold f, Visualize.animate. cbn [Visualize.bar_heights].
    repeat split; try apply min100_range; try apply shown_db_nonneg.
    all: destruct (processed_db s); [apply shown_db_nonneg | lra].
  - assert (Hst : Visualize.status_head f
      = (if (total_samples cs <? 132300)%Z
         then Visualize.Learning_profile (3 - IZR (total_samples cs) / 44100)
         else if Rlt_dec 70 (Visualize.output_line f)
              then Visualize.Active_still_above else Visualize.Active_safe)).
    { unfold f, Visualize.animate.
      cbn [Visualize.status_head Visualize.output_line].
      rewrite Hnl, Hl, HM.
      destruct (Z.ltb_spec (total_samples cs) 132300) as [H | H]; cbn [negb].
      - rewrite (Hbuf Hl), HR, Hdur.
        f_equal. unfold Visualize.max0.
        destruct (Rlt_dec 0 _) as [Hpos | Hneg]; [reflexivity |].
        exfalso. apply Hneg. apply IZR_lt in H.
        assert (IZR (total_samples cs) / 44100 < 3); [| lra].
        apply Rmult_lt_reg_r with 44100; [lra |].
        unfold Rdiv. rewrite Rmult_assoc, Rinv_l by lra. lra.
      - reflexivity. }
    split; [exact Hst |]. rewrite Hst.
    destruct (_ <? _)%Z; [discriminate |].
    destruct (Rlt_dec _ _); discriminate.
Qed.

(** ** The monitor after a limited chunk *)

Lemma calculate_db_level_repeat (x : R) (n : nat) :
  0 < x -> (0 < n)%nat ->
  calculate_db_level (repeat x n) = Fin (20 * Np.log10 x + 94).
Proof.
  intros Hx Hn. unfold calculate_db_level. rewrite len_repeat.
  destruct (Z.eqb_spec (Z.of_nat n) 0); [lia |].
  assert (Hm : Np.mean (Np.square (repeat x n)) = x * x).
  { unfold Np.mean. rewrite len_square, len_repeat, sum_square_repeat.
    rewrite <- INR_IZR_INZ. field. apply not_0_INR. lia. }
  rewrite Hm, sqrt_square by lra.
  destruct (Rlt_dec 0 x); [reflexivity | contradiction].
Qed.

Lemma log10_tenth : Np.log10 (/ 10) = -1.
Proof.
  unfold Np.log10. rewrite ln_Rinv by lra. pose proof ln10_pos.
  field. lra.
Qed.

Lemma to_float_repeat (z : Z) (n : nat) :
  to_float (repeat z n) = repeat (IZR z / 32768) n.
Proof. unfold to_float. apply map_repeat. Qed.

Lemma loud_chunk_level :
  level_gt
    (calculate_db_level
       (passthrough_kernel 4 (8000 / (IZR 44100 / 2))
          (to_float (repeat 32767%Z 1024))))
    70.
Proof.
  unfold passthrough_kernel. rewrite to_float_repeat.
  rewrite calculate_db_level_repeat by (try lra; lia). simpl.
  assert (Np.log10 (/ 10) <= Np.log10 (32767 / 32768))
    by (apply log10_le; lra).
  rewrite log10_tenth in H. lra.
Qed.

Lemma len_loud_chunk : Np.len (repeat 32767%Z 1024) = 1024%Z.
Proof. reflexivity. Qed.

(** X11. In an active processor reached from [__init__], when a chunk of
    1024 samples measures above 70 dB after the low-pass filter, the chunk
    returned is the limited one, at 70 dB at most, but the level the
    monitor shows as output is the one measured before limiting: its output
    bar is red and its status says the output is still above 70 dB. *)
Theorem monitor_warns_after_limiting (K : Z -> R -> list R -> list R)
    (cs : list (list Z)) (c : list Z) :
  learning_noise (run K init cs) = false ->
  Np.len c = 1024%Z ->
  let filtered := K 4%Z (8000 / (IZR 44100 / 2)) (to_float c) in
  level_gt (calculate_db_level filtered) 70 ->
  let limited := fst (adaptive_volume_control 70 filtered) in
  let f := Visualize.animate (step K (run K init cs) c) in
  snd (process_audio_chunk K (run K init cs) c) = Ok (to_int16 limited) /\
  level_le (calculate_db_level limited) (Fin 70) /\
  Fin (Visualize.output_line f) = calculate_db_level filtered /\
  snd (Visualize.bar_colors f) = Visualize.red /\
  Visualize.status_head f = Visualize.Active_still_above.
Proof.
  intros Hl Hc filtered Hgt limited f.
  destruct (run_init_active K cs Hl) as (Ha & Hs).
  set (s := run K init cs) in *.
  destruct Ha as (_ & Hnl & Hp & Hlen).
  rewrite (same_settings_window _ _ Hs), learning_window_init in Hlen.
  destruct Hs as (_ & HR & HM & _ & _ & He & _).
  change (RATE init) with 44100%Z in HR.
  change (MAX_DB init) with 70 in HM.
  change (processing_enabled init) with true in He.
  assert (Hproc : process_audio_chunk K s c
    = (set_processed_db (metered s c)
         (Some (snd (adaptive_volume_control 70 filtered))),
       Ok (to_int16 limited))).
  { rewrite (process_active K s c Hl He).
    destruct (noise_reduction_mismatch K (metered s c) (to_float c)
                (profile_of s)) as (_ & Hnr).
    - exact Hnl.
    - exact Hp.
    - rewrite len_to_float, Hc, Hlen. lia.
    - rewrite len_to_float, Hc. unfold filtfilt_padlen. lia.
    - change (RATE (metered s c)) with (RATE s). rewrite HR.
      apply butter_accepts_default.
    - rewrite Hnr. change (RATE (metered s c)) with (RATE s).
      change (MAX_DB (metered s c)) with (MAX_DB s). rewrite HR, HM.
      reflexivity. }
  assert (Hsnd : snd (adaptive_volume_control 70 filtered)
                 = calculate_db_level filtered).
  { unfold adaptive_volume_control.
    destruct (calculate_db_level filtered) as [| d]; [reflexivity |].
    destruct (Rlt_dec 70 d); reflexivity. }
  split; [now rewrite Hproc |].
  split.
  { unfold limited. replace 70 with (70 + 0) at 2 by lra.
    apply limiter_output_below. lra. }
  unfold f, step. rewrite Hproc, Hsnd. cbn [fst].
  destruct (calculate_db_level filtered) as [| d]; [contradiction |].
  simpl in Hgt.
  unfold Visualize.animate.
  cbn [Visualize.output_line Visualize.bar_colors Visualize.status_head snd].
  cbn [processed_db set_processed_db learning_noise noise_learned MAX_DB
       metered set_max_db_recorded set_current_db].
  rewrite Hl, Hnl, HM. cbn [Visualize.shown_db].
  unfold Visualize.max0. destruct (Rlt_dec 0 d); [| lra].
  destruct (Rlt_dec 70 d); [| lra]. auto.
Qed.

(** A chunk of 1024 samples at 32767 after the learning window. *)
Lemma monitor_warns_after_limiting_witness :
  let K := passthrough_kernel in
  let c := repeat 32767%Z 1024 in
  let filtered := K 4%Z (8000 / (IZR 44100 / 2)) (to_float c) in
  let limited := fst (adaptive_volume_control 70 filtered) in
  let f := Visualize.animate (step K (run K init learning_stream) c) in
  snd (process_audio_chunk K (run K init learning_stream) c)
  = Ok (to_int16 limited) /\
  level_le (calculate_db_level limited) (Fin 70) /\
  Fin (Visualize.output_line f) = calculate_db_level filtered /\
  snd (Visualize.bar_colors f) = Visualize.red /\
  Visualize.status_head f = Visualize.Active_still_above.
Proof.
  exact (monitor_warns_after_limiting passthrough_kernel learning_stream
           (repeat 32767%Z 1024)
           (learning_stream_active passthrough_kernel)
           len_loud_chunk loud_chunk_level).
Defined.

(** ** Sums of sines over a full period *)

Lemma sin_sum_telescope (t : R) (n : nat) :
  2 * sin (t / 2) * Np.sum (map (fun j => sin (INR j * t)) (seq 0 n))
  = cos (t / 2) - cos ((INR n - 1 / 2) * t).
Proof.
  induction n as [| n IH].
  - simpl. replace ((0 - 1 / 2) * t) with (- (t / 2)) by field.
    rewrite cos_neg. ring.
  - rewrite sum_seq_S, Rmult_plus_distr_l, IH, S_INR.
    replace ((INR n + 1 - 1 / 2) * t) with (INR n * t + t / 2) by field.
    replace ((INR n - 1 / 2) * t) with (INR n * t - t / 2) by field.
    rewrite cos_plus, cos_minus. ring.
Qed.

Lemma sin_sum_period (n d : nat) :
  (d < n)%nat ->
  Np.sum (map (fun j => sin (INR j * (2 * PI * INR d / INR n))) (seq 0 n))
  = 0.
Proof.
  intros Hn.
  assert (Hn' : 0 < INR n) by (apply lt_0_INR; lia).
  destruct (Nat.eq_dec d 0) as [-> | Hd0].
  - rewrite (sum_map_ext _ (fun _ => 0)); [apply sum_map_zero |].
    intros j _. rewrite <- sin_0. f_equal. simpl. field. lra.
  - assert (Hd' : 0 < INR d) by (apply lt_0_INR; lia).
    assert (Hdn : INR d < INR n) by (apply lt_INR; lia).
    set (t := 2 * PI * INR d / INR n).
    pose proof (sin_sum_telescope t n) as H.
    replace ((INR n - 1 / 2) * t) with (- (t / 2) + 2 * INR d * PI) in H
      by (unfold t; field; lra).
    rewrite cos_period, cos_neg in H.
    assert (Hs : 0 < sin (t / 2)).
    { pose proof PI_RGT_0.
      assert (0 < INR d / INR n < 1).
      { split; [now apply Rdiv_lt_0_compat |].
        apply Rmult_lt_reg_r with (INR n); [lra |].
        unfold Rdiv. rewrite Rmult_assoc, Rinv_l by lra. lra. }
      replace (t / 2) with (PI * (INR d / INR n)) by (unfold t; field; lra).
      apply sin_gt_0; nra. }
    nra.
Qed.

(** Sums over the output index [k] of the transform's phase differences
    between two input indices. *)
Lemma phase_cos_sum (sgn : R) (n m m' : nat) :
  sgn = 1 \/ sgn = -1 -> (m < n)%nat -> (m' < n)%nat ->
  Np.sum (map (fun k => cos (sgn * (2 * PI * INR k * INR m / INR n)
                             - sgn * (2 * PI * INR k * INR m' / INR n)))
              (seq 0 n))
  = if (m' =? m)%nat then INR n else 0.
Proof.
  intros Hsgn Hm Hm'.
  assert (Hn' : 0 < INR n) by (apply lt_0_INR; lia).
  destruct (Nat.eqb_spec m' m) as [-> | Hne].
  - rewrite (sum_map_ext _ (fun _ => 1)).
    + rewrite sum_const. ring.
    + intros k _. transitivity (cos 0); [| apply cos_0].
      f_equal. field. lra.
  - destruct (Nat.lt_ge_cases m' m) as [Hlt | Hge].
    + rewrite <- (cos_sum_period n (m - m')) by lia.
      apply sum_map_ext. intros k _.
      rewrite minus_INR by lia.
      destruct Hsgn as [-> | ->].
      * f_equal. field. lra.
      * rewrite <- cos_neg. f_equal. field. lra.
    + rewrite <- (cos_sum_period n (m' - m)) by lia.
      apply sum_map_ext. intros k _.
      rewrite minus_INR by lia.
      destruct Hsgn as [-> | ->].
      * rewrite <- cos_neg. f_equal. field. lra.
      * f_equal. field. lra.
Qed.

Lemma phase_sin_sum (sgn : R) (n m m' : nat) :
  sgn = 1 \/ sgn = -1 -> (m < n)%nat -> (m' < n)%nat ->
  Np.sum (map (fun k => sin (sgn * (2 * PI * INR k * INR m / INR n)
                             - sgn * (2 * PI * INR k * INR m' / INR n)))
              (seq 0 n))
  = 0.
Proof.
  intros Hsgn Hm Hm'.
  assert (Hn' : 0 < INR n) by (apply lt_0_INR; lia).
  destruct (Nat.lt_ge_cases m' m) as [Hlt | Hge].
  - destruct Hsgn as [-> | ->].
    + rewrite <- (sin_sum_period n (m - m')) by lia.
      apply sum_map_ext. intros k _. rewrite minus_INR by lia.
      f_equal. field. lra.
    + transitivity
        (-1 * Np.sum (map (fun j => sin (INR j * (2 * PI * INR (m - m') / INR n)))
                          (seq 0 n))).
      * rewrite <- sum_map_scale. apply sum_map_ext. intros k _.
        rewrite minus_INR by lia.
        replace (-1 * sin (INR k * (2 * PI * (INR m - INR m') / INR n)))
          with (sin (- (INR k * (2 * PI * (INR m - INR m') / INR n))))
          by (rewrite sin_neg; ring).
        f_equal. field. lra.
      * rewrite sin_sum_period by lia. ring.
  - destruct Hsgn as [-> | ->].
    + transitivity
        (-1 * Np.sum (map (fun j => sin (INR j * (2 * PI * INR (m' - m) / INR n)))
                          (seq 0 n))).
      * rewrite <- sum_map_scale. apply sum_map_ext. intros k _.
        rewrite minus_INR by lia.
        replace (-1 * sin (INR k * (2 * PI * (INR m' - INR m) / INR n)))
          with (sin (- (INR k * (2 * PI * (INR m' - INR m) / INR n))))
          by (rewrite sin_neg; ring).
        f_equal. field. lra.
      * rewrite sin_sum_period by lia. ring.
    + rewrite <- (sin_sum_period n (m' - m)) by lia.
      apply sum_map_ext. intros k _. rewrite minus_INR by lia.
      f_equal. field. lra.
Qed.

(** ** The transform keeps the energy, up to the length *)

Lemma sum_mult_sum {A} (f g : A -> R) (l : list A) :
  Np.sum (map f l) * Np.sum (map g l)
  = Np.sum (map (fun m => Np.sum (map (fun m' => f m * g m') l)) l).
Proof.
  rewrite Rmult_comm, <- sum_map_scale. apply sum_map_ext. intros m _.
  rewrite sum_map_scale. ring.
Qed.

Lemma sum_nth (f : C -> R) (a : list C) :
  Np.sum (map f a)
  = Np.sum (map (fun m => f (nth m a (0, 0))) (seq 0 (length a))).
Proof.
  rewrite <- (map_map (fun m => nth m a (0, 0)) f). f_equal. f_equal.
  symmetry. apply nth_ext with (d := (0, 0)) (d' := (0, 0)).
  - now rewrite length_map, length_seq.
  - intros k Hk. rewrite length_map, length_seq in Hk.
    now rewrite nth_map_seq.
Qed.

Lemma Cnorm2_nonneg (z : C) : 0 <= Cnorm2 z.
Proof. unfold Cnorm2. nra. Qed.

(** The energy of one output of the transform, as a double sum over the
    inputs. *)
Lemma Cnorm2_dft_term (sgn : R) (a : list C) (k : nat) :
  (k < length a)%nat ->
  Cnorm2 (nth k (dft sgn a) (0, 0))
  = Np.sum (map (fun m => Np.sum (map (fun m' =>
      (Re (nth m a (0, 0)) * Re (nth m' a (0, 0))
       + Im (nth m a (0, 0)) * Im (nth m' a (0, 0)))
      * cos (sgn * (2 * PI * INR k * INR m / INR (length a))
             - sgn * (2 * PI * INR k * INR m' / INR (length a)))
      + (Re (nth m a (0, 0)) * Im (nth m' a (0, 0))
         - Im (nth m a (0, 0)) * Re (nth m' a (0, 0)))
        * sin (sgn * (2 * PI * INR k * INR m / INR (length a))
               - sgn * (2 * PI * INR k * INR m' / INR (length a))))
      (seq 0 (length a)))) (seq 0 (length a))).
Proof.
  intros Hk. rewrite nth_dft by exact Hk.
  unfold Cnorm2. rewrite Re_Csum, Im_Csum, !map_map.
  rewrite !sum_mult_sum, <- sum_map_plus.
  apply sum_map_ext. intros m _. rewrite <- sum_map_plus.
  apply sum_map_ext. intros m' _.
  unfold Cmul, cis, Re, Im. cbn [fst snd].
  rewrite cos_minus, sin_minus. ring.
Qed.

Lemma parseval_dft (sgn : R) (a : list C) :
  sgn = 1 \/ sgn = -1 ->
  Np.sum (map Cnorm2 (dft sgn a))
  = INR (length a) * Np.sum (map Cnorm2 a).
Proof.
  intros Hsgn. set (n := length a).
  rewrite (sum_nth Cnorm2 (dft sgn a)), length_dft. fold n.
  rewrite (sum_map_ext _ (fun k => Np.sum (map (fun m => Np.sum (map (fun m' =>
      (Re (nth m a (0, 0)) * Re (nth m' a (0, 0))
       + Im (nth m a (0, 0)) * Im (nth m' a (0, 0)))
      * cos (sgn * (2 * PI * INR k * INR m / INR n)
             - sgn * (2 * PI * INR k * INR m' / INR n))
      + (Re (nth m a (0, 0)) * Im (nth m' a (0, 0))
         - Im (nth m a (0, 0)) * Re (nth m' a (0, 0)))
        * sin (sgn * (2 * PI * INR k * INR m / INR n)
               - sgn * (2 * PI * INR k * INR m' / INR n)))
      (seq 0 n))) (seq 0 n)))).
  2:{ intros k Hk. apply in_seq in Hk. apply Cnorm2_dft_term. fold n. lia. }
  rewrite sum_swap.
  rewrite (sum_nth Cnorm2 a). fold n. rewrite <- sum_map_scale.
  apply sum_map_ext. intros m Hm. apply in_seq in Hm.
  rewrite sum_swap.
  rewrite (sum_map_ext _ (fun m' =>
     (Re (nth m a (0, 0)) * Re (nth m' a (0, 0))
      + Im (nth m a (0, 0)) * Im (nth m' a (0, 0)))
     * (if (m' =? m)%nat then INR n else 0))).
  - rewrite (sum_delta (fun m' => Re (nth m a (0, 0)) * Re (nth m' a (0, 0))
                                  + Im (nth m a (0, 0)) * Im (nth m' a (0, 0))))
      by lia.
    unfold Cnorm2. ring.
  - intros m' Hm'. apply in_seq in Hm'.
    rewrite sum_map_plus, !sum_map_scale.
    rewrite phase_cos_sum, phase_sin_sum by (auto; lia). ring.
Qed.

(** ** Spectral subtraction and the energy of a chunk *)

Lemma np_hanning_range (M : Z) :
  Forall (fun v => 0 <= v <= 1) (np_hanning M).
Proof.
  unfold np_hanning. destruct (M <? 1)%Z; [constructor |].
  destruct (M =? 1)%Z; [repeat constructor; lra |].
  apply Forall_forall. intros v Hv. apply in_map_iff in Hv.
  destruct Hv as (k & <- & _).
  pose proof (COS_bound (PI * IZR (1 - M + 2 * Z.of_nat k) / IZR (M - 1))).
  lra.
Qed.

Lemma sum_square_window (a h : list R) :
  Forall (fun v => 0 <= v <= 1) h ->
  Np.sum (Np.square (Np.map2 Rmult a h)) <= Np.sum (Np.square a).
Proof.
  revert h. induction a as [| x a IH]; intros [| v h] Hh; simpl; try lra.
  - pose proof (sum_square_nonneg a). unfold Np.square in *. nra.
  - inversion Hh as [| ? ? Hv Hh']; subst. specialize (IH h Hh').
    unfold Np.square in *. simpl in *.
    assert (x * v * (x * v) <= x * x); [| lra].
    replace (x * v * (x * v)) with ((x * x) * (v * v)) by ring.
    assert (0 <= x * x) by nra. assert (v * v <= 1) by nra. nra.
Qed.

Lemma Cnorm2_polar (m p : R) : Cnorm2 (Cscale m (cis p)) = m * m.
Proof.
  unfold Cnorm2, Cscale, cis, Re, Im. cbn [fst snd].
  pose proof (sin2_cos2 p) as H. unfold Rsqr in H. nra.
Qed.

Lemma Cabs_square (z : C) : Cabs z * Cabs z = Cnorm2 z.
Proof. unfold Cabs. apply sqrt_sqrt. apply Cnorm2_nonneg. Qed.

(** Subtracting a non-negative profile with a non-negative factor, above
    the floor, leaves no bin with more energy than it had. *)
Lemma enhanced_energy (alpha : R) (F : list C) (ns : list R) :
  0 <= alpha -> Forall (fun x => 0 <= x) ns ->
  Np.sum (map Cnorm2
            (Np.map2 (fun m p => Cscale m (cis p))
               (Np.map2 Rmax
                  (Np.map2 Rminus (map Cabs F)
                     (map (fun x => alpha * x) ns))
                  (map (fun x => 0.1 * x) (map Cabs F)))
               (map Cangle F)))
  <= Np.sum (map Cnorm2 F).
Proof.
  intros Ha. revert ns. induction F as [| z F IH]; intros ns Hns.
  - simpl. lra.
  - destruct ns as [| x ns].
    + simpl. pose proof (Cnorm2_nonneg z).
      assert (0 <= Np.sum (map Cnorm2 F)); [| lra].
      clear. induction F as [| y F IH]; simpl; [lra |].
      pose proof (Cnorm2_nonneg y). lra.
    + inversion Hns as [| ? ? Hx Hns']; subst. specialize (IH ns Hns').
      cbn [map Np.map2 Np.sum fold_right]. fold (Np.sum).
      rewrite Cnorm2_polar.
      pose proof (Cabs_nonneg z) as Hz. pose proof (Cabs_square z) as Hsq.
      set (M := Cabs z) in *.
      assert (Hm : 0 <= Rmax (M - alpha * x) (0.1 * M) <= M).
      { split.
        - apply Rle_trans with (0.1 * M); [lra | apply Rmax_r].
        - apply Rmax_lub; nra. }
      change (fold_right Rplus 0) with Np.sum in *.
      nra.
Qed.

Lemma spectral_subtraction_unfold (self : SafeAudioProcessor)
    (a ns : list R) :
  (64 <= Np.len a)%Z -> Np.len ns = Np.len a ->
  let F := dft (-1) (map RtoC (Np.map2 Rmult a (np_hanning (Np.len a)))) in
  let E :=
    Np.map2 (fun m p => Cscale m (cis p))
      (Np.map2 Rmax
         (Np.map2 Rminus (map Cabs F)
            (map (fun x => noise_reduction_factor self * x) ns))
         (map (fun x => 0.1 * x) (map Cabs F)))
      (map Cangle F) in
  length E = length a /\
  spectral_subtraction self a (Some ns)
  = Ok (map Re (map (Cscale (/ INR (length a))) (dft 1 E))).
Proof.
  intros Hge Hns F E.
  assert (Hw : length (Np.map2 Rmult a (np_hanning (Np.len a))) = length a)
    by apply length_windowed.
  assert (HF : length F = length a)
    by (unfold F; now rewrite length_dft, length_map).
  assert (Hn : length ns = length a) by (unfold Np.len in Hns; lia).
  assert (HE : length E = length a).
  { unfold E. rewrite !length_map2, !length_map. lia. }
  split; [exact HE |].
  unfold spectral_subtraction.
  destruct (Z.ltb_spec (Np.len a) 64); [lia |].
  rewrite np_fft_ok.
  2:{ intros Heq. rewrite Heq in Hw. unfold Np.len in Hge. simpl in Hw. lia. }
  cbn [bind]. fold F. unfold Np.broadcast2.
  replace (Np.len (map Cabs F) =? Np.len (map _ ns))%Z with true.
  2:{ symmetry. apply Z.eqb_eq. rewrite !len_map. unfold Np.len. lia. }
  cbn [bind]. fold E. unfold np_ifft. rewrite HE.
  destruct E; [simpl in HE; unfold Np.len in Hge; lia | reflexivity].
Qed.

Lemma sum_square_Re_scaled (r : R) (y : list C) :
  Np.sum (Np.square (map Re (map (Cscale r) y)))
  <= r * r * Np.sum (map Cnorm2 y).
Proof.
  induction y as [| z y IH]; [simpl; lra |].
  unfold Np.square, Np.sum in *. cbn [map fold_right].
  set (S1 := fold_right Rplus 0
               (map (fun x => x * x) (map Re (map (Cscale r) y)))) in *.
  set (S2 := fold_right Rplus 0 (map Cnorm2 y)) in *.
  unfold Cnorm2, Cscale, Re, Im. cbn [fst snd].
  assert (0 <= r * r * (snd z * snd z)) by (apply Rmult_le_pos; nra).
  nra.
Qed.

Lemma sum_Cnorm2_RtoC (w : list R) :
  Np.sum (map Cnorm2 (map RtoC w)) = Np.sum (Np.square w).
Proof.
  induction w as [| x w IH]; [reflexivity |].
  unfold Np.square, Np.sum in *. cbn [map fold_right]. rewrite IH.
  unfold Cnorm2, RtoC, Re, Im. cbn [fst snd]. ring.
Qed.

Lemma spectral_subtraction_energy (self : SafeAudioProcessor)
    (a ns out : list R) :
  0 <= noise_reduction_factor self -> Forall (fun x => 0 <= x) ns ->
  Np.len ns = Np.len a ->
  spectral_subtraction self a (Some ns) = Ok out ->
  Np.sum (Np.square out) <= Np.sum (Np.square a).
Proof.
  intros Ha Hns Hlen Hout.
  destruct (Z.lt_ge_cases (Np.len a) 64) as [Hlt | Hge].
  - unfold spectral_subtraction in Hout.
    destruct (Z.ltb_spec (Np.len a) 64); [| lia].
    injection Hout as <-. lra.
  - destruct (spectral_subtraction_unfold self a ns Hge Hlen) as (HE & Heq).
    cbv zeta in HE, Heq. rewrite Heq in Hout. injection Hout as <-.
    set (w := Np.map2 Rmult a (np_hanning (Np.len a))) in *.
    set (F := dft (-1) (map RtoC w)) in *.
    set (E := Np.map2 _ _ (map Cangle F)) in *.
    assert (Hn : 0 < INR (length a)).
    { apply lt_0_INR. unfold Np.len in Hge. lia. }
    assert (Hw : length w = length a) by apply length_windowed.
    eapply Rle_trans; [apply sum_square_Re_scaled |].
    rewrite parseval_dft by auto. rewrite HE.
    apply Rle_trans with
      (/ INR (length a) * / INR (length a)
       * (INR (length a) * Np.sum (map Cnorm2 F))).
    + apply Rmult_le_compat_l.
      * apply Rmult_le_pos; left; now apply Rinv_0_lt_compat.
      * apply Rmult_le_compat_l; [lra |].
        unfold E. now apply enhanced_energy.
    + unfold F. rewrite parseval_dft by auto.
      rewrite length_map, Hw, sum_Cnorm2_RtoC.
      apply Rle_trans with (Np.sum (Np.square w)).
      * right. field. lra.
      * apply sum_square_window. apply np_hanning_range.
Qed.

Lemma level_le_of_energy (a out : list R) :
  length out = length a ->
  Np.sum (Np.square out) <= Np.sum (Np.square a) ->
  level_le (calculate_db_level out) (calculate_db_level a).
Proof.
  intros Hlen Hsum. unfold calculate_db_level.
  assert (Hl : Np.len out = Np.len a) by (unfold Np.len; now rewrite Hlen).
  rewrite Hl. destruct (Z.eqb_spec (Np.len a) 0) as [H0 | H0]; [exact I |].
  assert (Hn : 0 < IZR (Np.len a))
    by (apply IZR_lt; unfold Np.len in *; lia).
  assert (Hmean : Np.mean (Np.square out) <= Np.mean (Np.square a)).
  { unfold Np.mean. rewrite !len_square, Hl.
    apply Rmult_le_compat_r; [left; now apply Rinv_0_lt_compat | exact Hsum]. }
  pose proof (sqrt_le_1_alt _ _ Hmean) as Hsq.
  destruct (Rlt_dec 0 (sqrt (Np.mean (Np.square out)))) as [Ho | Ho];
    [| exact I].
  destruct (Rlt_dec 0 (sqrt (Np.mean (Np.square a)))) as [Hi | Hi]; [| lra].
  simpl. pose proof (log10_le _ _ Ho Hsq). lra.
Qed.

(** X12. With a non-negative factor and a non-negative profile of the
    chunk's length, spectral subtraction returns a chunk (it does not
    raise) of the same length whose energy, the sum of the squared
    samples, is at most that of the chunk it was given; its measured level
    in dB is therefore at most the input's. *)
Theorem spectral_subtraction_never_adds_energy (self : SafeAudioProcessor)
    (a ns : list R) :
  0 <= noise_reduction_factor self -> Forall (fun x => 0 <= x) ns ->
  Np.len ns = Np.len a ->
  exists out,
    spectral_subtraction self a (Some ns) = Ok out /\
    Np.len out = Np.len a /\
    Np.sum (Np.square out) <= Np.sum (Np.square a) /\
    level_le (calculate_db_level out) (calculate_db_level a).
Proof.
  intros Ha Hns Hlen.
  destruct (spectral_subtraction_same_length self a ns Hlen)
    as (out & Hout & Hl).
  exists out. split; [exact Hout |].
  pose proof (spectral_subtraction_energy self a ns out Ha Hns Hlen Hout).
  split; [unfold Np.len; now rewrite Hl |].
  split; [assumption | now apply level_le_of_energy].
Qed.

Lemma default_factor_nonneg : 0 <= noise_reduction_factor init.
Proof. simpl. lra. Qed.

Lemma zeros_nonneg : Forall (fun x => 0 <= x) (repeat 0 64).
Proof. apply Forall_forall. intros x Hx. apply repeat_spec in Hx. lra. Qed.

(** The chunk of 64 ones against a profile of zeros, factor 0.7. *)
Lemma spectral_subtraction_never_adds_energy_witness :
  exists out,
    spectral_subtraction init (repeat 1 64) (Some (repeat 0 64)) = Ok out /\
    Np.len out = Np.len (repeat 1 64) /\
    Np.sum (Np.square out) <= Np.sum (Np.square (repeat 1 64)) /\
    level_le (calculate_db_level out) (calculate_db_level (repeat 1 64)).
Proof.
  exact (spectral_subtraction_never_adds_energy init (repeat 1 64)
           (repeat 0 64) default_factor_nonneg zeros_nonneg
           len_zeros_ones).
Defined.

(** ** The level meter *)

Lemma sum_square_bounded (a : list R) :
  Forall (fun x => -1 <= x <= 1) a ->
  Np.sum (Np.square a) <= IZR (Np.len a).
Proof.
  induction a as [| x a IH]; intros H.
  - unfold Np.len. simpl. lra.
  - inversion H as [| ? ? Hx Ha]; subst. specialize (IH Ha).
    unfold Np.len in *. cbn [length]. rewrite Nat2Z.inj_succ, succ_IZR.
    unfold Np.square, Np.sum in *. cbn [map fold_right]. nra.
Qed.

Lemma to_float_range (c : list Z) :
  Forall int16 c -> Forall (fun x => -1 <= x <= 1) (to_float c).
Proof.
  intros H. unfold to_float. apply Forall_forall. intros x Hx.
  apply in_map_iff in Hx. destruct Hx as (z & <- & Hz).
  rewrite Forall_forall in H. destruct (H z Hz) as [H1 H2].
  apply IZR_le in H1, H2. lra.
Qed.

Lemma level_of_bounded_chunk (a : list R) :
  Forall (fun x => -1 <= x <= 1) a ->
  level_le (calculate_db_level a) (Fin 94).
Proof.
  intros H. unfold calculate_db_level.
  destruct (Z.eqb_spec (Np.len a) 0) as [H0 | H0]; [exact I |].
  destruct (Rlt_dec 0 _) as [Hr | Hr]; [| exact I]. simpl.
  assert (Hn : 0 < IZR (Np.len a))
    by (apply IZR_lt; unfold Np.len in *; lia).
  assert (Hm : Np.mean (Np.square a) <= 1).
  { unfold Np.mean. rewrite len_square.
    pose proof (sum_square_bounded a H).
    apply Rmult_le_reg_r with (IZR (Np.len a)); [lra |].
    unfold Rdiv. rewrite Rmult_assoc, Rinv_l by lra. lra. }
  assert (Hs : sqrt (Np.mean (Np.square a)) <= 1).
  { rewrite <- sqrt_1. now apply sqrt_le_1_alt. }
  pose proof (log10_le _ _ Hr Hs) as Hlog. rewrite log10_1 in Hlog. lra.
Qed.

Lemma py_max_le (a b m : level) :
  level_le a m -> level_le b m -> level_le (py_max a b) m.
Proof.
  destruct a as [| x], b as [| y]; simpl; auto.
  destruct (Rlt_dec x y); auto.
Qed.

(** X17. A chunk of int16 samples never measures above 94 dB, the
    calibration offset; so, over any stream of such chunks,
    [max_db_recorded] stays between 0 and 94 and [current_db] is at most
    94. *)
Theorem input_level_at_most_94 (K : Z -> R -> list R -> list R)
    (cs : list (list Z)) (c : list Z) :
  Forall (Forall int16) cs -> Forall int16 c ->
  level_le (calculate_db_level (to_float c)) (Fin 94) /\
  level_le (Fin 0) (max_db_recorded (run K init cs)) /\
  level_le (max_db_recorded (run K init cs)) (Fin 94).
Proof.
  intros Hcs Hc.
  split; [apply level_of_bounded_chunk; now apply to_float_range |].
  split; [apply (run_max_db_recorded K init cs) |].
  assert (H : forall s, level_le (max_db_recorded s) (Fin 94) ->
                        level_le (max_db_recorded (run K s cs)) (Fin 94)).
  { induction cs as [| c' cs IH]; intros s Hs; [exact Hs |].
    inversion Hcs as [| ? ? Hc' Hcs']; subst.
    rewrite run_cons. apply IH; [exact Hcs' |].
    rewrite step_max_db_recorded. apply py_max_le; [exact Hs |].
    apply level_of_bounded_chunk. now apply to_float_range. }
  apply H. simpl. lra.
Qed.

Lemma int16_stream : Forall (Forall int16) [[32767%Z]; [(-32768)%Z; 0%Z]].
Proof. repeat constructor; unfold int16; lia. Qed.

Lemma int16_chunk : Forall int16 [32767%Z; (-32768)%Z].
Proof. repeat constructor; unfold int16; lia. Qed.

(** Full-scale chunks. *)
Lemma input_level_at_most_94_witness :
  level_le (calculate_db_level (to_float [32767%Z; (-32768)%Z])) (Fin 94) /\
  level_le (Fin 0)
    (max_db_recorded
       (run passthrough_kernel init [[32767%Z]; [(-32768)%Z; 0%Z]])) /\
  level_le
    (max_db_recorded
       (run passthrough_kernel init [[32767%Z]; [(-32768)%Z; 0%Z]]))
    (Fin 94).
Proof.
  exact (input_level_at_most_94 passthrough_kernel
           [[32767%Z]; [(-32768)%Z; 0%Z]] [32767%Z; (-32768)%Z]
           int16_stream int16_chunk).
Defined.

(** X18. Scaling every sample of a chunk by a gain [g > 0] shifts its
    measured level by [20 log10 g] dB; silence stays at minus infinity. *)
Theorem level_of_scaled_chunk (g : R) (a : list R) :
  0 < g ->
  calculate_db_level (map (fun x => x * g) a)
  = match calculate_db_level a with
    | NegInf => NegInf
    | Fin d => Fin (d + 20 * Np.log10 g)
    end.
Proof.
  intros Hg. unfold calculate_db_level. rewrite len_map.
  destruct (Np.len a =? 0)%Z; [reflexivity |].
  rewrite rms_scale by lra.
  set (r := sqrt (Np.mean (Np.square a))).
  assert (Hr : 0 <= r) by apply sqrt_pos.
  destruct (Rlt_dec 0 r) as [Hp | Hp].
  - destruct (Rlt_dec 0 (g * r)) as [Hq | Hq]; [| exfalso; nra].
    f_equal. rewrite log10_mult by assumption. ring.
  - destruct (Rlt_dec 0 (g * r)) as [Hq | Hq]; [exfalso; nra | reflexivity].
Qed.

Lemma half_positive : 0 < 1 / 2.
Proof. lra. Qed.

(** Half the amplitude of the full-scale one-sample chunk. *)
Lemma level_of_scaled_chunk_witness :
  calculate_db_level (map (fun x => x * (1 / 2)) [1])
  = match calculate_db_level [1] with
    | NegInf => NegInf
    | Fin d => Fin (d + 20 * Np.log10 (1 / 2))
    end.
Proof.
  exact (level_of_scaled_chunk (1 / 2) [1] half_positive).
Defined.

(** X19. Limiting is idempotent on every chunk: the chunk the limiter
    returns is at or below the ceiling, so a second pass returns it
    unchanged, with its true level. *)
Theorem limiter_idempotent (M : R) (a : list R) :
  let once := fst (adaptive_volume_control M a) in
  adaptive_volume_control M once = (once, calculate_db_level once) /\
  level_le (calculate_db_level once) (Fin M).
Proof.
  intros once.
  assert (Hle : level_le (calculate_db_level once) (Fin M)).
  { unfold once. replace M with (M + 0) at 2 by lra.
    apply limiter_output_below. lra. }
  split; [| exact Hle].
  apply adaptive_volume_control_below. now apply le_not_gt.
Qed.

(** ** The output stream and the ceiling *)

Lemma trunc_sqr_le (y : R) : IZR (Np.trunc y) * IZR (Np.trunc y) <= y * y.
Proof.
  unfold Np.trunc. destruct (Rle_dec 0 y) as [H | H].
  - destruct (base_Int_part y) as [H1 H2].
    assert (0 <= IZR (Int_part y)).
    { apply IZR_le. apply Z.lt_succ_r. apply lt_IZR. rewrite succ_IZR. lra. }
    nra.
  - destruct (base_Int_part (- y)) as [H1 H2].
    assert (0 <= IZR (Int_part (- y))).
    { apply IZR_le. apply Z.lt_succ_r. apply lt_IZR. rewrite succ_IZR. lra. }
    rewrite opp_IZR. nra.
Qed.

Lemma clip_sqr_le (y : R) :
  Np.clip (-32768) 32767 y * Np.clip (-32768) 32767 y <= y * y.
Proof.
  unfold Np.clip.
  destruct (Rlt_dec y (-32768)); [nra |].
  destruct (Rlt_dec 32767 y); nra.
Qed.

(** A sample converted to int16 and read back is no larger than it was. *)
Lemma converted_sample_sqr_le (x : R) :
  let z := IZR (Np.astype_int16 (Np.clip (-32768) 32767 (x * 32768))) / 32768 in
  z * z <= x * x.
Proof.
  intros z. unfold z.
  destruct (astype_int16_clip (x * 32768)) as [-> _].
  pose proof (trunc_sqr_le (Np.clip (-32768) 32767 (x * 32768))) as Ht.
  pose proof (clip_sqr_le (x * 32768)) as Hc.
  set (t := IZR (Np.trunc (Np.clip (-32768) 32767 (x * 32768)))) in *.
  assert (t * t <= x * 32768 * (x * 32768)) by lra.
  unfold Rdiv. nra.
Qed.

Lemma converted_chunk_level (a : list R) :
  level_le (calculate_db_level (to_float (to_int16 a))) (calculate_db_level a).
Proof.
  apply level_le_of_energy.
  - unfold to_float, to_int16. now rewrite !length_map.
  - unfold to_float, to_int16, Np.square, Np.sum. rewrite !map_map.
    induction a as [| x a IH]; cbn [map fold_right]; [lra |].
    pose proof (converted_sample_sqr_le x) as Hx. cbv zeta in Hx. lra.
Qed.

Lemma calculate_db_level_minus_one : calculate_db_level [-1] = Fin 94.
Proof.
  unfold calculate_db_level. cbn [Np.len length Z.of_nat Z.eqb Pos.of_succ_nat].
  assert (Hr : sqrt (Np.mean (Np.square [-1])) = 1).
  { unfold Np.mean, Np.square, Np.sum, Np.len. cbn.
    replace ((-1 * -1 + 0) / 1) with 1 by field. apply sqrt_1. }
  rewrite Hr. destruct (Rlt_dec 0 1); [| lra].
  rewrite log10_1. f_equal. lra.
Qed.

Lemma to_float_negative_full_scale : to_float [(-32768)%Z] = [-1].
Proof. unfold to_float. cbn [map]. f_equal. field. Qed.

(** C1, as stated, fails: while the noise profile is learned the chunk
    goes out as it came in. The first chunk, one sample at -32768, is
    returned unchanged and measures 94 dB, above the 70 dB ceiling by more
    than any eps below 24, although the limiter, given that chunk, returns
    one at 70 dB at most. *)
Lemma learning_output_exceeds_ceiling :
  snd (process_audio_chunk passthrough_kernel init [(-32768)%Z])
  = Ok [(-32768)%Z] /\
  calculate_db_level (to_float [(-32768)%Z]) = Fin 94 /\
  (forall eps, eps < 24 ->
     ~ level_le (calculate_db_level (to_float [(-32768)%Z]))
                (Fin (MAX_DB init + eps))) /\
  level_le
    (calculate_db_level
       (fst (adaptive_volume_control (MAX_DB init)
               (to_float [(-32768)%Z]))))
    (Fin (MAX_DB init + 0)).
Proof.
  split; [| split; [| split]].
  - destruct (step_learning_stay passthrough_kernel init 0 [(-32768)%Z])
      as (_ & _ & H).
    + apply fresh_learning; [exact init_fresh | exact init_window_pos].
    + rewrite learning_window_init. reflexivity.
    + exact H.
  - rewrite to_float_negative_full_scale. exact calculate_db_level_minus_one.
  - intros eps He. rewrite to_float_negative_full_scale,
      calculate_db_level_minus_one. simpl. lra.
  - apply limiter_output_below. lra.
Qed.

(** C1, amended. For every eps >= 0: a chunk that measures above the
    ceiling leaves the limiter at ceiling + eps at most (the soft knee
    never overshoots, it lowers the level further); and every chunk that
    an active processor with processing enabled returns, read back as the
    meter reads its input, measures ceiling + eps at most, whatever the
    filter kernel returns. *)
Theorem active_output_keeps_ceiling (K : Z -> R -> list R -> list R)
    (s : SafeAudioProcessor) (c out : list Z) (eps : R) :
  0 <= eps ->
  learning_noise s = false -> noise_learned s = true ->
  processing_enabled s = true ->
  snd (process_audio_chunk K s c) = Ok out ->
  (forall a : list R,
      level_gt (calculate_db_level a) (MAX_DB s) ->
      level_le (calculate_db_level (fst (adaptive_volume_control (MAX_DB s) a)))
               (Fin (MAX_DB s + eps)))
  /\ level_le (calculate_db_level (to_float out)) (Fin (MAX_DB s + eps)).
Proof.
  intros He Hl Hnl Hen H. split.
  { intros a _. now apply limiter_output_below. }
  rewrite (process_active K s c Hl Hen) in H.
  unfold noise_reduction in H.
  change (noise_learned (metered s c)) with (noise_learned s) in H.
  change (noise_profile (metered s c)) with (noise_profile s) in H.
  change (MAX_DB (metered s c)) with (MAX_DB s) in H.
  rewrite Hnl in H. cbn [andb] in H.
  destruct (Z.ltb_spec 0 (Np.len (to_float c))) as [Hpos | Hzero].
  - destruct (noise_profile s) as [p |]; [| discriminate].
    destruct (if (Np.len (to_float c) =? Np.len p)%Z then _ else _)
      as [a1 | e]; [| discriminate].
    destruct (low_pass_filter K (metered s c) a1 8000) as [a2 | e];
      [| discriminate].
    pose proof (limiter_output_below (MAX_DB s) eps a2 He) as Hlim.
    destruct (adaptive_volume_control (MAX_DB s) a2) as [a3 d].
    cbn [snd fst] in H, Hlim. injection H as <-.
    eapply level_le_trans; [apply converted_chunk_level | exact Hlim].
  - cbn [snd] in H. injection H as <-.
    eapply level_le_trans; [apply converted_chunk_level |].
    unfold calculate_db_level.
    pose proof (len_nonneg (to_float c)).
    destruct (Z.eqb_spec (Np.len (to_float c)) 0); [exact I | lia].
Qed.

(** The chunk of 1024 samples at 32767 through the active processor
    reached by [learning_stream]. *)
Lemma active_loud_output :
  snd (process_audio_chunk passthrough_kernel
         (run passthrough_kernel init learning_stream)
         (repeat 32767%Z 1024))
  = Ok (to_int16
          (fst (adaptive_volume_control 70
                  (to_float (repeat 32767%Z 1024))))).
Proof.
  destruct (active_example passthrough_kernel) as (Hl & He & Hnl & Hp & HR & HM).
  set (s := run passthrough_kernel init learning_stream) in *.
  set (c := repeat 32767%Z 1024).
  rewrite (process_active passthrough_kernel s c Hl He).
  destruct (noise_reduction_mismatch passthrough_kernel (metered s c)
              (to_float c) (profile_of s)) as (_ & Hnr).
  - exact Hnl.
  - exact Hp.
  - rewrite len_to_float. apply short_of_profile. reflexivity.
  - reflexivity.
  - change (RATE (metered s c)) with (RATE s). rewrite HR.
    apply butter_accepts_default.
  - rewrite Hnr. change (RATE (metered s c)) with (RATE s).
    change (MAX_DB (metered s c)) with (MAX_DB s). rewrite HR, HM.
    reflexivity.
Qed.

(** The loud chunk after the learning window, with eps = 0. *)
Lemma active_output_keeps_ceiling_witness :
  let s := run passthrough_kernel init learning_stream in
  let out :=
    to_int16 (fst (adaptive_volume_control 70
                     (to_float (repeat 32767%Z 1024)))) in
  (forall a : list R,
      level_gt (calculate_db_level a) (MAX_DB s) ->
      level_le (calculate_db_level (fst (adaptive_volume_control (MAX_DB s) a)))
               (Fin (MAX_DB s + 0)))
  /\ level_le (calculate_db_level (to_float out)) (Fin (MAX_DB s + 0)).
Proof.
  exact (active_output_keeps_ceiling passthrough_kernel
           (run passthrough_kernel init learning_stream)
           (repeat 32767%Z 1024) _ 0 (Rle_refl 0)
           (proj1 (active_example passthrough_kernel))
           (proj1 (proj2 (proj2 (active_example passthrough_kernel))))
           (proj1 (proj2 (active_example passthrough_kernel)))
           active_loud_output).
Defined.

(** ** Devices and the console *)

Module DeviceFacts.

Import String Ascii Devices.
Local Open Scope string_scope.

(** What [list_audio_devices] lists from index [i] on. *)
Lemma list_audio_devices_from_spec (table : list device_info) (i : Z)
    (d : Z) (info : device_info) :
  (In (d, info) (fst (list_audio_devices_from i table)) <->
   (i <= d)%Z /\ nth_error table (Z.to_nat (d - i)) = Some info /\
   (0 < maxInputChannels info)%Z) /\
  (In (d, info) (snd (list_audio_devices_from i table)) ->
   In (d, info) (fst (list_audio_devices_from i table)) /\
   any_keyword desktop_keywords (lower (name info)) = true).
Proof.
  revert i. induction table as [| x table IH]; intros i.
  - simpl. split; [| tauto]. split; [tauto |].
    intros (_ & H & _). destruct (Z.to_nat (d - i)); discriminate.
  - cbn [list_audio_devices_from].
    destruct (IH (i + 1)%Z) as [IH1 IH2].
    destruct (list_audio_devices_from (i + 1) table) as [inp desk].
    cbn [fst snd] in *.
    assert (Hshift : forall info',
      (i + 1 <= d)%Z ->
      nth_error table (Z.to_nat (d - (i + 1))) = Some info' <->
      nth_error (x :: table) (Z.to_nat (d - i)) = Some info').
    { intros info' Hd.
      replace (Z.to_nat (d - i)) with (S (Z.to_nat (d - (i + 1)))) by lia.
      reflexivity. }
    assert (Htail : In (d, info) inp <->
      (i + 1 <= d)%Z /\ nth_error (x :: table) (Z.to_nat (d - i)) = Some info
      /\ (0 < maxInputChannels info)%Z).
    { rewrite IH1. split; intros (H1 & H2 & H3); repeat split; auto;
        now apply (Hshift info H1). }
    destruct (Z.ltb_spec 0 (maxInputChannels x)) as [Hx | Hx]; cbn [fst snd].
    + split.
      * split.
        -- intros [[= <- <-] | H].
           ++ replace (Z.to_nat (i - i)) with 0%nat by lia. simpl.
              repeat split; auto. lia.
           ++ apply Htail in H. destruct H as (H1 & H2 & H3).
              repeat split; auto. lia.
        -- intros (H1 & H2 & H3).
           destruct (Z.eq_dec d i) as [-> | Hne].
           ++ replace (Z.to_nat (i - i)) with 0%nat in H2 by lia.
              simpl in H2. injection H2 as <-. now left.
           ++ right. apply Htail. repeat split; auto. lia.
      * destruct (any_keyword desktop_keywords (lower (name x))) eqn:Hk.
        -- intros [[= <- <-] | H]; [split; [now left | exact Hk] |].
           destruct (IH2 H) as [H1 H2]. split; [now right | exact H2].
        -- intros H. destruct (IH2 H) as [H1 H2].
           split; [now right | exact H2].
    + split.
      * rewrite Htail. split.
        -- intros (H1 & H2 & H3). repeat split; auto. lia.
        -- intros (H1 & H2 & H3). repeat split; auto.
           destruct (Z.eq_dec d i) as [-> | Hne]; [| lia].
           replace (Z.to_nat (i - i)) with 0%nat in H2 by lia.
           simpl in H2. injection H2 as <-. lia.
      * exact IH2.
Qed.

(** X13. [list_audio_devices] lists a pair of an index and a device
    exactly when the device stands at that index in the table and has
    input channels; the desktop microphones it lists are among these input
    devices, and each has one of the desktop keywords in its lower-case
    name. *)
Theorem list_audio_devices_exact (table : list device_info)
    (d : Z) (info : device_info) :
  (In (d, info) (fst (list_audio_devices table)) <->
   (0 <= d)%Z /\ nth_error table (Z.to_nat d) = Some info /\
   (0 < maxInputChannels info)%Z) /\
  incl (snd (list_audio_devices table)) (fst (list_audio_devices table)) /\
  Forall (fun p => any_keyword desktop_keywords (lower (name (snd p))) = true)
         (snd (list_audio_devices table)).
Proof.
  unfold list_audio_devices. split; [| split].
  - destruct (list_audio_devices_from_spec table 0 d info) as [H1 _].
    now rewrite Z.sub_0_r in H1.
  - intros [d' info'] H.
    now apply (list_audio_devices_from_spec table 0 d' info').
  - apply Forall_forall. intros [d' info'] H.
    now apply (list_audio_devices_from_spec table 0 d' info').
Qed.

Lemma existsb_fst (l : list (Z * device_info)) (z : Z) :
  existsb (fun d => (fst d =? z)%Z) l = true ->
  exists info, In (z, info) l.
Proof.
  intros H. apply existsb_exists in H. destruct H as ([i info] & Hin & Heq).
  apply Z.eqb_eq in Heq. simpl in Heq. subst. now exists info.
Qed.

Lemma select_loop_valid (inp desk : list (Z * device_info))
    (console rest : list typed) (z : Z) :
  (forall d info, In (d, info) desk -> In (d, info) inp) ->
  select_loop inp desk console = Returns (Some z) rest ->
  exists info, In (z, info) inp.
Proof.
  intros Hsub. induction console as [| t console IH]; [discriminate |].
  cbn [select_loop]. destruct t as [l |]; [| discriminate].
  destruct (String.eqb (text l) "auto").
  - destruct desk as [| [i info] desk'] eqn:Hd; [exact IH |].
    intros [= <- _]. exists info. apply Hsub. now left.
  - destruct (String.eqb (text l) "list"); [exact IH |].
    destruct (int_value l) as [v |]; [| exact IH].
    destruct (existsb _ inp) eqn:He; [| exact IH].
    intros [= <- _]. now apply existsb_fst.
Qed.

Lemma listed_input_device (table : list device_info) (d : Z)
    (info : device_info) :
  In (d, info) (fst (list_audio_devices table)) ->
  (0 <= d)%Z /\ nth_error table (Z.to_nat d) = Some info /\
  (0 < maxInputChannels info)%Z.
Proof.
  unfold list_audio_devices.
  destruct (list_audio_devices_from_spec table 0 d info) as [H1 _].
  rewrite Z.sub_0_r in H1. apply H1.
Qed.

Lemma listed_desktop_device (table : list device_info) (d : Z)
    (info : device_info) :
  In (d, info) (snd (list_audio_devices table)) ->
  In (d, info) (fst (list_audio_devices table)).
Proof.
  unfold list_audio_devices.
  apply (list_audio_devices_from_spec table 0 d info).
Qed.

(** X14. Whatever is typed, a device index [select_desktop_microphone]
    returns is the index of a device of the table that has input
    channels. *)
Theorem select_returns_input_device (table : list device_info)
    (console rest : list typed) (z : Z) :
  select_desktop_microphone table console = Returns (Some z) rest ->
  exists info,
    (0 <= z)%Z /\ nth_error table (Z.to_nat z) = Some info /\
    (0 < maxInputChannels info)%Z.
Proof.
  unfold select_desktop_microphone.
  pose proof (listed_input_device table) as Hin.
  pose proof (listed_desktop_device table) as Hdesk.
  destruct (list_audio_devices table) as [inp desk].
  cbn [fst snd] in Hin, Hdesk.
  destruct inp as [| p inp'] eqn:Hinp; [discriminate |].
  rewrite <- Hinp in *. intros H.
  apply select_loop_valid in H; [| exact Hdesk].
  destruct H as (info & H). exists info. now apply Hin.
Qed.

(** The desktop microphone of the example table, chosen by "auto". *)
Lemma select_returns_input_device_witness :
  exists info,
    (0 <= 1)%Z /\ nth_error example_table (Z.to_nat 1) = Some info /\
    (0 < maxInputChannels info)%Z.
Proof.
  exact (select_returns_input_device example_table example_console [] 1
           eq_refl).
Defined.







(** A keyword found in a name is found with any of its own endings. *)
Lemma prefix_contains_ending (a b s : string) :
  prefix (a ++ b) s = true -> contains b s = true.
Proof.
  revert s. induction a as [| c a IH]; intros s H.
  - change ("" ++ b) with b in H.
    destruct s; cbn [contains]; rewrite H; reflexivity.
  - destruct s as [| c' s]; [discriminate |]. simpl in H.
    destruct (Ascii.ascii_dec c c'); [| discriminate].
    cbn [contains]. rewrite (IH s H). apply orb_true_r.
Qed.

Lemma contains_ending (a b s : string) :
  contains (a ++ b) s = true -> contains b s = true.
Proof.
  induction s as [| c s IH]; cbn [contains]; intros H.
  - rewrite orb_false_r in H. apply prefix_contains_ending in H. exact H.
  - apply orb_true_iff in H. destruct H as [H | H].
    + apply prefix_contains_ending in H. exact H.
    + rewrite (IH H). apply orb_true_r.
Qed.

(** X16. The three programs' tests for a headphone name are nested: a
    name simple_pc_to_headphone.py takes for headphones is taken for
    headphones by ultimate_audio_visualizer.py, and such a name by
    safe_audio_system.py. In the latter the keyword "usb headset" decides
    nothing: the test gives the same without it. *)
Theorem headphone_tests_nested (device_name : string) :
  implb (simple_is_headphones device_name)
        (ultimate_is_headphones device_name) = true /\
  implb (ultimate_is_headphones device_name)
        (any_keyword headphone_keywords (lower device_name)) = true /\
  any_keyword headphone_keywords (lower device_name)
  = any_keyword ["headphone"; "headset"; "bluetooth"; "earphone";
                 "airpods"; "buds"] (lower device_name).
Proof.
  unfold simple_is_headphones, ultimate_is_headphones, any_keyword,
    headphone_keywords.
  cbn [existsb].
  pose proof (contains_ending "usb " "headset" (lower device_name)) as Hdead.
  change ("usb " ++ "headset") with "usb headset" in Hdead.
  destruct (contains "headphone" _), (contains "headset" _),
    (contains "usb headset" _), (contains "bluetooth" _),
    (contains "earphone" _), (contains "airpods" _), (contains "buds" _);
    try reflexivity; cbn; auto;
    try (specialize (Hdead eq_refl); discriminate).
Qed.

End DeviceFacts.

(** ** Device selection of simple_pc_to_headphone.py *)

Module SimpleDeviceFacts.

Import String Ascii Devices SimpleDevices.
Local Open Scope string_scope.

Lemma nth_error_shift {A : Type} (x : A) (l : list A) (i d : Z) :
  (i + 1 <= d)%Z ->
  nth_error (x :: l) (Z.to_nat (d - i)) = nth_error l (Z.to_nat (d - (i + 1))).
Proof.
  intros H. replace (Z.to_nat (d - i)) with (S (Z.to_nat (d - (i + 1)))) by lia.
  reflexivity.
Qed.

(** What [get_devices] lists from index [i] on: entries that can be read,
    with channels on the side they are listed for. *)
Lemma get_devices_from_inputs (table : list (option device_info)) (i : Z)
    (device : input_device) :
  In device (fst (get_devices_from i table)) ->
  (i <= in_index device)%Z /\
  exists info,
    nth_error table (Z.to_nat (in_index device - i)) = Some (Some info) /\
    (0 < maxInputChannels info)%Z.
Proof.
  revert i. induction table as [| entry table IH]; intros i.
  - simpl. tauto.
  - cbn [get_devices_from]. specialize (IH (i + 1)%Z).
    destruct (get_devices_from (i + 1) table) as [inp outp].
    cbn [fst] in IH.
    assert (Hrest : In device inp ->
              (i <= in_index device)%Z /\
              exists info,
                nth_error (entry :: table) (Z.to_nat (in_index device - i)) =
                  Some (Some info) /\ (0 < maxInputChannels info)%Z).
    { intros Hin. destruct (IH Hin) as (Hle & info & Hnth & Hpos).
      split; [lia |]. exists info. split; [| exact Hpos].
      rewrite nth_error_shift by lia. exact Hnth. }
    destruct entry as [info |]; cbn [fst]; [| exact Hrest].
    destruct (0 <? maxInputChannels info)%Z eqn:Hin; [| exact Hrest].
    intros [Heq | Hin']; [| exact (Hrest Hin')].
    subst device. cbn [in_index]. split; [lia |].
    exists info. replace (Z.to_nat (i - i)) with 0%nat by lia.
    split; [reflexivity |]. apply Z.ltb_lt. exact Hin.
Qed.

Lemma get_devices_from_outputs (table : list (option device_info)) (i : Z)
    (device : output_device) :
  In device (snd (get_devices_from i table)) ->
  (i <= out_index device)%Z /\
  exists info,
    nth_error table (Z.to_nat (out_index device - i)) = Some (Some info) /\
    (0 < maxOutputChannels info)%Z.
Proof.
  revert i. induction table as [| entry table IH]; intros i.
  - simpl. tauto.
  - cbn [get_devices_from]. specialize (IH (i + 1)%Z).
    destruct (get_devices_from (i + 1) table) as [inp outp].
    cbn [snd] in IH.
    assert (Hrest : In device outp ->
              (i <= out_index device)%Z /\
              exists info,
                nth_error (entry :: table) (Z.to_nat (out_index device - i)) =
                  Some (Some info) /\ (0 < maxOutputChannels info)%Z).
    { intros Hin. destruct (IH Hin) as (Hle & info & Hnth & Hpos).
      split; [lia |]. exists info. split; [| exact Hpos].
      rewrite nth_error_shift by lia. exact Hnth. }
    destruct entry as [info |]; cbn [snd]; [| exact Hrest].
    destruct (0 <? maxOutputChannels info)%Z eqn:Hout; [| exact Hrest].
    intros [Heq | Hin']; [| exact (Hrest Hin')].
    subst device. cbn [out_index]. split; [lia |].
    exists info. replace (Z.to_nat (i - i)) with 0%nat by lia.
    split; [reflexivity |]. apply Z.ltb_lt. exact Hout.
Qed.

(** A Python index, negative or not, picks an element of the list. *)
Lemma py_index_In {A : Type} (l : list A) (choice : Z) (a : A) :
  py_index l choice = Some a -> In a l.
Proof.
  unfold py_index.
  destruct ((0 <=? choice) && (choice <? Z.of_nat (List.length l)))%Z.
  - apply nth_error_In.
  - destruct ((- Z.of_nat (List.length l) <=? choice) && (choice <? 0))%Z;
      [apply nth_error_In | discriminate].
Qed.

Lemma select_manually_In {A : Type} (index : A -> Z) (devices : list A)
    (console rest : list typed) (d : Z) :
  select_manually index devices console = Returns (Some d) rest ->
  exists device, In device devices /\ index device = d.
Proof.
  unfold select_manually.
  destruct console as [| [l |] console]; try discriminate.
  destruct (int_value l) as [choice |]; try discriminate.
  destruct (py_index devices choice) as [device |] eqn:Hpy;
    cbn [option_map]; try discriminate.
  intros H. injection H as H _. exists device.
  split; [exact (py_index_In _ _ _ Hpy) | exact H].
Qed.

Lemma find_index_In {A : Type} (p : A -> bool) (index : A -> Z)
    (devices : list A) (d : Z) :
  option_map index (find p devices) = Some d ->
  exists device, In device devices /\ index device = d.
Proof.
  destruct (find p devices) as [device |] eqn:Hfind;
    cbn [option_map]; try discriminate.
  intros H. injection H as H. exists device.
  split; [exact (proj1 (find_some _ _ Hfind)) | exact H].
Qed.

(** What [select_devices] returns on each side is the index of a listed
    device. *)
Lemma select_devices_listed (test : Z -> bool)
    (table : list (option device_info)) (console rest : list typed)
    (selected_input selected_output : option Z) :
  select_devices test table console =
    Returns (selected_input, selected_output) rest ->
  (forall i, selected_input = Some i ->
     exists device, In device (fst (get_devices table)) /\
                    in_index device = i) /\
  (forall o, selected_output = Some o ->
     exists device, In device (snd (get_devices table)) /\
                    out_index device = o).
Proof.
  unfold select_devices.
  destruct (get_devices table) as [inp outp]. cbn [fst snd].
  destruct (check_headphone_availability test outp console)
    as [[|] console1 | |]; try discriminate.
  2:{ intros H. injection H as <- <- _. split; intros ? ?; discriminate. }
  pose proof (find_index_In is_pc_microphone in_index inp) as Hfi.
  pose proof (find_index_In is_headphones out_index outp) as Hfo.
  destruct (option_map in_index (find is_pc_microphone inp)) as [i0 |].
  - destruct (option_map out_index (find is_headphones outp)) as [o0 |].
    + intros H. injection H as <- <- _.
      split; intros ? Heq; injection Heq as <-; auto.
    + destruct (select_manually out_index outp console1)
        as [so console2 | |] eqn:Hm; try discriminate.
      intros H. injection H as <- <- _.
      split; intros ? Heq.
      * injection Heq as <-. auto.
      * subst so. exact (select_manually_In _ _ _ _ _ Hm).
  - destruct (select_manually in_index inp console1)
      as [si console2 | |] eqn:Hmi; try discriminate.
    destruct (option_map out_index (find is_headphones outp)) as [o0 |].
    + intros H. injection H as <- <- _.
      split; intros ? Heq.
      * subst si. exact (select_manually_In _ _ _ _ _ Hmi).
      * injection Heq as <-. auto.
    + destruct (select_manually out_index outp console2)
        as [so console3 | |] eqn:Hmo; try discriminate.
      intros H. injection H as <- <- _.
      split; intros ? Heq.
      * subst si. exact (select_manually_In _ _ _ _ _ Hmi).
      * subst so. exact (select_manually_In _ _ _ _ _ Hmo).
Qed.

(** X20. simple_pc_to_headphone.py, [run] with [select_devices],
    [check_headphone_availability] and [get_devices]: processing is
    started only on a pair of devices of the table that can be read, the
    first with input channels and the second with output channels. This
    holds for the automatic choice and for a number typed at the prompts,
    negative numbers (which Python counts from the end of the list)
    included. *)
Theorem simple_run_starts_on_devices (test : Z -> bool)
    (table : list (option device_info)) (console : list typed)
    (input_device output_device : Z)
    (H : run test table console = Run_started input_device output_device) :
  (exists info,
     (0 <= input_device)%Z /\
     nth_error table (Z.to_nat input_device) = Some (Some info) /\
     (0 < maxInputChannels info)%Z) /\
  (exists info,
     (0 <= output_device)%Z /\
     nth_error table (Z.to_nat output_device) = Some (Some info) /\
     (0 < maxOutputChannels info)%Z).
Proof.
  unfold run in H.
  destruct (select_devices test table console)
    as [[[i |] [o |]] rest | |] eqn:Hsel; try discriminate.
  injection H as <- <-.
  destruct (select_devices_listed _ _ _ _ _ _ Hsel) as [Hi Ho].
  destruct (Hi i eq_refl) as (di & Hdi & <-).
  destruct (Ho o eq_refl) as (do & Hdo & <-).
  unfold get_devices in Hdi, Hdo.
  destruct (get_devices_from_inputs _ _ _ Hdi) as (Hle & info & Hnth & Hpos).
  destruct (get_devices_from_outputs _ _ _ Hdo)
    as (Hle' & info' & Hnth' & Hpos').
  rewrite Z.sub_0_r in Hnth, Hnth'.
  split; [exists info | exists info']; auto.
Qed.

Lemma simple_run_starts_on_devices_witness :
  run (fun _ => true) example_table example_console = Run_started 3 0 /\
  (exists info,
     (0 <= 3)%Z /\
     nth_error example_table (Z.to_nat 3) = Some (Some info) /\
     (0 < maxInputChannels info)%Z) /\
  (exists info,
     (0 <= 0)%Z /\
     nth_error example_table (Z.to_nat 0) = Some (Some info) /\
     (0 < maxOutputChannels info)%Z).
Proof.
  split; [reflexivity |].
  exact (simple_run_starts_on_devices (fun _ => true) example_table
           example_console 3 0 eq_refl).
Defined.

End SimpleDeviceFacts.
